(** * RTLCSS core: directive state machine and declaration pipeline

    A shallow embedding of [lib/rtlcss.js]: the node gate [shouldProcess]
    and the PostCSS visitor handlers [Once], [Rule], [AtRule], [Comment],
    [Declaration] and [OnceExit], over an explicit run state (node store,
    processed marks, directive stack, flip counter, pending-rename table,
    and the ordered log of warnings and callback invocations), followed by
    the properties of the specification the handlers have, and the inputs on
    which they depart from it.

    Modelling conventions.
    - PostCSS nodes are mutable objects: they live in a store keyed by a
      node identity; handlers receive the identity.
    - Plugin callbacks are modelled by what they hand back to the core:
      control [begin]/[end] and a processor's [action] by what they return,
      a value directive's [action] by what it returns and by the
      declaration's property, value and raw fragments as it leaves them
      (the handler reads them again after the call).  Every invocation is
      recorded in the log, with its result.
    - The helpers of [util.js] are parameters (record [Util]); the stack of
      [state.js] and the directive parser, which are not among the sources at
      hand, are modelled from the specification (module [state]).
    - A JavaScript [TypeError] is a [Fault]: the handler stops there.
    - Strings used in a boolean position follow JavaScript: the empty string
      is falsy, anything else truthy.  [node.raws.between] may be absent
      (a node that was not parsed): it is an option.  An absent
      [node.raws.value] or [node.raws.important] is the empty string, which
      the handler cannot tell from it.
    - The tables of the configuration and of the plugins ([aliases],
      [blacklist], [directives.control]) are plain objects: a name that is
      not an own key of the table but a member of [Object.prototype] reads
      as that member ([member]). *)

From stdpp Require Import base strings gmap list.

Set Default Proof Using "Type".

(** ** Data model *)

Definition nodeid := positive.

Inductive NodeType := root | rule | atrule | decl | comment.

#[global] Instance NodeType_eq_dec : EqDecision NodeType.
Proof. solve_decision. Defined.

(** The fields of a PostCSS node that the core reads or writes, and the
    [text] of a comment.  [raws_value_raw] stands for [node.raws.value.raw]
    and [raws_important] for [node.raws.important]. *)
Record Node := mkNode {
  type : NodeType;
  parent : option nodeid;
  text : string;
  selector : string;
  params : string;
  prop : string;
  value : string;
  important : bool;
  raws_between : option string;
  raws_important : string;
  raws_value_raw : string
}.

Definition truthy (s : string) : bool :=
  match s with EmptyString => false | String _ _ => true end.

(** *** Plain objects used as tables

    The names every plain object inherits from [Object.prototype]. *)
Definition object_prototype : list string :=
  ["constructor"; "hasOwnProperty"; "isPrototypeOf"; "propertyIsEnumerable";
   "toLocaleString"; "toString"; "valueOf"; "__defineGetter__";
   "__defineSetter__"; "__lookupGetter__"; "__lookupSetter__"; "__proto__"].

Definition inherited (k : string) : bool := bool_decide (k ∈ object_prototype).

(** What [table[k]] reads: the own entry, else the member of
    [Object.prototype] of that name, else [undefined]. *)
Inductive Member (A : Type) :=
| Own (a : A)
| Inherited
| Absent.
Arguments Own {A} a.
Arguments Inherited {A}.
Arguments Absent {A}.

Definition member {A} (m : gmap string A) (k : string) : Member A :=
  match m !! k with
  | Some a => Own a
  | None => if inherited k then Inherited else Absent
  end.

(** Directive metadata, as the directive parser produces it. *)
Record Metadata := mkMetadata {
  md_name : string;
  md_begin : bool;
  md_end : bool;
  md_blacklist : bool
}.

Definition set_blacklist (m : Metadata) (b : bool) : Metadata :=
  {| md_name := md_name m; md_begin := md_begin m; md_end := md_end m;
     md_blacklist := b |}.

(** A control directive: [expect] is indexed by node type, plus the
    [self] key; [end] is optional. *)
Record ControlDirective := mkControl {
  cd_expect : NodeType -> bool;
  cd_expect_self : bool;
  cd_begin : Node -> Metadata -> bool;
  cd_end : option (Node -> Metadata -> bool)
}.

(** The [action] of a value directive answers with the declaration as it
    leaves it and with its return value. *)
Record ValueDirective := mkValue {
  vd_name : string;
  vd_action : Node -> Node * bool
}.

Record Processor := mkProcessor {
  pr_expr : string -> bool;
  pr_action : string -> string -> string * string
}.

Record Plugin := mkPlugin {
  pl_name : string;
  pl_control : gmap string ControlDirective;
  pl_value : list ValueDirective;
  pl_processors : list Processor
}.

Inductive ProcessUrls :=
| PUflag (b : bool)
| PUobject (atrule_flag : bool).

Record Config := mkConfig {
  clean : bool;
  processUrls : ProcessUrls;
  autoRename : bool;
  autoRenameStrict : bool;
  processEnv : bool;
  aliases : gmap string string;
  blacklist : gmap string (gmap string bool);
  plugins : list Plugin
}.

(** What [util.saveComments] returns: the value with comments replaced by
    placeholders, and the comments set aside. *)
Record Saved := mkSaved {
  sv_value : string;
  sv_comments : list string
}.

(** The helpers of [util.js] the core calls. *)
Record Util := mkUtil {
  regexDirective : string -> string -> bool;
  trimDirective : string -> string;
  saveComments : string -> Saved;
  restoreComments : Saved -> string;
  swap : string -> string -> string -> string;
  applyStringMap : string -> bool -> string;
  isLastOfType : nodeid -> bool
}.

(** What [current.directive] holds: [null], as a new entry has it;
    [undefined], a control directive [Dir d], or a member of
    [Object.prototype] ([Proto]: a function or the prototype itself, truthy
    and without [expect], [begin] and [end]), as the lookup in a plugin's
    control table leaves it. *)
Inductive Slot :=
| Null
| Undefined
| Proto
| Dir (d : ControlDirective).

(** [current.directive] in a boolean position. *)
Definition truthy_slot (v : Slot) : bool :=
  match v with
  | Null | Undefined => false
  | Proto | Dir _ => true
  end.

(** What [plugin.directives.control[name]] reads. *)
Definition held (m : Member ControlDirective) : Slot :=
  match m with
  | Own d => Dir d
  | Inherited => Proto
  | Absent => Undefined
  end.

(** An entry of the directive stack.  [e_id] stands for the identity of the
    JavaScript object. *)
Record Entry := mkEntry {
  e_id : nat;
  metadata : Metadata;
  directive : Slot;
  source : nodeid;
  preserve : bool
}.

Inductive Warning :=
| Blacklisted (plugin name : string) (node : nodeid)
| Unsupported (name : string) (node : nodeid)
| Unclosed (name : string) (node : nodeid)
| RenameSkipped (node : nodeid).

Definition dquote : string := String (Ascii.ascii_of_nat 34) EmptyString.

(** The message text passed to [result.warn]. *)
Definition warning_text (w : Warning) : string :=
  match w with
  | Blacklisted p n _ =>
      "directive " +:+ dquote +:+ p +:+ "." +:+ n +:+ dquote +:+ " is blacklisted."
  | Unsupported n _ => "unsupported directive " +:+ dquote +:+ n +:+ dquote +:+ "."
  | Unclosed n _ => "unclosed directive " +:+ dquote +:+ n +:+ dquote +:+ "."
  | RenameSkipped _ => "renaming skipped due to lack of a matching pair."
  end.

(** ** Run state, log and faults *)

(** The log: [result.warn] calls, hook calls and plugin callback
    invocations, in the order they happen.  Plugins and their value
    directives and processors are named by their position in their list;
    a stack entry by its identity. *)
Inductive Event :=
| HookPre (r : nodeid)
| HookPost (r : nodeid)
| CallBegin (entry : nat) (node : nodeid) (result : bool)
| CallEnd (entry : nat) (node : nodeid) (result : bool)
| CallValue (plugin k : nat) (node : nodeid) (result : bool)
| CallProcessor (plugin k : nat) (node : nodeid) (changed : bool)
| Warn (w : Warning).

Record State := mkState {
  nodes : gmap nodeid Node;
  processed : gmap nodeid bool;
  stack : list Entry;
  fresh : nat;
  flipped : nat;
  toBeRenamed : list (string * nodeid);
  log : list Event
}.

(** [NullDirective]: [current.directive.expect] read on an entry whose
    directive is [null] or [undefined].  [NoExpect]: a key read on the
    [expect] a member of [Object.prototype] does not have.
    [EndNotFunction]: [current.directive.end(...)] called on a directive
    without [end].  [MatchNotFunction]: [alias.match(...)] called on a
    member of [Object.prototype].  [TrimUndefined]: [util.trimDirective]
    handed an absent [raws.between].  [NoParent]: [node.parent.type] read on
    a node without parent.  [NoSuchNode]: a node identity that is not in the
    store. *)
Inductive Fault :=
| NullDirective
| NoExpect
| EndNotFunction
| MatchNotFunction
| TrimUndefined
| NoParent
| NoSuchNode.

Inductive Res (A : Type) :=
| Ok (a : A) (s : State)
| Fail (f : Fault).
Arguments Ok {A} a s.
Arguments Fail {A} f.

Definition M (A : Type) : Type := State -> Res A.

Definition ret {A} (a : A) : M A := fun s => Ok a s.
Definition bind {A B} (m : M A) (k : A -> M B) : M B :=
  fun s => match m s with
           | Ok a s' => k a s'
           | Fail f => Fail f
           end.
Definition fail {A} (f : Fault) : M A := fun _ => Fail f.

Notation "'do' x <- m ; k" := (bind m (fun x => k))
  (at level 10, x binder, m at level 100, k at level 200).
Notation "m ;; k" := (bind m (fun _ => k))
  (at level 100, k at level 200, right associativity).

Definition get : M State := fun s => Ok s s.
Definition when (b : bool) (m : M unit) : M unit := if b then m else ret tt.

Fixpoint forM {A} (l : list A) (f : A -> M unit) : M unit :=
  match l with
  | [] => ret tt
  | x :: l' => f x ;; forM l' f
  end.

Definition set_nodes (f : gmap nodeid Node -> gmap nodeid Node) (s : State) : State :=
  {| nodes := f (nodes s); processed := processed s; stack := stack s;
     fresh := fresh s; flipped := flipped s; toBeRenamed := toBeRenamed s;
     log := log s |}.
Definition set_processed (f : gmap nodeid bool -> gmap nodeid bool) (s : State) : State :=
  {| nodes := nodes s; processed := f (processed s); stack := stack s;
     fresh := fresh s; flipped := flipped s; toBeRenamed := toBeRenamed s;
     log := log s |}.
Definition set_stack (f : list Entry -> list Entry) (s : State) : State :=
  {| nodes := nodes s; processed := processed s; stack := f (stack s);
     fresh := fresh s; flipped := flipped s; toBeRenamed := toBeRenamed s;
     log := log s |}.
Definition set_fresh (f : nat -> nat) (s : State) : State :=
  {| nodes := nodes s; processed := processed s; stack := stack s;
     fresh := f (fresh s); flipped := flipped s; toBeRenamed := toBeRenamed s;
     log := log s |}.
Definition set_flipped (f : nat -> nat) (s : State) : State :=
  {| nodes := nodes s; processed := processed s; stack := stack s;
     fresh := fresh s; flipped := f (flipped s); toBeRenamed := toBeRenamed s;
     log := log s |}.
Definition set_toBeRenamed
    (f : list (string * nodeid) -> list (string * nodeid)) (s : State) : State :=
  {| nodes := nodes s; processed := processed s; stack := stack s;
     fresh := fresh s; flipped := flipped s; toBeRenamed := f (toBeRenamed s);
     log := log s |}.
Definition set_log (f : list Event -> list Event) (s : State) : State :=
  {| nodes := nodes s; processed := processed s; stack := stack s;
     fresh := fresh s; flipped := flipped s; toBeRenamed := toBeRenamed s;
     log := f (log s) |}.

Definition modify (f : State -> State) : M unit := fun s => Ok tt (f s).

Definition emit (e : Event) : M unit := modify (set_log (fun l => l ++ [e])).
Definition warn (w : Warning) : M unit := emit (Warn w).

Definition getNode (n : nodeid) : M Node :=
  fun s => match nodes s !! n with
           | Some nd => Ok nd s
           | None => Fail NoSuchNode
           end.
Definition setNode (n : nodeid) (nd : Node) : M unit :=
  modify (set_nodes (fun m => <[n := nd]> m)).

(** [node[processed]] in a boolean position, and its assignment. *)
Definition marked (s : State) (n : nodeid) : bool :=
  match processed s !! n with Some b => b | None => false end.
Definition setMark (n : nodeid) (b : bool) : M unit :=
  modify (set_processed (fun m => <[n := b]> m)).

(** The initial state of an instance: nothing marked, empty stack,
    [flipped = 0], [toBeRenamed = {}]. *)
Definition initial (tree : gmap nodeid Node) : State :=
  {| nodes := tree; processed := ∅; stack := []; fresh := 0; flipped := 0;
     toBeRenamed := []; log := [] |}.

(** A JavaScript object used as a string-keyed table whose key order is
    observed ([Object.keys]): keys in insertion order, assignment to an
    existing key keeps its position.  (Keys that read as array indices, which
    JavaScript lists first, and the names an object inherits from its
    prototype are left out of the model.) *)
Fixpoint table_get (k : string) (t : list (string * nodeid)) : option nodeid :=
  match t with
  | [] => None
  | (k', v) :: t' => if bool_decide (k' = k) then Some v else table_get k t'
  end.
Fixpoint table_set (k : string) (v : nodeid) (t : list (string * nodeid))
    : list (string * nodeid) :=
  match t with
  | [] => [(k, v)]
  | (k', v') :: t' =>
      if bool_decide (k' = k) then (k', v) :: t' else (k', v') :: table_set k v t'
  end.

(** ** The directive stack ([state.js]) *)

Module state.

(** Modelled from the spec: [state.js] is not part of the sources at hand.
    The stack lists the open entries outermost first; pushing appends. *)
Definition push (current : Entry) : M unit :=
  modify (set_stack (fun st => st ++ [current])).

(** Modelled from the spec: the removal [state.pop] of [state.js] does, by
    the identity of the entry. *)
Fixpoint remove_entry (i : nat) (st : list Entry) : list Entry :=
  match st with
  | [] => []
  | e :: st' => if bool_decide (e_id e = i) then st' else e :: remove_entry i st'
  end.

(** Modelled from the spec: [state.pop(current)] of [state.js], "pop it":
    the entry leaves the stack (the first slot holding that object). *)
Definition pop (current : Entry) : M unit :=
  modify (set_stack (remove_entry (e_id current))).

(** Modelled from the spec: [state.walk(callback)] of [state.js]: the
    callback is applied to every entry open when the walk starts, "in stack
    order (outermost first)"; an entry popped by the callback does not stop
    the walk. *)
Definition walk (callback : Entry -> M unit) : M unit :=
  do s <- get; forM (stack s) callback.

(** Modelled from the spec: the lookup [state.parse] of [state.js] needs
    for an end-only form, which "closes a previously opened entry": the
    innermost open entry of that name. *)
Definition find_open (name : string) (st : list Entry) : option Entry :=
  List.find (fun e => bool_decide (md_name (metadata e) = name)) (rev st).

Section parse.
(** Modelled from the spec: [directive-parser.js] is not part of the
    sources at hand; from the text of a comment it yields its directive
    forms, "multiple chained directive forms" in left-to-right order, and
    none for a comment that is not a directive. *)
Variable directiveParser : string -> list Metadata.

(** Modelled from the spec: the object [state.parse] of [state.js] hands to
    the callback for one form.  An end-only form "closes a previously opened
    entry", so it stands for that entry (same identity and resolved
    directive) under the form's metadata; any other form is a new entry, not
    resolved yet. *)
Definition current_of (node : nodeid) (m : Metadata) (s : State) : Entry :=
  match (if negb (md_begin m) && md_end m
         then find_open (md_name m) (stack s) else None) with
  | Some e => {| e_id := e_id e; metadata := m; directive := directive e;
                 source := node; preserve := preserve e |}
  | None => {| e_id := fresh s; metadata := m; directive := Null;
               source := node; preserve := false |}
  end.

(** Modelled from the spec: the loop of [state.parse] over the forms of one
    comment. *)
Fixpoint parse_forms (node : nodeid) (forms : list Metadata)
    (callback : Entry -> M (bool * Entry)) : M unit :=
  match forms with
  | [] => ret tt
  | m :: rest =>
      do s <- get;
      let current := current_of node m s in
      modify (set_fresh S) ;;
      do r <- callback current;
      if fst r
      then push (snd r) ;; parse_forms node rest callback
      else ret tt
  end.

(** Modelled from the spec: [state.parse(node, result, callback)] of
    [state.js]: "for each form in left-to-right order", the callback
    resolves and dispatches the form; when it answers [true] the entry is
    pushed and scanning continues, when it answers [false] scanning
    stops.  The callback's writes to [current] are returned with its
    answer. *)
Definition parse (node : nodeid) (callback : Entry -> M (bool * Entry)) : M unit :=
  do nd <- getNode node;
  parse_forms node (directiveParser (text nd)) callback.
End parse.

End state.

(** ** The core ([lib/rtlcss.js]) *)

Section rtlcss.

Variable util : Util.
Variable config : Config.
Variable directiveParser : string -> list Metadata.

(** *** The node gate *)

(** The callback [shouldProcess] hands to [state.walk]. *)
Definition gate_entry (node : nodeid) (current : Entry) : M unit :=
  if negb (md_blacklist (metadata current)) then
    match directive current with
    | Null | Undefined => fail NullDirective
    | Proto => fail NoExpect
    | Dir d =>
        do nd <- getNode node;
        if cd_expect d (type nd) then
          let b := cd_begin d nd (metadata current) in
          emit (CallBegin (e_id current) node b) ;;
          when b (setMark node false) ;;
          if md_end (metadata current) then
            match cd_end d with
            | None => fail EndNotFunction
            | Some en =>
                let r := en nd (metadata current) in
                emit (CallEnd (e_id current) node r) ;;
                when r (state.pop current)
            end
          else ret tt
        else ret tt
    end
  else ret tt.

Definition shouldProcess (node : nodeid) : M bool :=
  do s <- get;
  if marked s node then ret false
  else
    setMark node true ;;
    state.walk (gate_entry node) ;;
    do s' <- get;
    ret (marked s' node).

(** *** Document start, rules and at-rules *)

Definition Once (r : nodeid) : M unit :=
  emit (HookPre r) ;;
  do _ <- shouldProcess r;
  ret tt.

Definition Rule (node : nodeid) : M unit :=
  do ok <- shouldProcess node;
  when ok (modify (set_flipped (fun _ => 0))).

Definition urls_atrule (p : ProcessUrls) : bool :=
  match p with
  | PUflag b => b
  | PUobject a => a
  end.

Definition AtRule (node : nodeid) : M unit :=
  do ok <- shouldProcess node;
  if ok && urls_atrule (processUrls config) then
    do nd <- getNode node;
    setNode node
      {| type := type nd; parent := parent nd; text := text nd; selector := selector nd;
         params := applyStringMap util (params nd) true;
         prop := prop nd; value := value nd; important := important nd;
         raws_between := raws_between nd; raws_important := raws_important nd;
         raws_value_raw := raws_value_raw nd |}
  else ret tt.

(** *** Comments: resolving and dispatching a directive form *)

Definition is_blacklisted (plugin : Plugin) (name : string) : bool :=
  match blacklist config !! pl_name plugin with
  | Some bl => match bl !! name with Some b => b | None => false end
  | None => false
  end.

Definition set_directive (current : Entry) (d : Slot) : Entry :=
  {| e_id := e_id current; metadata := metadata current; directive := d;
     source := source current; preserve := preserve current |}.
Definition set_metadata (current : Entry) (m : Metadata) : Entry :=
  {| e_id := e_id current; metadata := m; directive := directive current;
     source := source current; preserve := preserve current |}.
Definition set_preserve (current : Entry) (b : bool) : Entry :=
  {| e_id := e_id current; metadata := metadata current;
     directive := directive current; source := source current; preserve := b |}.

(** [blacklist[plugin.name]] and [blacklist[name] === true] are read on
    plain objects too; a member of [Object.prototype] is a truthy table
    without entry [true], and is not [true] itself, so [is_blacklisted] reads
    the own entries.

    The loop over [context.config.plugins] that resolves a directive
    name. *)
Fixpoint resolve (ps : list Plugin) (current : Entry) : M Entry :=
  match ps with
  | [] => ret current
  | plugin :: ps' =>
      if is_blacklisted plugin (md_name (metadata current)) then
        let current' := set_metadata current (set_blacklist (metadata current) true) in
        if md_end (metadata current) then ret current'
        else
          when (md_begin (metadata current))
            (warn (Blacklisted (pl_name plugin) (md_name (metadata current))
                     (source current))) ;;
          ret current'
      else
        let current' :=
          set_directive current
            (held (member (pl_control plugin) (md_name (metadata current)))) in
        if truthy_slot (directive current') then ret current'
        else resolve ps' current'
  end.

(** The first part of the callback [Comment] hands to [state.parse]: an
    entry whose directive is [null] is resolved. *)
Definition resolved (current : Entry) : M Entry :=
  match directive current with
  | Null => resolve (plugins config) (set_preserve current (negb (clean config)))
  | _ => ret current
  end.

(** The second part: dispatch by the shape of the form.  It answers with
    the callback's return value and with [current] as it leaves it. *)
Definition dispatch (node : nodeid) (current : Entry) : M (bool * Entry) :=
  match directive current with
  | Dir d =>
      do nd <- getNode node;
      if negb (md_begin (metadata current)) && md_end (metadata current) then
        match cd_end d with
        | None => fail EndNotFunction
        | Some en =>
            let r := en nd (metadata current) in
            emit (CallEnd (e_id current) node r) ;;
            when r (state.pop current) ;;
            ret (false, current)
        end
      else if cd_expect_self d then
        let b := cd_begin d nd (metadata current) in
        emit (CallBegin (e_id current) node b) ;;
        if b && md_end (metadata current) then
          match cd_end d with
          | None => fail EndNotFunction
          | Some en =>
              let r := en nd (metadata current) in
              emit (CallEnd (e_id current) node r) ;;
              ret (negb r, current)
          end
        else ret (true, current)
      else ret (true, current)
  | Proto =>
      if negb (md_begin (metadata current)) && md_end (metadata current)
      then fail EndNotFunction
      else fail NoExpect
  | Null | Undefined =>
      when (negb (md_blacklist (metadata current)))
        (warn (Unsupported (md_name (metadata current)) (source current))) ;;
      ret (true, current)
  end.

Definition comment_callback (node : nodeid) (current : Entry) : M (bool * Entry) :=
  do current <- resolved current;
  dispatch node current.

Definition Comment (node : nodeid) : M unit :=
  do ok <- shouldProcess node;
  if negb ok then ret tt
  else state.parse directiveParser node (comment_callback node).

(** *** Declarations *)

(** An optional string in a template literal. *)
Definition interpolated (o : option string) : string :=
  match o with
  | Some s => s
  | None => "undefined"
  end.

(** The text a value directive's expression is tested against. *)
Definition tested_text (nd : Node) : string :=
  interpolated (raws_between nd)
  +:+ (if truthy (raws_value_raw nd) then raws_value_raw nd else value nd)
  +:+ (if important nd && truthy (raws_important nd)
       then raws_important nd else EmptyString).

(** The declaration [nd] with the fields a value directive's action may
    have written, taken from [nd'], the declaration as the action leaves
    it. *)
Definition acted (nd nd' : Node) : Node :=
  {| type := type nd; parent := parent nd; text := text nd; selector := selector nd;
     params := params nd; prop := prop nd'; value := value nd';
     important := important nd'; raws_between := raws_between nd';
     raws_important := raws_important nd';
     raws_value_raw := raws_value_raw nd' |}.

(** The writes of the [context.config.clean] branch, on the declaration as
    the action left it: [hasRawValue] was read before the action was called,
    [between] is the [raws.between] that is there. *)
Definition cleaned (hasRawValue : bool) (between : string) (nd : Node) : Node :=
  {| type := type nd; parent := parent nd; text := text nd; selector := selector nd;
     params := params nd; prop := prop nd;
     value := if hasRawValue then trimDirective util (raws_value_raw nd)
              else trimDirective util (value nd);
     important := important nd;
     raws_between := Some (trimDirective util between);
     raws_important := if important nd && truthy (raws_important nd)
                       then trimDirective util (raws_important nd)
                       else raws_important nd;
     raws_value_raw := if hasRawValue then trimDirective util (raws_value_raw nd)
                       else raws_value_raw nd |}.

(** The [context.config.clean] branch: [util.trimDirective] is handed
    [node.raws.between] first, whatever it is. *)
Definition clean_up (hasRawValue : bool) (node : nodeid) : M unit :=
  do nd <- getNode node;
  match raws_between nd with
  | None => fail TrimUndefined
  | Some between => setNode node (cleaned hasRawValue between nd)
  end.

(** The loop over one plugin's value directives; [true] when the handler
    returns from inside it. *)
Fixpoint value_loop (pi k : nat) (ds : list ValueDirective) (node : nodeid) : M bool :=
  match ds with
  | [] => ret false
  | d :: ds' =>
      do nd <- getNode node;
      let hasRawValue := truthy (raws_value_raw nd) in
      if regexDirective util (vd_name d) (tested_text nd) then
        let out := vd_action d nd in
        emit (CallValue pi k node (snd out)) ;;
        setNode node (acted nd (fst out)) ;;
        if negb (snd out) then value_loop pi (S k) ds' node
        else
          when (clean config) (clean_up hasRawValue node) ;;
          modify (set_flipped S) ;;
          ret true
      else value_loop pi (S k) ds' node
  end.

(** The alias of the declaration's property once the match test of the
    processor loop has passed: the own entry of the table, when it is
    truthy.  For a property the table only inherits, [aliases[node.prop]]
    is a member of [Object.prototype] and the match test throws
    ([match_test] below), so that no alias is ever used then. *)
Definition alias_of (nd : Node) : option string :=
  match aliases config !! prop nd with
  | Some a => if truthy a then Some a else None
  | None => None
  end.

Definition set_value (st : Saved) (v : string) : Saved :=
  {| sv_value := v; sv_comments := sv_comments st |}.

Definition raw_of (nd : Node) : string :=
  if truthy (raws_value_raw nd) then raws_value_raw nd else value nd.

(** What a matching processor yields for a declaration: the pair it
    returns, with the comments put back into the value. *)
Definition flip_pair (p : Processor) (nd : Node) : string * string :=
  let st := saveComments util (raw_of nd) in
  let st1 := if processEnv config
             then set_value st (swap util (sv_value st)
                                  "safe-area-inset-left" "safe-area-inset-right")
             else st in
  let out := pr_action p (prop nd) (sv_value st1) in
  (fst out, restoreComments util (set_value st1 (snd out))).

Definition differs (nd : Node) (out : string * string) : bool :=
  (negb (bool_decide (is_Some (alias_of nd)))
     && negb (bool_decide (fst out = prop nd)))
  || negb (bool_decide (snd out = raw_of nd)).

(** The body run for the first processor whose expression matches. *)
Definition apply_processor (pi k : nat) (p : Processor) (node : nodeid) : M unit :=
  do nd <- getNode node;
  let out := flip_pair p nd in
  let changed := differs nd out in
  emit (CallProcessor pi k node changed) ;;
  when changed
    (modify (set_flipped S) ;;
     setNode node
       {| type := type nd; parent := parent nd; text := text nd; selector := selector nd;
          params := params nd; prop := fst out; value := snd out;
          important := important nd; raws_between := raws_between nd;
          raws_important := raws_important nd;
          raws_value_raw := raws_value_raw nd |}).

(** [(alias || node.prop).match(processor.expr)]: a member of
    [Object.prototype] read as alias is truthy and has no [match]. *)
Definition match_test (p : Processor) (nd : Node) : option bool :=
  match member (aliases config) (prop nd) with
  | Inherited => None
  | _ => Some (pr_expr p (match alias_of nd with Some a => a | None => prop nd end))
  end.

(** The processor's expression matches the declaration. *)
Definition matches (p : Processor) (nd : Node) : bool :=
  match match_test p nd with
  | Some b => b
  | None => false
  end.

(** The loop over one plugin's processors. *)
Fixpoint processor_loop (pi k : nat) (ps : list Processor) (node : nodeid) : M unit :=
  match ps with
  | [] => ret tt
  | p :: ps' =>
      do nd <- getNode node;
      match match_test p nd with
      | None => fail MatchNotFunction
      | Some false => processor_loop pi (S k) ps' node
      | Some true => apply_processor pi k p node
      end
  end.

(** The loop over the plugins; [true] when a value directive made the
    handler return. *)
Fixpoint plugin_loop (pi : nat) (ps : list Plugin) (node : nodeid) : M bool :=
  match ps with
  | [] => ret false
  | plugin :: ps' =>
      do stop <- value_loop pi 0 (pl_value plugin) node;
      if stop then ret true
      else processor_loop pi 0 (pl_processors plugin) node ;;
           plugin_loop (S pi) ps' node
  end.

Definition set_selector (nd : Node) (sel : string) : Node :=
  {| type := type nd; parent := parent nd; text := text nd; selector := sel;
     params := params nd; prop := prop nd; value := value nd;
     important := important nd; raws_between := raws_between nd;
     raws_important := raws_important nd;
     raws_value_raw := raws_value_raw nd |}.

(** The renaming done once the test of the last declaration passed. *)
Definition rename (p : nodeid) : M unit :=
  do pn <- getNode p;
  let renamed := applyStringMap util (selector pn) false in
  if autoRenameStrict config then
    do s <- get;
    match table_get renamed (toBeRenamed s) with
    | Some other =>
        do on <- getNode other;
        setNode other (set_selector on (selector pn)) ;;
        do pn' <- getNode p;
        setNode p (set_selector pn' renamed)
    | None => modify (set_toBeRenamed (table_set (selector pn) p))
    end
  else setNode p (set_selector pn renamed).

(** The part of [Declaration] after the loop over the plugins. *)
Definition auto_rename (node : nodeid) : M unit :=
  do s <- get;
  if negb (autoRename config) then ret tt
  else if negb (bool_decide (flipped s = 0)) then ret tt
  else
    do nd <- getNode node;
    match parent nd with
    | None => fail NoParent
    | Some p =>
        do pn <- getNode p;
        if negb (bool_decide (type pn = rule)) then ret tt
        else if negb (isLastOfType util node) then ret tt
        else rename p
    end.

Definition Declaration (node : nodeid) : M unit :=
  do ok <- shouldProcess node;
  if negb ok then ret tt
  else
    do stop <- plugin_loop 0 (plugins config) node;
    if stop then ret tt else auto_rename node.

(** *** Document end *)

Definition OnceExit (r : nodeid) : M unit :=
  state.walk (fun item => warn (Unclosed (md_name (metadata item)) (source item))) ;;
  (do s <- get;
   forM (toBeRenamed s) (fun kv => warn (RenameSkipped (snd kv)))) ;;
  emit (HookPost r).

(** *** A run

    PostCSS calls [Once] on the root, then the handler of each node it
    visits (a node may be visited more than once), then [OnceExit]. *)
Definition visit (node : nodeid) : M unit :=
  do nd <- getNode node;
  match type nd with
  | rule => Rule node
  | atrule => AtRule node
  | comment => Comment node
  | decl => Declaration node
  | root => ret tt
  end.

Definition run (r : nodeid) (visits : list nodeid) : M unit :=
  Once r ;; forM visits visit ;; OnceExit r.

End rtlcss.

(** ** What the gate does with one stack entry *)

Section gate_spec.

Variable node : nodeid.
Variable nd : Node.

(** The entry is one the gate consults for this node. *)
Definition consulted (e : Entry) : bool :=
  negb (md_blacklist (metadata e))
  && match directive e with
     | Dir d => cd_expect d (type nd)
     | _ => false
     end.

Definition begin_result (e : Entry) : bool :=
  match directive e with
  | Dir d => cd_begin d nd (metadata e)
  | _ => false
  end.

Definition end_result (e : Entry) : bool :=
  match directive e with
  | Dir d => match cd_end d with
             | Some en => en nd (metadata e)
             | None => false
             end
  | _ => false
  end.

Definition popped (e : Entry) : bool :=
  consulted e && md_end (metadata e) && end_result e.

Definition gate_events (e : Entry) : list Event :=
  if consulted e then
    CallBegin (e_id e) node (begin_result e)
    :: (if md_end (metadata e)
        then [CallEnd (e_id e) node (end_result e)] else [])
  else [].

(** The entry cannot make the gate fault: it is blacklisted, or it has a
    directive, with an [end] when the gate would call it. *)
Definition entry_ok (e : Entry) : bool :=
  md_blacklist (metadata e)
  || match directive e with
     | Dir d =>
         negb (cd_expect d (type nd) && md_end (metadata e))
         || bool_decide (is_Some (cd_end d))
     | _ => false
     end.

Definition pop_step (st : list Entry) (e : Entry) : list Entry :=
  if popped e then state.remove_entry (e_id e) st else st.

End gate_spec.


(** ** Reading the log *)

(** A value-directive action that answered true. *)
Definition is_success (e : Event) : bool :=
  match e with
  | CallValue _ _ _ true => true
  | _ => false
  end.

(** A processor run, and one of plugin [q]. *)
Definition is_processor (e : Event) : bool :=
  match e with
  | CallProcessor _ _ _ _ => true
  | _ => false
  end.
Definition is_processor_of (q : nat) (e : Event) : bool :=
  match e with
  | CallProcessor p _ _ _ => bool_decide (p = q)
  | _ => false
  end.

(** A processor run that wrote the declaration back. *)
Definition is_flip (e : Event) : bool :=
  match e with
  | CallProcessor _ _ _ true => true
  | _ => false
  end.

Definition is_value_call (e : Event) : bool :=
  match e with
  | CallValue _ _ _ _ => true
  | _ => false
  end.

Definition is_gate_call (e : Event) : bool :=
  match e with
  | CallBegin _ _ _ | CallEnd _ _ _ => true
  | _ => false
  end.


Definition is_unclosed_warning (e : Event) : bool :=
  match e with
  | Warn (Unclosed _ _) => true
  | _ => false
  end.

Definition is_skipped_warning (e : Event) : bool :=
  match e with
  | Warn (RenameSkipped _) => true
  | _ => false
  end.

Definition count (f : Event -> bool) (l : list Event) : nat :=
  length (List.filter f l).

(** What the core never writes in a node. *)
Definition shape (nd : Node) : NodeType * option nodeid * string :=
  (type nd, parent nd, text nd).

(** Only the node [node] may differ between the two stores, and in its
    text fields only. *)
Definition only_node_changed (node : nodeid) (s s' : State) : Prop :=
  (forall n', n' <> node -> nodes s' !! n' = nodes s !! n')
  /\ (forall nd, nodes s !! node = Some nd ->
        exists nd', nodes s' !! node = Some nd' /\ shape nd' = shape nd).

(** Every node has kept its shape. *)
Definition shapes_kept (s s' : State) : Prop :=
  forall k, shape <$> nodes s' !! k = shape <$> nodes s !! k.

(** The stack, the marks, the pending-rename table and the identity
    counter are the same. *)
Definition pipeline_frame (s s' : State) : Prop :=
  stack s' = stack s /\ processed s' = processed s
  /\ toBeRenamed s' = toBeRenamed s /\ fresh s' = fresh s.

(** The first processor of a list whose expression matches the declaration,
    with its position, counting from [k]. *)
Fixpoint first_match (config : Config) (ps : list Processor) (nd : Node) (k : nat)
    : option (nat * Processor) :=
  match ps with
  | [] => None
  | p :: ps' =>
      if matches config p nd then Some (k, p) else first_match config ps' nd (S k)
  end.

(** What the loop over one plugin's processors logs for a declaration:
    the run of the first processor that matches, if there is one. *)
Definition processor_events (util : Util) (config : Config) (pi : nat)
    (node : nodeid) (ps : list Processor) (nd : Node) (k : nat) : list Event :=
  match first_match config ps nd k with
  | Some (j, p) =>
      [CallProcessor pi j node (differs config nd (flip_pair util config p nd))]
  | None => []
  end.

(** The declaration as a matching processor's result is written back. *)
Definition written (nd : Node) (out : string * string) : Node :=
  {| type := type nd; parent := parent nd; text := text nd; selector := selector nd;
     params := params nd; prop := fst out; value := snd out;
     important := important nd; raws_between := raws_between nd;
     raws_important := raws_important nd; raws_value_raw := raws_value_raw nd |}.

(** What a call of the gate leaves alone: the store, the counter, the
    pending-rename table and the identity counter; it logs only [begin] and
    [end] calls, and it only removes entries from the stack. *)
Definition gate_frame (s s' : State) : Prop :=
  nodes s' = nodes s /\ flipped s' = flipped s
  /\ toBeRenamed s' = toBeRenamed s /\ fresh s' = fresh s
  /\ (exists g, log s' = log s ++ g /\ Forall (fun e => is_gate_call e = true) g)
  /\ stack s' ⊆ stack s.

(** What the handlers other than [Declaration] leave alone, but for the
    parameters of an at-rule: the counter and the pending-rename table. *)
Definition counter_frame (s s' : State) : Prop :=
  flipped s' = flipped s /\ toBeRenamed s' = toBeRenamed s.

(** The plugin neither blacklists the name nor reads anything under that
    name in its control table: the resolution loop goes on to the next
    plugin. *)
Definition is_absent {A} (m : Member A) : bool :=
  match m with
  | Absent => true
  | _ => false
  end.

Definition passes_over (config : Config) (name : string) (q : Plugin) : bool :=
  negb (is_blacklisted config q name)
  && is_absent (member (pl_control q) name).

(** What the resolution loop leaves in [current.directive] when it ends
    without a directive, after the plugins [ps] were passed over. *)
Definition unresolved_slot (ps : list Plugin) : Slot :=
  match ps with
  | [] => Null
  | _ :: _ => Undefined
  end.


(** Two states that differ in their log at most. *)
Definition same_but_log (s s' : State) : Prop :=
  nodes s' = nodes s /\ processed s' = processed s /\ stack s' = stack s
  /\ fresh s' = fresh s /\ flipped s' = flipped s
  /\ toBeRenamed s' = toBeRenamed s.

(** The warnings of the document end. *)
Definition unclosed_of (e : Entry) : Warning :=
  Unclosed (md_name (metadata e)) (source e).
Definition skipped_of (kv : string * nodeid) : Warning :=
  RenameSkipped (snd kv).

(** ** Entries that are distinct objects

    Two slots of the stack may hold the same object only when it has no
    directive: an object that has one sits in one slot. *)
Definition is_dir (v : Slot) : bool :=
  match v with
  | Dir _ => true
  | _ => false
  end.

Fixpoint distinct_resolved (st : list Entry) : bool :=
  match st with
  | [] => true
  | e :: st' =>
      forallb (fun x => negb (bool_decide (e_id x = e_id e))
                        || negb (is_dir (directive e) || is_dir (directive x))) st'
      && distinct_resolved st'
  end.

(** ** Conditions under which a run cannot fault *)

(** How the resolution loop ends for a name: at a plugin that blacklists it
    ([direct] when no plugin was passed over before it, so that the
    directive is still [null]), at a plugin that has a control directive of
    that name, at a plugin whose control table inherits the name, or at the
    end of the list. *)
Inductive Outcome :=
| Banned (direct : bool)
| Found (d : ControlDirective)
| FoundProto
| Unknown.

Fixpoint outcome (config : Config) (ps : list Plugin) (name : string) (direct : bool)
    : Outcome :=
  match ps with
  | [] => Unknown
  | q :: ps' =>
      if is_blacklisted config q name then Banned direct
      else match member (pl_control q) name with
           | Own d => Found d
           | Inherited => FoundProto
           | Absent => outcome config ps' name false
           end
  end.

Definition resolution (config : Config) (name : string) : Outcome :=
  outcome config (plugins config) name true.

Definition has_end (d : ControlDirective) : bool :=
  bool_decide (is_Some (cd_end d)).

(** A directive form the comment callback and the gate can handle: its
    name resolves to a control directive, which has an [end] if the form
    carries the end marker; or its name is blacklisted, and then it is not
    an end-only form unless the first plugin blacklists it (an end-only form
    takes the directive of the open entry of its name, which is [undefined]
    after a plugin was passed over, and is not resolved again). *)
Definition form_ok (config : Config) (m : Metadata) : bool :=
  match resolution config (md_name m) with
  | Found d => negb (md_end m) || has_end d
  | Banned direct => direct || md_begin m || negb (md_end m)
  | FoundProto | Unknown => false
  end.


(** A declaration the pipeline can handle: if some plugin has processors,
    its property does not read a member of [Object.prototype] in the alias
    table; under [clean], if some plugin has value directives, its
    [raws.between] is there. *)
Definition no_processors (config : Config) : bool :=
  forallb (fun q => match pl_processors q with [] => true | _ => false end)
    (plugins config).
Definition no_values (config : Config) : bool :=
  forallb (fun q => match pl_value q with [] => true | _ => false end)
    (plugins config).

Definition is_inherited {A} (m : Member A) : bool :=
  match m with
  | Inherited => true
  | _ => false
  end.

Definition decl_text_ok (config : Config) (nd : Node) : bool :=
  (no_processors config || negb (is_inherited (member (aliases config) (prop nd))))
  && (negb (clean config) || no_values config
      || bool_decide (is_Some (raws_between nd))).









(** ** Properties as the specification words them

    Each is compared with the handlers below: it holds with the proviso the
    theorem for it spells out, and fails without. *)

(** "If two plugins both define a processor matching the same property,
    only the earlier-registered plugin's processor executes." *)
Definition claimed_first_match_wins (util : Util) (config : Config) : Prop :=
  forall node s nd s' new p q plugin j c,
    nodes s !! node = Some nd ->
    Declaration util config node s = Ok tt s' ->
    log s' = log s ++ new ->
    plugins config !! p = Some plugin ->
    is_Some (first_match config (pl_processors plugin) nd 0) ->
    p < q ->
    CallProcessor q j node c ∉ new.



(** "Continue consulting remaining stack entries [...].  If the entry also
    has end declared and end returns true, pop it.  Return the final mark as
    the eligibility result." *)
Definition claimed_gate_walk : Prop :=
  forall node nd s,
    nodes s !! node = Some nd ->
    marked s node = false ->
    exists s',
      shouldProcess node s
      = Ok (negb (existsb (fun e => consulted nd e && begin_result nd e) (stack s))) s'
      /\ log s' = log s ++ concat (map (gate_events node nd) (stack s))
      /\ stack s' = List.filter (fun e => negb (popped nd e)) (stack s).

(** "Invoking the gate twice on the same node never re-runs the stack walk
    the second time." *)
Definition claimed_gate_idempotence : Prop :=
  forall node s b s1,
    shouldProcess node s = Ok b s1 ->
    shouldProcess node s1 = Ok false s1.

















(** "If either field differs from the original, write both back and
    increment the flip counter." *)
Definition claimed_write_back (util : Util) (config : Config) : Prop :=
  forall pi k ps node s nd j p s',
    nodes s !! node = Some nd ->
    first_match config ps nd k = Some (j, p) ->
    processor_loop util config pi k ps node s = Ok tt s' ->
    (fst (flip_pair util config p nd) <> prop nd
     \/ snd (flip_pair util config p nd) <> raw_of nd)
    <-> (nodes s' !! node = Some (written nd (flip_pair util config p nd))
         /\ flipped s' = S (flipped s)).


(** ** Further readings of the handlers *)

(** The fault an entry the gate cannot handle raises: reading [expect] of
    a directive that is not there, reading a key of the [expect] a member of
    [Object.prototype] does not have, or calling an [end] that is not
    there. *)
Definition fault_of (e : Entry) : Fault :=
  match directive e with
  | Null | Undefined => NullDirective
  | Proto => NoExpect
  | Dir _ => EndNotFunction
  end.

(** What every handler keeps from one state of a run to a later one: a
    mark that is set stays set; without [autoRename] no selector is written;
    without [autoRenameStrict] the pending-rename table is not written; and
    no skipped-rename warning is logged. *)
Definition run_frame (config : Config) (s s' : State) : Prop :=
  (forall n, marked s n = true -> marked s' n = true)
  /\ (autoRename config = false ->
      forall n, selector <$> nodes s' !! n = selector <$> nodes s !! n)
  /\ (autoRenameStrict config = false -> toBeRenamed s' = toBeRenamed s)
  /\ (exists new, log s' = log s ++ new
                  /\ Forall (fun e => is_skipped_warning e = false) new).

(** The node with its at-rule parameters replaced. *)
Definition with_params (nd : Node) (p : string) : Node :=
  {| type := type nd; parent := parent nd; text := text nd; selector := selector nd;
     params := p; prop := prop nd; value := value nd; important := important nd;
     raws_between := raws_between nd; raws_important := raws_important nd;
     raws_value_raw := raws_value_raw nd |}.

(** No value directive of the plugins matches the declaration, and the
    test of every processor answers that it does not match. *)
Definition nothing_matches (util : Util) (config : Config) (nd : Node) : bool :=
  forallb (fun plugin =>
             forallb (fun d => negb (regexDirective util (vd_name d) (tested_text nd)))
               (pl_value plugin)
             && forallb (fun p => bool_decide (match_test config p nd = Some false))
                  (pl_processors plugin))
    (plugins config).

(** What the handlers keep apart from the text of nodes: the marks and the
    pending-rename table; and they log no skipped-rename warning. *)
Definition quiet (s s' : State) : Prop :=
  processed s' = processed s /\ toBeRenamed s' = toBeRenamed s
  /\ (exists new, log s' = log s ++ new
                  /\ Forall (fun e => is_skipped_warning e = false) new).

(** No selector differs between the two stores. *)
Definition selectors_kept (s s' : State) : Prop :=
  forall k, selector <$> nodes s' !! k = selector <$> nodes s !! k.

(** What the handlers of the nodes log: the calls of plugin callbacks, and
    the warnings of a comment (blacklisted, unsupported). *)
Definition is_handler_event (e : Event) : bool :=
  match e with
  | CallBegin _ _ _ | CallEnd _ _ _ | CallValue _ _ _ _ | CallProcessor _ _ _ _ => true
  | Warn (Blacklisted _ _ _) | Warn (Unsupported _ _) => true
  | _ => false
  end.

(** The log has grown by such events only. *)
Definition appends (s s' : State) : Prop :=
  exists new, log s' = log s ++ new
              /\ Forall (fun e => is_handler_event e = true) new.

(** ** Sample configurations

    Small plugins, helpers and trees on which the handlers are evaluated. *)

Module Sample.

Fixpoint contains (pat s : string) : bool :=
  String.prefix pat s
  || match s with
     | EmptyString => false
     | String _ s' => contains pat s'
     end.

(** A mirror of whole selectors, standing for [util.applyStringMap]. *)
Definition mirror (s : string) (urls : bool) : string :=
  if bool_decide (s = ".left") then ".right"
  else if bool_decide (s = ".right") then ".left"
  else s.

Definition util : Util :=
  {| regexDirective := fun name txt => contains ("/*rtl:" +:+ name +:+ "*/") txt;
     trimDirective := fun s => s;
     saveComments := fun s => {| sv_value := s; sv_comments := [] |};
     restoreComments := sv_value;
     swap := fun v _ _ => v;
     applyStringMap := mirror;
     isLastOfType := fun _ => true |}.

Definition base_config : Config :=
  {| clean := false; processUrls := PUflag true; autoRename := false;
     autoRenameStrict := false; processEnv := false; aliases := ∅;
     blacklist := ∅; plugins := [] |}.

Definition with_plugins (c : Config) (ps : list Plugin) : Config :=
  {| clean := clean c; processUrls := processUrls c; autoRename := autoRename c;
     autoRenameStrict := autoRenameStrict c; processEnv := processEnv c;
     aliases := aliases c; blacklist := blacklist c; plugins := ps |}.

Definition mk_root : Node :=
  mkNode root None EmptyString EmptyString EmptyString EmptyString EmptyString
    false None EmptyString EmptyString.
Definition mk_rule (sel : string) : Node :=
  mkNode rule (Some 1%positive) EmptyString sel EmptyString EmptyString EmptyString
    false (Some " ") EmptyString EmptyString.
Definition mk_decl (p : nodeid) (pr v : string) : Node :=
  mkNode decl (Some p) EmptyString EmptyString EmptyString pr v
    false (Some ": ") EmptyString EmptyString.
Definition mk_comment (t : string) : Node :=
  mkNode comment (Some 1%positive) t EmptyString EmptyString EmptyString EmptyString
    false None EmptyString EmptyString.

(** A processor for [direction]: it swaps [ltr] and [rtl]. *)
Definition direction : Processor :=
  {| pr_expr := fun p => bool_decide (p = "direction");
     pr_action := fun p v =>
       (p, if bool_decide (v = "ltr") then "rtl"
           else if bool_decide (v = "rtl") then "ltr" else v) |}.

(** A processor for [left] and [right]: it swaps the property name. *)
Definition sides : Processor :=
  {| pr_expr := fun p => bool_decide (p = "left") || bool_decide (p = "right");
     pr_action := fun p v =>
       (if bool_decide (p = "left") then "right"
        else if bool_decide (p = "right") then "left" else p, v) |}.

Definition plugin_of (name : string) (ctl : gmap string ControlDirective)
    (vals : list ValueDirective) (procs : list Processor) : Plugin :=
  {| pl_name := name; pl_control := ctl; pl_value := vals; pl_processors := procs |}.

(** A parser for comments of the shapes [rtl:NAME], [rtl:begin:NAME] and
    [rtl:end:NAME], one form per comment. *)
Definition parser (t : string) : list Metadata :=
  if String.prefix "rtl:begin:" t
  then [mkMetadata (String.substring 10 (String.length t - 10) t) true false false]
  else if String.prefix "rtl:end:" t
  then [mkMetadata (String.substring 8 (String.length t - 8) t) false true false]
  else if String.prefix "rtl:" t
  then [mkMetadata (String.substring 4 (String.length t - 4) t) true true false]
  else [].

(** An [ignore]-like control directive: it claims every rule, at-rule and
    declaration while it is open. *)
Definition ignore : ControlDirective :=
  {| cd_expect := fun t => match t with
                           | rule | atrule | decl => true
                           | _ => false
                           end;
     cd_expect_self := false;
     cd_begin := fun _ _ => true;
     cd_end := Some (fun _ _ => true) |}.

Local Open Scope positive_scope.

(** A control directive that claims the next rule only, and closes on
    it. *)
Definition skip : ControlDirective :=
  {| cd_expect := fun t => match t with rule => true | _ => false end;
     cd_expect_self := false;
     cd_begin := fun _ _ => true;
     cd_end := Some (fun _ _ => true) |}.

(** A control directive that completes within its own comment. *)
Definition raw : ControlDirective :=
  {| cd_expect := fun _ => false;
     cd_expect_self := true;
     cd_begin := fun _ _ => true;
     cd_end := Some (fun _ _ => true) |}.

(** A control directive that acts within its own comment and has no
    [end]. *)
Definition endless : ControlDirective :=
  {| cd_expect := fun _ => false;
     cd_expect_self := true;
     cd_begin := fun _ _ => true;
     cd_end := None |}.

(** A processor for [left] that always answers [right]. *)
Definition to_right : Processor :=
  {| pr_expr := fun p => bool_decide (p = "left");
     pr_action := fun _ v => ("right", v) |}.

Definition final {A} (r : Res A) : State :=
  match r with
  | Ok _ s => s
  | Fail _ => initial ∅
  end.

(** Two plugins with a processor for [direction] each. *)
Definition two_plugins : Config :=
  with_plugins base_config
    [plugin_of "one" ∅ [] [direction]; plugin_of "two" ∅ [] [direction]].
Definition direction_decl : Node := mk_decl 2 "direction" "ltr".
Definition direction_tree : gmap nodeid Node :=
  list_to_map [(1, mk_root); (2, mk_rule ".a");
               (3, direction_decl)].

Definition two_runs : list Event :=
  [CallProcessor 0 0 3 true; CallProcessor 1 0 3 true].

(** Strict auto-rename on two rules whose selectors mirror each other. *)
Definition strict : Config :=
  {| clean := false; processUrls := PUflag true; autoRename := true;
     autoRenameStrict := true; processEnv := false; aliases := ∅;
     blacklist := ∅; plugins := [plugin_of "one" ∅ [] [direction]] |}.
Definition pair_tree : gmap nodeid Node :=
  list_to_map [(1, mk_root);
               (2, mk_rule ".left"); (3, mk_decl 2 "color" "red");
               (4, mk_rule ".right"); (5, mk_decl 4 "color" "red")].

(** A value directive [ignore] whose action answers false, and one whose
    action answers true, before the processor for [left]. *)
Definition declining : Config :=
  with_plugins base_config
    [plugin_of "one" ∅ [mkValue "ignore" (fun nd => (nd, false))] [sides]].
Definition ignored_decl : Node := mk_decl 2 "left" "10px /*rtl:ignore*/".
Definition ignored_tree : gmap nodeid Node :=
  list_to_map [(1, mk_root); (2, mk_rule ".a");
               (3, ignored_decl)].

(** A stack of two open entries, a [begin]-only [ignore] outside a
    self-closing [skip], before a rule. *)
Definition outer : Entry :=
  {| e_id := 0%nat; metadata := mkMetadata "ignore" true false false;
     directive := Dir ignore; source := 2; preserve := true |}.
Definition inner : Entry :=
  {| e_id := 1%nat; metadata := mkMetadata "skip" true true false;
     directive := Dir skip; source := 3; preserve := true |}.
Definition nested_tree : gmap nodeid Node :=
  list_to_map [(1, mk_root); (2, mk_comment "rtl:begin:ignore");
               (3, mk_comment "rtl:skip"); (4, mk_rule ".a")].
Definition nested : State :=
  {| nodes := nested_tree; processed := ∅; stack := [outer; inner]; fresh := 2%nat;
     flipped := 0%nat; toBeRenamed := []; log := [] |}.

(** A plugin with [ignore] before a plugin that has [ignore] on its
    blacklist; and that second plugin alone. *)
Definition barred : gmap string (gmap string bool) :=
  {[ "two" := {[ "ignore" := true ]} ]}.
Definition with_blacklist (c : Config) (b : gmap string (gmap string bool)) : Config :=
  {| clean := clean c; processUrls := processUrls c; autoRename := autoRename c;
     autoRenameStrict := autoRenameStrict c; processEnv := processEnv c;
     aliases := aliases c; blacklist := b; plugins := plugins c |}.
Definition shadowed : Config :=
  with_blacklist
    (with_plugins base_config
       [plugin_of "one" {[ "ignore" := raw ]} [] [];
        plugin_of "two" {[ "ignore" := ignore ]} [] []])
    barred.
Definition begin_form : Entry :=
  {| e_id := 0%nat; metadata := mkMetadata "ignore" true false false;
     directive := Null; source := 2; preserve := false |}.
Definition comment_tree : gmap nodeid Node :=
  list_to_map [(1, mk_root); (2, mk_comment "rtl:begin:ignore");
               (3, mk_rule ".a"); (4, mk_decl 3 "direction" "ltr")].

(** An open [ignore] before a rule. *)
Definition ignoring : State :=
  {| nodes := comment_tree; processed := ∅; stack := [outer]; fresh := 1%nat;
     flipped := 0%nat; toBeRenamed := []; log := [] |}.

(** An alias from [inset-start] to [left], with the processor that answers
    [right]. *)
Definition aliased : Config :=
  {| clean := false; processUrls := PUflag true; autoRename := false;
     autoRenameStrict := false; processEnv := false;
     aliases := {[ "inset-start" := "left" ]};
     blacklist := ∅; plugins := [plugin_of "one" ∅ [] [to_right]] |}.
Definition aliased_decl : Node := mk_decl 2 "inset-start" "0".
Definition aliased_tree : gmap nodeid Node :=
  list_to_map [(1, mk_root); (2, mk_rule ".a");
               (3, aliased_decl)].
Definition left_decl : Node := mk_decl 2 "left" "0".
Definition left_tree : gmap nodeid Node :=
  list_to_map [(1, mk_root); (2, mk_rule ".a");
               (3, left_decl)].

(** A comment [rtl:once] of a directive without [end], or a comment of a
    name no plugin knows, before a rule. *)
Definition no_end : Config :=
  with_plugins base_config [plugin_of "one" {[ "once" := endless ]} [] [direction]].
Definition once_tree : gmap nodeid Node :=
  list_to_map [(1, mk_root); (2, mk_comment "rtl:once");
               (3, mk_rule ".a"); (4, mk_decl 3 "direction" "ltr")].
Definition bogus_tree : gmap nodeid Node :=
  list_to_map [(1, mk_root); (2, mk_comment "rtl:bogus");
               (3, mk_rule ".a"); (4, mk_decl 3 "direction" "ltr")].

(** [ignore] around a first rule, then a second rule. *)
Definition ignore_config : Config :=
  with_plugins base_config [plugin_of "one" {[ "ignore" := ignore ]} [] [direction]].
Definition ignore_tree : gmap nodeid Node :=
  list_to_map [(1, mk_root); (2, mk_comment "rtl:begin:ignore");
               (3, mk_rule ".a"); (4, mk_decl 3 "direction" "ltr");
               (5, mk_comment "rtl:end:ignore");
               (6, mk_rule ".b"); (7, mk_decl 6 "direction" "ltr")].

(** Two [ignore] opened and never closed. *)
Definition open_tree : gmap nodeid Node :=
  list_to_map [(1, mk_root); (2, mk_comment "rtl:begin:ignore");
               (3, mk_comment "rtl:begin:ignore"); (4, mk_rule ".a")].

(** Auto-rename: a rule with a flipped declaration, then a rule that
    [skip] claims, with a declaration no processor matches. *)
Definition renaming : Config :=
  {| clean := false; processUrls := PUflag true; autoRename := true;
     autoRenameStrict := false; processEnv := false; aliases := ∅;
     blacklist := ∅; plugins := [plugin_of "one" {[ "skip" := skip ]} [] [sides]] |}.
Definition skip_tree : gmap nodeid Node :=
  list_to_map [(1, mk_root);
               (2, mk_rule ".left"); (3, mk_decl 2 "left" "0");
               (4, mk_comment "rtl:skip");
               (5, mk_rule ".left"); (6, mk_decl 5 "color" "red")].
(** The state before the second rule is visited, after its gate, and after
    its declaration. *)
Definition before_skipped : State :=
  final ((Once 1 ;;
          forM [2; 3; 4] (visit util renaming parser))
           (initial skip_tree)).
Definition skipped : State := final (shouldProcess 5 before_skipped).
Definition after_skipped : State :=
  final (Declaration util renaming 6 skipped).

End Sample.

(** ** More sample states *)

Module More.

Import Sample.
Local Open Scope positive_scope.

(** A form no plugin knows, new and as it sits on the stack once pushed. *)
Definition bogus_form : Entry :=
  {| e_id := 0%nat; metadata := mkMetadata "bogus" true true false;
     directive := Null; source := 2; preserve := false |}.
Definition unresolved : Entry :=
  {| e_id := 1%nat; metadata := mkMetadata "bogus" true true false;
     directive := Undefined; source := 2; preserve := true |}.

(** An open [ignore], then that entry, before a rule. *)
Definition stuck : State :=
  {| nodes := comment_tree; processed := ∅; stack := [outer; unresolved];
     fresh := 2%nat; flipped := 0%nat; toBeRenamed := []; log := [] |}.

(** The form of the comment [rtl:once], resolved to the directive without
    [end]. *)
Definition once_form : Entry :=
  {| e_id := 0%nat; metadata := mkMetadata "once" true true false;
     directive := Dir endless; source := 2; preserve := true |}.

Definition mk_atrule (p : string) : Node :=
  mkNode atrule (Some 1) EmptyString EmptyString p EmptyString EmptyString
    false None EmptyString EmptyString.
Definition atrule_tree : gmap nodeid Node :=
  list_to_map [(1, mk_root); (2, mk_atrule ".left")].

(** The rule of [direction_tree] gated, and its declaration visited. *)
Definition gated : State := final (shouldProcess 2 (initial direction_tree)).
Definition visited : State :=
  final (forM [3] (visit util two_plugins parser) gated).

(** The declaration of [direction_tree] gated, and as the first of the two
    plugins leaves it. *)
Definition eligible : State := final (shouldProcess 3 (initial direction_tree)).
Definition once_flipped : State :=
  final (plugin_loop util two_plugins 0 [plugin_of "one" ∅ [] [direction]] 3 eligible).

(** An [ignore] that stays open, then a comment of a name no plugin knows,
    before a rule; and the state a run is in when it comes to the rule. *)
Definition stuck_tree : gmap nodeid Node :=
  list_to_map [(1, mk_root); (2, mk_comment "rtl:begin:ignore");
               (3, mk_comment "rtl:bogus"); (4, mk_rule ".a")].
Definition reached : State :=
  final ((Once 1 ;; forM [2; 3] (visit util ignore_config parser))
           (initial stuck_tree)).


(** The same pair before a rule, when a plugin without control directives
    is registered before the one that has [ignore] on its blacklist. *)
Definition barred_second : Config :=
  with_blacklist
    (with_plugins base_config
       [plugin_of "one" ∅ [] []; plugin_of "two" {[ "ignore" := ignore ]} [] []])
    barred.
Definition late_tree : gmap nodeid Node :=
  list_to_map [(1, mk_root); (2, mk_comment "rtl:begin:ignore");
               (3, mk_comment "rtl:end:ignore"); (4, mk_rule ".a")].

(** [skip] claims a rule met with a counter of zero; its declaration is
    one no processor matches. *)
Definition claimed_tree : gmap nodeid Node :=
  list_to_map [(1, mk_root); (2, mk_comment "rtl:skip");
               (3, mk_rule ".left"); (4, mk_decl 3 "color" "red")].
Definition before_claimed : State :=
  final ((Once 1 ;; forM [2] (visit util renaming parser)) (initial claimed_tree)).
Definition claimed : State := final (shouldProcess 3 before_claimed).
Definition after_claimed : State := final (Declaration util renaming 4 claimed).

(** Names every object inherits: a directive [toString], and a property
    [constructor]. *)
Definition inherited_tree : gmap nodeid Node :=
  list_to_map [(1, mk_root); (2, mk_comment "rtl:begin:toString");
               (3, mk_rule ".a"); (4, mk_decl 3 "constructor" "x")].

(** Output cleaning, with the value directive whose action answers true;
    and a declaration built without [raws.between]. *)
Definition cleaning : Config :=
  {| clean := true; processUrls := PUflag true; autoRename := false;
     autoRenameStrict := false; processEnv := false; aliases := ∅;
     blacklist := ∅;
     plugins := [plugin_of "one" ∅ [mkValue "ignore" (fun nd => (nd, true))] [sides]] |}.
Definition bare_decl : Node :=
  mkNode decl (Some 2) EmptyString EmptyString EmptyString "left" "10px /*rtl:ignore*/"
    false None EmptyString EmptyString.
Definition bare_tree : gmap nodeid Node :=
  list_to_map [(1, mk_root); (2, mk_rule ".a"); (3, bare_decl)].

End More.
(** ** Proof support *)

Lemma bind_Ok {A B} (m : M A) (k : A -> M B) s a s' :
  m s = Ok a s' -> bind m k s = k a s'.
Proof. intros H. unfold bind. rewrite H. reflexivity. Qed.

Lemma getNode_Ok s n nd : nodes s !! n = Some nd -> getNode n s = Ok nd s.
Proof. intros H. unfold getNode. rewrite H. reflexivity. Qed.

Lemma count_app f l1 l2 : count f (l1 ++ l2) = count f l1 + count f l2.
Proof. unfold count. rewrite List.filter_app, length_app. done. Qed.

Lemma count_none f l : Forall (fun e => f e = false) l -> count f l = 0.
Proof.
  unfold count. induction 1 as [|e l He _ IH]; simpl; [done|].
  rewrite He. done.
Qed.

Ltac mstep :=
  unfold bind, ret, get, when, modify, emit, warn, setMark, setNode,
    state.pop, state.push, fail; simpl.

(** Case analysis along a monadic computation in the hypotheses. *)
Ltac mcase :=
  repeat first
    [ progress (unfold bind, ret, get, when, modify, emit, warn, setMark,
                  setNode, getNode, state.pop, state.push, fail in *;
                simpl in *)
    | case_match; simplify_eq ].

(** One entry of the walk, on a state whose store holds the node. *)
Lemma gate_entry_spec node nd e s :
  nodes s !! node = Some nd ->
  entry_ok nd e = true ->
  exists s',
    gate_entry node e s = Ok tt s'
    /\ nodes s' = nodes s
    /\ stack s' = pop_step nd (stack s) e
    /\ log s' = log s ++ gate_events node nd e
    /\ marked s' node = marked s node && negb (consulted nd e && begin_result nd e)
    /\ (forall n', n' <> node -> processed s' !! n' = processed s !! n')
    /\ flipped s' = flipped s /\ toBeRenamed s' = toBeRenamed s
    /\ fresh s' = fresh s.
Proof.
  intros Hn Hok.
  unfold gate_entry, entry_ok, pop_step, popped, gate_events, consulted,
    begin_result, end_result in *.
  destruct (md_blacklist (metadata e)) eqn:Hbl; simpl in *.
  - eexists; split; [reflexivity|]. rewrite app_nil_r, andb_true_r. done.
  - destruct (directive e) as [| | |d] eqn:Hd; [done..|].
    rewrite (bind_Ok _ _ _ _ _ (getNode_Ok _ _ _ Hn)).
    destruct (cd_expect d (type nd)) eqn:Hex; simpl in *.
    + destruct (cd_begin d nd (metadata e)) eqn:Hb;
        destruct (md_end (metadata e)) eqn:He; simpl in *;
        try (destruct (cd_end d) as [en|] eqn:Hen; [|done]);
        try (destruct (en nd (metadata e)) eqn:Hr);
        mstep; eexists; (split; [reflexivity|]); simpl;
        unfold marked; simpl;
        rewrite ?lookup_insert_eq, ?andb_true_r, ?andb_false_r, <- ?app_assoc;
        simpl; repeat split; try done;
        intros n' Hne; rewrite ?lookup_insert_ne by done; done.
    + eexists; split; [reflexivity|]. rewrite app_nil_r, andb_true_r. done.
Qed.

Lemma gate_walk_spec node nd es : forall s,
  nodes s !! node = Some nd ->
  Forall (fun e => entry_ok nd e = true) es ->
  exists s',
    forM es (gate_entry node) s = Ok tt s'
    /\ nodes s' = nodes s
    /\ stack s' = foldl (pop_step nd) (stack s) es
    /\ log s' = log s ++ concat (map (gate_events node nd) es)
    /\ marked s' node
       = marked s node
         && negb (existsb (fun e => consulted nd e && begin_result nd e) es)
    /\ (forall n', n' <> node -> processed s' !! n' = processed s !! n')
    /\ flipped s' = flipped s /\ toBeRenamed s' = toBeRenamed s
    /\ fresh s' = fresh s.
Proof.
  induction es as [|e es IH]; intros s Hn Hok; simpl.
  - eexists; split; [reflexivity|]. rewrite app_nil_r, andb_true_r. done.
  - inversion Hok as [|? ? He Hes]; subst.
    destruct (gate_entry_spec node nd e s Hn He)
      as (s1 & Hrun & Hn1 & Hst1 & Hlog1 & Hm1 & Hp1 & Hf1 & Ht1 & Hfr1).
    rewrite (bind_Ok _ _ _ _ _ Hrun).
    destruct (IH s1) as (s2 & Hrun2 & Hn2 & Hst2 & Hlog2 & Hm2 & Hp2 & Hf2 & Ht2 & Hfr2);
      [congruence | done |].
    exists s2. split; [done|].
    rewrite Hn2, Hst2, Hlog2, Hm2, Hf2, Ht2, Hfr2, Hn1, Hst1, Hlog1, Hm1, Hf1, Ht1, Hfr1.
    rewrite <- app_assoc, negb_orb, andb_assoc.
    repeat split; try done.
    intros n' Hne. rewrite Hp2, Hp1; done.
Qed.

(** *** Distinct objects *)

Lemma distinct_resolved_cons e st :
  distinct_resolved (e :: st) = true
  <-> (forall x, x ∈ st -> e_id x = e_id e ->
         is_dir (directive e) = false /\ is_dir (directive x) = false)
      /\ distinct_resolved st = true.
Proof.
  simpl. rewrite andb_true_iff, forallb_forall.
  split; intros [H1 H2]; (split; [|done]).
  - intros x Hx Hid. apply list_elem_of_In in Hx. specialize (H1 x Hx).
    rewrite bool_decide_eq_true_2 in H1 by done. simpl in H1.
    apply negb_true_iff, orb_false_iff in H1. done.
  - intros x Hx. apply list_elem_of_In in Hx.
    destruct (decide (e_id x = e_id e)) as [Hid|Hne].
    + destruct (H1 x Hx Hid) as [-> ->]. rewrite orb_true_r. done.
    + rewrite bool_decide_eq_false_2 by done. done.
Qed.

Lemma distinct_resolved_sublist l st :
  sublist l st -> distinct_resolved st = true -> distinct_resolved l = true.
Proof.
  induction 1 as [|x l1 l2 Hsub IH|x l1 l2 Hsub IH]; intros Hd.
  - done.
  - apply distinct_resolved_cons in Hd as [H1 H2].
    apply distinct_resolved_cons. split; [|auto].
    intros y Hy. apply H1. eapply elem_of_sublist; done.
  - apply distinct_resolved_cons in Hd as [_ H2]. auto.
Qed.

Lemma distinct_resolved_before l1 e l2 :
  distinct_resolved (l1 ++ e :: l2) = true ->
  is_dir (directive e) = true ->
  forall x, x ∈ l1 -> e_id x <> e_id e.
Proof.
  induction l1 as [|y l1 IH]; intros Hd He x Hx; [inversion Hx|].
  simpl in Hd. change (distinct_resolved (y :: l1 ++ e :: l2) = true) in Hd.
  apply distinct_resolved_cons in Hd as [H1 H2].
  apply elem_of_cons in Hx as [->|Hx]; [|eauto].
  intros Hid. destruct (H1 e) as [_ Hfalse]; [|done|congruence].
  apply elem_of_app. right. left.
Qed.

Lemma distinct_resolved_snoc st e :
  distinct_resolved st = true ->
  (forall x, x ∈ st -> e_id x = e_id e ->
     is_dir (directive e) = false /\ is_dir (directive x) = false) ->
  distinct_resolved (st ++ [e]) = true.
Proof.
  induction st as [|y st IH]; intros Hd He; simpl.
  - done.
  - change (distinct_resolved (y :: (st ++ [e])) = true).
    apply distinct_resolved_cons in Hd as [H1 H2].
    apply distinct_resolved_cons. split.
    + intros x Hx Hid. apply elem_of_app in Hx as [Hx|Hx]; [eauto|].
      apply list_elem_of_singleton in Hx. subst x.
      destruct (He y) as [? ?]; [left|done|done].
    + apply IH; [done|]. intros x Hx. apply He. right. done.
Qed.

Lemma remove_entry_sublist i st : sublist (state.remove_entry i st) st.
Proof.
  induction st as [|e st IH]; simpl; [done|].
  destruct (bool_decide (e_id e = i)).
  - apply sublist_cons. done.
  - apply sublist_skip. done.
Qed.

Lemma remove_entry_here kept e es :
  (forall x, x ∈ kept -> e_id x <> e_id e) ->
  state.remove_entry (e_id e) (kept ++ e :: es) = kept ++ es.
Proof.
  induction kept as [|k kept IH]; intros Hne; simpl.
  - rewrite bool_decide_eq_true_2; done.
  - rewrite bool_decide_eq_false_2 by (apply Hne; left).
    f_equal. apply IH. intros x Hx. apply Hne. right. done.
Qed.

(** An entry the gate pops has a directive. *)
Lemma popped_is_dir nd e : popped nd e = true -> is_dir (directive e) = true.
Proof.
  unfold popped, consulted. destruct (directive e); simpl;
    rewrite ?andb_false_r; done.
Qed.

(** Popping, by identity, the popped entries of a stack on which the
    objects that have a directive are distinct leaves the others, in
    order. *)
Lemma pop_walk_filter nd es : forall kept,
  distinct_resolved (kept ++ es) = true ->
  foldl (pop_step nd) (kept ++ es) es
  = kept ++ List.filter (fun e => negb (popped nd e)) es.
Proof.
  induction es as [|e es IH]; intros kept Hnd; simpl.
  - reflexivity.
  - unfold pop_step at 2. destruct (popped nd e) eqn:Hp; simpl.
    + rewrite remove_entry_here.
      * apply IH. eapply distinct_resolved_sublist; [|exact Hnd].
        apply sublist_app; [done|]. apply sublist_cons. done.
      * eapply distinct_resolved_before; [exact Hnd|].
        eapply popped_is_dir, Hp.
    + replace (kept ++ e :: es) with ((kept ++ [e]) ++ es) by (rewrite <- app_assoc; done).
      rewrite IH.
      * rewrite <- app_assoc. done.
      * rewrite <- app_assoc. done.
Qed.

(** ** The node gate *)

(** C4, on the stack of [state.js] as the specification describes it, and
    with the proviso the code needs: every open entry is one the gate can
    handle (it is blacklisted, or it has a directive, with an [end] when
    the gate is to call it), and the entries that have a directive are
    distinct objects.  Then, on a node not yet marked, the gate consults
    every open entry that is not blacklisted and expects the node's type,
    outermost first, whatever the earlier [begin] calls answered; it pops
    exactly the consulted entries whose form carries [end] and whose [end]
    call answers true; and it returns the final mark, which is set unless
    some [begin] answered true. *)
Theorem gate_consults_every_open_entry node nd s :
  nodes s !! node = Some nd ->
  marked s node = false ->
  Forall (fun e => entry_ok nd e = true) (stack s) ->
  distinct_resolved (stack s) = true ->
  exists s',
    shouldProcess node s
    = Ok (negb (existsb (fun e => consulted nd e && begin_result nd e) (stack s))) s'
    /\ marked s' node
       = negb (existsb (fun e => consulted nd e && begin_result nd e) (stack s))
    /\ log s' = log s ++ concat (map (gate_events node nd) (stack s))
    /\ stack s' = List.filter (fun e => negb (popped nd e)) (stack s)
    /\ nodes s' = nodes s /\ flipped s' = flipped s
    /\ toBeRenamed s' = toBeRenamed s.
Proof.
  intros Hn Hm Hok Hnd.
  unfold shouldProcess. unfold bind at 1, get. rewrite Hm.
  unfold bind at 1. unfold setMark, modify at 1.
  unfold state.walk. unfold bind at 1. unfold bind at 1, get.
  set (s0 := set_processed (fun m => <[node:=true]> m) s).
  destruct (gate_walk_spec node nd (stack s0) s0)
    as (s1 & Hrun & Hn1 & Hst1 & Hlog1 & Hm1 & _ & Hf1 & Ht1 & _); [done | done |].
  rewrite Hrun. unfold bind, get, ret.
  exists s1.
  assert (Hm0 : marked s0 node = true).
  { unfold marked, s0. simpl. rewrite lookup_insert_eq. done. }
  rewrite Hm1, Hm0. simpl. repeat split; try done.
  rewrite Hst1. simpl.
  apply (pop_walk_filter nd (stack s) []). done.
Qed.

Lemma shouldProcess_marked node s :
  marked s node = true -> shouldProcess node s = Ok false s.
Proof.
  intros Hm. unfold shouldProcess, bind, get. rewrite Hm. reflexivity.
Qed.

(** An eligible answer leaves the node marked. *)
Lemma shouldProcess_eligible_marks node s s' :
  shouldProcess node s = Ok true s' -> marked s' node = true.
Proof.
  unfold shouldProcess. unfold bind at 1, get at 1.
  destruct (marked s node); [done|].
  unfold bind at 1, setMark, modify at 1. unfold bind at 1.
  destruct (state.walk _ _) as [[] s1|]; [|done].
  unfold bind, get, ret. intros H. simplify_eq. done.
Qed.

(** C6, as the code has it: on a node whose processed mark is set (as
    an eligible answer leaves it), the gate answers ineligible at once: the
    state, with its stack and its log, is the one it was called in, so no
    [begin] or [end] was called.  A node for which some [begin] answered
    true is left unmarked, and the stack is walked again for it. *)
Theorem gate_marked_returns_at_once node s :
  marked s node = true ->
  shouldProcess node s = Ok false s
  /\ (forall t t', shouldProcess node t = Ok true t' ->
        shouldProcess node t' = Ok false t').
Proof.
  intros Hm. split; [apply shouldProcess_marked, Hm|].
  intros t t' H. apply shouldProcess_marked.
  eapply shouldProcess_eligible_marks, H.
Qed.

(** ** What the gate leaves alone *)

Lemma gate_frame_refl s : gate_frame s s.
Proof.
  unfold gate_frame. repeat split; try done.
  exists []. rewrite app_nil_r. done.
Qed.

Lemma gate_frame_trans s1 s2 s3 :
  gate_frame s1 s2 -> gate_frame s2 s3 -> gate_frame s1 s3.
Proof.
  intros (?&?&?&?&(g1&Hg1&?)&?) (?&?&?&?&(g2&Hg2&?)&?).
  unfold gate_frame. repeat split; try congruence.
  - exists (g1 ++ g2). rewrite Hg2, Hg1, <- app_assoc. split; [done|].
    apply Forall_app. done.
  - etrans; done.
Qed.

Lemma remove_entry_subseteq i st : state.remove_entry i st ⊆ st.
Proof.
  induction st as [|e st IH]; simpl; [done|].
  destruct (bool_decide (e_id e = i)).
  - apply list_subseteq_cons. done.
  - apply list_subseteq_skip. done.
Qed.

Lemma gate_entry_frame node e s s' :
  gate_entry node e s = Ok tt s' -> gate_frame s s'.
Proof.
  unfold gate_entry. intros H.
  mcase; unfold gate_frame; simpl;
    repeat split; try done; try apply remove_entry_subseteq;
    try (eexists; rewrite <- ?app_assoc; split; [reflexivity|];
         repeat constructor);
    try (exists []; rewrite app_nil_r; done).
Qed.

Lemma forM_frame {A} (R : State -> State -> Prop) (f : A -> M unit) (l : list A) :
  (forall s, R s s) ->
  (forall s1 s2 s3, R s1 s2 -> R s2 s3 -> R s1 s3) ->
  (forall x s s', f x s = Ok tt s' -> R s s') ->
  forall s s', forM l f s = Ok tt s' -> R s s'.
Proof.
  intros Hrefl Htrans Hf. induction l as [|x l IH]; intros s s' H; simpl in H.
  - unfold ret in H. simplify_eq. apply Hrefl.
  - unfold bind in H. destruct (f x s) as [[] s1|] eqn:Hx; [|done].
    eapply Htrans; [eapply Hf, Hx | eapply IH, H].
Qed.

Lemma shouldProcess_frame node s b s' :
  shouldProcess node s = Ok b s' -> gate_frame s s'.
Proof.
  unfold shouldProcess. unfold bind at 1, get at 1.
  destruct (marked s node).
  - unfold ret. intros; simplify_eq. apply gate_frame_refl.
  - unfold bind at 1, setMark, modify at 1. unfold state.walk.
    unfold bind at 1. unfold bind at 1, get at 1.
    destruct (forM _ _ _) as [[] s1|] eqn:Hw; [|done].
    unfold bind, get, ret. intros; simplify_eq.
    eapply (gate_frame_trans _ (set_processed (fun m => <[node:=true]> m) s)).
    + unfold gate_frame; simpl. repeat split; try done.
      exists []. rewrite app_nil_r. done.
    + eapply forM_frame; [apply gate_frame_refl | apply gate_frame_trans | | exact Hw].
      intros x ? ?. apply gate_entry_frame.
Qed.

(** ** Document end *)

Lemma forM_warn {A} (f : A -> Warning) (l : list A) : forall s,
  exists s',
    forM l (fun x => warn (f x)) s = Ok tt s'
    /\ log s' = log s ++ map (fun x => Warn (f x)) l
    /\ same_but_log s s'.
Proof.
  induction l as [|x l IH]; intros s; simpl.
  - exists s. rewrite app_nil_r. unfold same_but_log. done.
  - mstep. destruct (IH (set_log (fun l0 => l0 ++ [Warn (f x)]) s))
      as (s' & Hrun & Hlog & Hsame).
    exists s'. split; [done|]. rewrite Hlog. simpl. rewrite <- app_assoc.
    split; [done|]. unfold same_but_log in *. simpl in *. done.
Qed.

(** An entry pushed and then popped leaves the stack as it was. *)
Lemma push_pop_restores e st :
  e_id e ∉ map e_id st ->
  state.remove_entry (e_id e) (st ++ [e]) = st.
Proof.
  induction st as [|x st IH]; simpl; intros Hnotin.
  - rewrite bool_decide_eq_true_2; done.
  - rewrite bool_decide_eq_false_2.
    + f_equal. apply IH. intros Hin. apply Hnotin. right. done.
    + intros Heq. apply Hnotin. rewrite Heq. left.
Qed.

Lemma OnceExit_spec r s :
  exists s',
    OnceExit r s = Ok tt s'
    /\ log s' = log s
                ++ map (fun e => Warn (unclosed_of e)) (stack s)
                ++ map (fun kv => Warn (skipped_of kv)) (toBeRenamed s)
                ++ [HookPost r]
    /\ same_but_log s s'.
Proof.
  unfold OnceExit, state.walk.
  destruct (forM_warn unclosed_of (stack s) s) as (s1 & Hrun1 & Hlog1 & Hs1).
  destruct (forM_warn skipped_of (toBeRenamed s1) s1) as (s2 & Hrun2 & Hlog2 & Hs2).
  unfold bind at 1. unfold bind at 1. unfold get at 1.
  unfold unclosed_of in Hrun1. rewrite Hrun1.
  unfold bind at 1. unfold bind at 1. unfold get at 1.
  unfold skipped_of in Hrun2. rewrite Hrun2.
  unfold emit, modify.
  eexists. split; [reflexivity|]. simpl.
  destruct Hs1 as (? & ? & ? & ? & ? & Ht1), Hs2 as (? & ? & ? & ? & ? & ?).
  rewrite Hlog2, Hlog1, Ht1, <- !app_assoc.
  repeat split; simpl; congruence.
Qed.


Lemma count_map_none {A} (f : Event -> bool) (g : A -> Event) (l : list A) :
  (forall x, f (g x) = false) -> count f (map g l) = 0.
Proof.
  intros H. unfold count. induction l as [|x l IH]; simpl; [done|].
  rewrite H. done.
Qed.

(** ** The declaration pipeline *)

Lemma only_node_changed_refl node s : only_node_changed node s s.
Proof. split; [done|]. intros nd ?. exists nd. done. Qed.

Lemma only_node_changed_trans node s1 s2 s3 :
  only_node_changed node s1 s2 -> only_node_changed node s2 s3 ->
  only_node_changed node s1 s3.
Proof.
  intros [H1 H1'] [H2 H2']. split.
  - intros n' Hne. rewrite H2, H1; done.
  - intros nd Hnd. destruct (H1' _ Hnd) as (nd1 & Hnd1 & Hs1).
    destruct (H2' _ Hnd1) as (nd2 & Hnd2 & Hs2).
    exists nd2. split; [done|]. congruence.
Qed.

Lemma only_node_changed_set node nd nd' s :
  nodes s !! node = Some nd -> shape nd' = shape nd ->
  only_node_changed node s (set_nodes (fun m => <[node := nd']> m) s).
Proof.
  intros Hn Hs. split; simpl.
  - intros n' Hne. rewrite lookup_insert_ne; done.
  - intros nd0 Hnd0. exists nd'. rewrite lookup_insert_eq.
    split; [done|]. congruence.
Qed.

(** A state that differs from another in other fields than the store. *)
Lemma only_node_changed_nodes node s t t' :
  nodes t' = nodes t -> only_node_changed node s t -> only_node_changed node s t'.
Proof. intros H [H1 H2]. split; rewrite H; done. Qed.

Lemma pipeline_frame_refl s : pipeline_frame s s.
Proof. unfold pipeline_frame. done. Qed.

Lemma pipeline_frame_trans s1 s2 s3 :
  pipeline_frame s1 s2 -> pipeline_frame s2 s3 -> pipeline_frame s1 s3.
Proof. unfold pipeline_frame. intros (?&?&?&?) (?&?&?&?). repeat split; congruence. Qed.

Section pipeline.

Variable util : Util.
Variable config : Config.

(** The [clean] branch, when it completes. *)
Lemma clean_up_inv h node s s' :
  clean_up util h node s = Ok tt s' ->
  exists nd between,
    nodes s !! node = Some nd /\ raws_between nd = Some between
    /\ s' = set_nodes (fun m => <[node := cleaned util h between nd]> m) s.
Proof.
  unfold clean_up. unfold bind, getNode.
  destruct (nodes s !! node) as [nd|] eqn:Hn; [|done].
  destruct (raws_between nd) as [b|] eqn:Hb; [|done].
  unfold setNode, modify. intros H. simplify_eq. eauto.
Qed.

(** The loop over one plugin's value directives: it calls the actions of
    the matching directives in order, up to the first that answers true;
    then the counter is incremented and the loop reports that the handler
    returns. *)
Lemma value_loop_inv pi node ds : forall k s stop s',
  value_loop util config pi k ds node s = Ok stop s' ->
  exists new,
    log s' = log s ++ new
    /\ Forall (fun e => is_value_call e = true) new
    /\ (if stop
        then (exists pre k', new = pre ++ [CallValue pi k' node true]
                             /\ Forall (fun e => is_success e = false) pre)
             /\ flipped s' = S (flipped s)
        else Forall (fun e => is_success e = false) new
             /\ flipped s' = flipped s)
    /\ pipeline_frame s s'
    /\ only_node_changed node s s'.
Proof.
  induction ds as [|d ds IH]; intros k s stop s' H; simpl in H.
  - unfold ret in H. simplify_eq. exists []. rewrite app_nil_r.
    repeat split; auto using pipeline_frame_refl; apply only_node_changed_refl.
  - unfold bind at 1, getNode in H.
    destruct (nodes s !! node) as [nd|] eqn:Hn; [|done].
    destruct (regexDirective util (vd_name d) (tested_text nd)) eqn:Hre; [|eauto].
    unfold bind at 1, emit at 1, modify at 1 in H.
    unfold bind at 1, setNode at 1, modify at 1 in H.
    set (e := CallValue pi k node (snd (vd_action d nd))) in *.
    set (s1 := set_nodes _ (set_log _ s)) in *.
    assert (Hch1 : only_node_changed node s s1).
    { eapply only_node_changed_nodes;
        [|apply (only_node_changed_set node nd (acted nd (fst (vd_action d nd))) s);
          done].
      done. }
    assert (Hpf1 : pipeline_frame s s1) by (unfold pipeline_frame; done).
    destruct (snd (vd_action d nd)) eqn:Hact; simpl in H.
    + unfold bind at 1 in H.
      assert (Hc : exists s2, when (clean config) (clean_up util
                     (truthy (raws_value_raw nd)) node) s1 = Ok tt s2
                     /\ log s2 = log s1 /\ flipped s2 = flipped s1
                     /\ pipeline_frame s1 s2 /\ only_node_changed node s1 s2).
      { destruct (when _ _ s1) as [[] s2|] eqn:Hw; [|done].
        exists s2. split; [done|].
        unfold when in Hw. destruct (clean config).
        - apply clean_up_inv in Hw as (nd1 & b & Hn1 & Hb & ->).
          split; [done|]. split; [done|]. split; [unfold pipeline_frame; done|].
          apply (only_node_changed_set node nd1); done.
        - unfold ret in Hw. simplify_eq.
          repeat split; try done. apply only_node_changed_refl. }
      destruct Hc as (s2 & Hw & Hl2 & Hf2 & Hpf2 & Hch2). rewrite Hw in H.
      unfold bind, modify, ret in H. simplify_eq.
      exists [e]. simpl. rewrite Hl2. split; [done|].
      split; [constructor; done|].
      split; [split; [exists [], k; done | rewrite Hf2; done]|].
      split.
      * destruct Hpf1 as (?&?&?&?), Hpf2 as (?&?&?&?).
        unfold pipeline_frame; simpl. repeat split; congruence.
      * eapply only_node_changed_nodes; [|eapply only_node_changed_trans; done].
        done.
    + apply IH in H as (new & Hlog & Hall & Hstop & Hpf & Hch).
      exists (e :: new). simpl in Hlog. rewrite Hlog, <- app_assoc. simpl.
      split; [done|]. split; [constructor; done|].
      split.
      * destruct stop.
        -- destruct Hstop as [(pre & k' & -> & Hpre) Hfl]. split; [|done].
           exists (e :: pre), k'. split; [done|]. constructor; done.
        -- destruct Hstop as [? ?]. split; [constructor; done | done].
      * split; [eapply pipeline_frame_trans; done|].
        eapply only_node_changed_trans; done.
Qed.

(** The body run for a matching processor. *)
Lemma apply_processor_spec pi k p node s nd :
  nodes s !! node = Some nd ->
  let out := flip_pair util config p nd in
  let changed := differs config nd out in
  exists s',
    apply_processor util config pi k p node s = Ok tt s'
    /\ log s' = log s ++ [CallProcessor pi k node changed]
    /\ (if changed
        then nodes s' = <[node := written nd out]> (nodes s)
             /\ flipped s' = S (flipped s)
        else nodes s' = nodes s /\ flipped s' = flipped s)
    /\ pipeline_frame s s'.
Proof.
  intros Hn out changed. unfold apply_processor.
  rewrite (bind_Ok _ _ _ _ _ (getNode_Ok _ _ _ Hn)).
  fold out. fold changed. mstep.
  destruct changed; simpl; eexists; (split; [reflexivity|]); simpl;
    unfold pipeline_frame; done.
Qed.

(** A processor that matches is tested on an alias, or a property, that is
    not a member of [Object.prototype]. *)
Lemma matches_not_inherited p nd :
  matches config p nd = true ->
  is_inherited (member (aliases config) (prop nd)) = false.
Proof.
  unfold matches, match_test.
  destruct (member (aliases config) (prop nd)); done.
Qed.

Lemma first_match_not_inherited ps nd : forall k j p,
  first_match config ps nd k = Some (j, p) ->
  is_inherited (member (aliases config) (prop nd)) = false.
Proof.
  induction ps as [|q ps IH]; intros k j p H; simpl in H; [done|].
  destruct (matches config q nd) eqn:Hm; [|eauto].
  eapply matches_not_inherited, Hm.
Qed.

Lemma match_test_matches p nd :
  is_inherited (member (aliases config) (prop nd)) = false ->
  match_test config p nd = Some (matches config p nd).
Proof.
  unfold matches, match_test.
  destruct (member (aliases config) (prop nd)); done.
Qed.

(** The loop over one plugin's processors runs the first processor that
    matches, and no other. *)
Lemma processor_loop_first pi node ps : forall k s nd,
  nodes s !! node = Some nd ->
  is_inherited (member (aliases config) (prop nd)) = false ->
  processor_loop util config pi k ps node s
  = match first_match config ps nd k with
    | Some (j, p) => apply_processor util config pi j p node s
    | None => Ok tt s
    end.
Proof.
  induction ps as [|p ps IH]; intros k s nd Hn Hal; simpl; [done|].
  rewrite (bind_Ok _ _ _ _ _ (getNode_Ok _ _ _ Hn)).
  rewrite (match_test_matches p nd Hal).
  destruct (matches config p nd); simpl; [done|]. apply IH; done.
Qed.

(** With a property that reads a member of [Object.prototype] in the alias
    table, the test of the first processor throws. *)
Lemma processor_loop_inherited pi k p ps node s nd :
  nodes s !! node = Some nd ->
  is_inherited (member (aliases config) (prop nd)) = true ->
  processor_loop util config pi k (p :: ps) node s = Fail MatchNotFunction.
Proof.
  intros Hn Hal. simpl. rewrite (bind_Ok _ _ _ _ _ (getNode_Ok _ _ _ Hn)).
  unfold match_test. destruct (member (aliases config) (prop nd)); done.
Qed.

Lemma processor_loop_inv pi node ps k s s' :
  processor_loop util config pi k ps node s = Ok tt s' ->
  exists new,
    log s' = log s ++ new
    /\ (new = [] \/ exists j c, new = [CallProcessor pi j node c])
    /\ (forall nd, nodes s !! node = Some nd ->
          new = processor_events util config pi node ps nd k)
    /\ flipped s' = flipped s + count is_flip new
    /\ pipeline_frame s s'
    /\ only_node_changed node s s'.
Proof.
  intros H. destruct ps as [|p0 ps0].
  { simpl in H. unfold ret in H. simplify_eq. exists []. rewrite app_nil_r.
    unfold count, processor_events; simpl.
    repeat split; auto using pipeline_frame_refl; try lia.
    apply only_node_changed_refl. }
  destruct (nodes s !! node) as [nd|] eqn:Hn;
    [|simpl in H; unfold bind, getNode in H; rewrite Hn in H; done].
  destruct (is_inherited (member (aliases config) (prop nd))) eqn:Hal.
  { rewrite (processor_loop_inherited _ _ _ _ _ _ _ Hn Hal) in H. done. }
  rewrite (processor_loop_first _ _ _ _ _ _ Hn Hal) in H.
  unfold processor_events.
  destruct (first_match config (p0 :: ps0) nd k) as [[j p]|] eqn:Hfm.
  - destruct (apply_processor_spec pi j p node s nd Hn)
      as (t & Hrun & Hlog & Hch & Hfr).
    rewrite Hrun in H. simplify_eq.
    eexists. split; [done|]. split; [right; eauto|].
    split. { intros nd0 Hnd0. simplify_eq. rewrite Hfm. done. }
    destruct (differs config nd (flip_pair util config p nd)); simpl in *.
    + destruct Hch as [Hnodes Hfl]. unfold count; simpl.
      split; [lia|]. split; [done|].
      split.
      * intros n' Hne. rewrite Hnodes, lookup_insert_ne; done.
      * intros nd0 Hnd0. eexists. rewrite Hnodes, lookup_insert_eq.
        split; [done|]. assert (nd0 = nd) by congruence. subst. done.
    + destruct Hch as [Hnodes Hfl]. unfold count; simpl.
      split; [lia|]. split; [done|].
      split.
      * intros n' Hne. rewrite Hnodes; done.
      * intros nd0 Hnd0. exists nd0. rewrite Hnodes. done.
  - simplify_eq. exists []. rewrite app_nil_r.
    split; [done|]. split; [left; done|].
    split. { intros nd0 Hnd0. simplify_eq. rewrite Hfm. done. }
    unfold count; simpl.
    repeat split; auto using pipeline_frame_refl; try lia.
    apply only_node_changed_refl.
Qed.

Lemma value_calls_no_processor q new :
  Forall (fun e => is_value_call e = true) new ->
  count (is_processor_of q) new = 0 /\ count is_flip new = 0.
Proof.
  intros H. split; apply count_none; eapply Forall_impl; try exact H;
    intros [] ?; simpl in *; done.
Qed.

(** The loop over the plugins, when it completes. *)
Lemma plugin_loop_inv node ps : forall pi s stop s',
  plugin_loop util config pi ps node s = Ok stop s' ->
  exists new,
    log s' = log s ++ new
    /\ Forall (fun e => is_value_call e || is_processor e = true) new
    /\ (if stop
        then exists pre p k, new = pre ++ [CallValue p k node true]
                             /\ Forall (fun e => is_success e = false) pre
        else Forall (fun e => is_success e = false) new)
    /\ flipped s' = flipped s + count is_flip new + (if stop then 1 else 0)
    /\ (forall q, count (is_processor_of q) new <= 1)
    /\ (forall q, q < pi \/ pi + length ps <= q ->
          count (is_processor_of q) new = 0)
    /\ pipeline_frame s s'
    /\ only_node_changed node s s'.
Proof.
  induction ps as [|plugin ps IH]; intros pi s stop s' H; simpl in H.
  - unfold ret in H. simplify_eq. exists []. rewrite app_nil_r.
    unfold count; simpl.
    repeat split; auto using pipeline_frame_refl; try lia;
      apply only_node_changed_refl.
  - unfold bind at 1 in H.
    destruct (value_loop _ _ _ _ _ _ _) as [st s1|] eqn:Hv; [|done].
    apply value_loop_inv in Hv as (v & Hlog1 & Hv & Hstop1 & Hfr1 & Hch1).
    pose proof (value_calls_no_processor) as Hz.
    destruct st.
    + unfold ret in H. simplify_eq.
      destruct Hstop1 as [(pre & k' & -> & Hpre) Hfl].
      eexists. split; [done|].
      split; [eapply Forall_impl; [exact Hv|]; intros e ->; done|].
      split; [eauto|].
      split; [destruct (Hz 0 _ Hv) as [_ ->]; lia|].
      split; [intros q; destruct (Hz q _ Hv) as [-> _]; lia|].
      split; [intros q _; destruct (Hz q _ Hv) as [-> _]; lia|].
      done.
    + destruct Hstop1 as (Hns1 & Hfl1).
      unfold bind at 1 in H.
      destruct (processor_loop _ _ _ _ _ _ _) as [[] s2|] eqn:Hp; [|done].
      apply processor_loop_inv in Hp
        as (pr & Hlog2 & Hpr & _ & Hfl2 & Hfr2 & Hch2).
      apply IH in H
        as (rest & Hlog3 & Hrest & Hstop3 & Hfl3 & Hc3 & Hc3' & Hfr3 & Hch3).
      exists (v ++ pr ++ rest).
      split; [rewrite Hlog3, Hlog2, Hlog1, <- !app_assoc; done|].
      assert (Hprp : Forall (fun e => is_value_call e || is_processor e = true) pr).
      { destruct Hpr as [->|(j & c & ->)]; repeat constructor. }
      assert (Hprs : Forall (fun e => is_success e = false) pr).
      { destruct Hpr as [->|(j & c & ->)]; repeat constructor. }
      assert (Hprc : forall q, count (is_processor_of q) pr
                               = if bool_decide (q = pi) then length pr else 0).
      { intros q. destruct Hpr as [->|(j & c & ->)]; unfold count; simpl.
        - destruct (bool_decide (q = pi)); done.
        - destruct (decide (pi = q)) as [->|Hne].
          + rewrite !bool_decide_eq_true_2 by done. done.
          + rewrite !bool_decide_eq_false_2 by congruence. done. }
      assert (Hprl : length pr <= 1).
      { destruct Hpr as [->|(j & c & ->)]; simpl; lia. }
      split.
      { rewrite !Forall_app. repeat split; try done.
        eapply Forall_impl; [exact Hv|]; intros e ->; done. }
      split.
      { destruct stop.
        - destruct Hstop3 as (pre & p & k & -> & Hpre).
          exists (v ++ pr ++ pre), p, k. rewrite <- !app_assoc. split; [done|].
          rewrite !Forall_app. done.
        - rewrite !Forall_app. done. }
      split.
      { rewrite !count_app. destruct (Hz 0 _ Hv) as [_ ->]. lia. }
      split.
      { intros q. rewrite !count_app, Hprc. destruct (Hz q _ Hv) as [-> _].
        destruct (decide (q = pi)) as [->|Hq].
        - rewrite bool_decide_eq_true_2 by done.
          rewrite (Hc3' pi) by lia. lia.
        - rewrite bool_decide_eq_false_2 by done. specialize (Hc3 q). lia. }
      split.
      { intros q Hq. rewrite !count_app, Hprc. destruct (Hz q _ Hv) as [-> _].
        simpl in Hq.
        rewrite bool_decide_eq_false_2 by lia. rewrite (Hc3' q) by lia. done. }
      split.
      { eauto using pipeline_frame_trans. }
      eauto using only_node_changed_trans.
Qed.

(** The loop over a list of plugins goes through a first part of the list,
    and then, unless a value directive made the handler return, through the
    rest. *)
Lemma plugin_loop_app node ps1 ps2 : forall pi s,
  plugin_loop util config pi (ps1 ++ ps2) node s
  = match plugin_loop util config pi ps1 node s with
    | Ok false s1 => plugin_loop util config (pi + length ps1) ps2 node s1
    | r => r
    end.
Proof.
  induction ps1 as [|plugin ps1 IH]; intros pi s; simpl.
  - rewrite Nat.add_0_r. done.
  - unfold bind.
    destruct (value_loop _ _ _ _ _ _ _) as [[] s1|]; [done| |done].
    destruct (processor_loop _ _ _ _ _ _ _) as [[] s2|]; [|done].
    rewrite IH. replace (S pi + length ps1) with (pi + S (length ps1)) by lia.
    done.
Qed.

End pipeline.

(** ** The declaration handler *)

Section declaration.

Variable util : Util.
Variable config : Config.

(** With a counter that is not zero the last part of [Declaration] does
    nothing. *)
Lemma auto_rename_skipped node s :
  flipped s <> 0 -> auto_rename util config node s = Ok tt s.
Proof.
  intros Hf. unfold auto_rename, bind, get.
  destruct (autoRename config); simpl; [|done].
  rewrite bool_decide_eq_false_2; done.
Qed.

(** The last part of [Declaration] logs nothing and leaves the counter. *)
Lemma auto_rename_quiet node s s' :
  auto_rename util config node s = Ok tt s' ->
  log s' = log s /\ flipped s' = flipped s /\ stack s' = stack s.
Proof.
  unfold auto_rename, rename. intros H. mcase; done.
Qed.

(** How a completed call of [Declaration] went: either the gate answered
    ineligible, or the loop over the plugins ran and, unless a value
    directive made the handler return, the renaming part. *)
Lemma Declaration_inv node s s' :
  Declaration util config node s = Ok tt s' ->
  exists ok s1 g,
    shouldProcess node s = Ok ok s1
    /\ gate_frame s s1 /\ log s1 = log s ++ g
    /\ Forall (fun e => is_gate_call e = true) g
    /\ (if ok then
          exists stop s2 new,
            plugin_loop util config 0 (plugins config) node s1 = Ok stop s2
            /\ log s2 = log s1 ++ new
            /\ Forall (fun e => is_value_call e || is_processor e = true) new
            /\ (if stop
                then exists pre p k, new = pre ++ [CallValue p k node true]
                       /\ Forall (fun e => is_success e = false) pre
                else Forall (fun e => is_success e = false) new)
            /\ flipped s2 = flipped s1 + count is_flip new + (if stop then 1 else 0)
            /\ (forall q, count (is_processor_of q) new <= 1)
            /\ pipeline_frame s1 s2
            /\ only_node_changed node s1 s2
            /\ (if stop then s' = s2
                else auto_rename util config node s2 = Ok tt s')
        else s' = s1).
Proof.
  unfold Declaration. unfold bind at 1.
  destruct (shouldProcess node s) as [ok s1|] eqn:Hgate; [|done].
  pose proof (shouldProcess_frame _ _ _ _ Hgate) as Hfr.
  destruct Hfr as (Hnodes & Hfl & Htb & Hfresh & (g & Hg & Hgall) & Hst).
  intros H. exists ok, s1, g. split; [done|].
  split; [unfold gate_frame; eauto 10|]. split; [done|]. split; [done|].
  destruct ok; simpl in H; [|unfold ret in H; simplify_eq; done].
  unfold bind at 1 in H.
  destruct (plugin_loop _ _ _ _ _ _) as [stop s2|] eqn:Hrun; [|done].
  pose proof (plugin_loop_inv util config node _ _ _ _ _ Hrun)
    as (new & Hlog & Hnew & Hstop & Hfl2 & Hc & _ & Hpf & Hch).
  exists stop, s2, new.
  do 8 (split; [done|]).
  destruct stop; [unfold ret in H; simplify_eq; done | done].
Qed.

Lemma gate_calls_plain g :
  Forall (fun e => is_gate_call e = true) g ->
  Forall (fun e => is_success e = false) g
  /\ count is_flip g = 0
  /\ (forall q, count (is_processor_of q) g = 0)
  /\ (forall q j n c, CallProcessor q j n c ∉ g).
Proof.
  intros H. split; [|split; [|split]].
  - eapply Forall_impl; [exact H|]. intros [] ?; simpl in *; done.
  - apply count_none. eapply Forall_impl; [exact H|]. intros [] ?; simpl in *; done.
  - intros q. apply count_none. eapply Forall_impl; [exact H|].
    intros [] ?; simpl in *; done.
  - intros q j n c Hin. rewrite Forall_forall in H. specialize (H _ Hin). done.
Qed.



Lemma count_zero_filter f l : count f l = 0 -> List.filter f l = [].
Proof. unfold count. apply nil_length_inv. Qed.

Lemma filter_all (f : Event -> bool) l :
  Forall (fun e => f e = true) l -> List.filter f l = l.
Proof.
  induction 1 as [|e l He _ IH]; simpl; [done|]. rewrite He, IH. done.
Qed.

Lemma processor_events_own pi node ps nd k :
  Forall (fun e => is_processor_of pi e = true)
    (processor_events util config pi node ps nd k).
Proof.
  unfold processor_events. destruct (first_match config ps nd k) as [[j p]|].
  - constructor; [|done]. simpl. apply bool_decide_eq_true_2. done.
  - done.
Qed.

(** C1, as the code has it.  Every plugin, in registration order, gets
    its turn on an eligible declaration, unless a value directive made the
    handler return before: when the earlier plugins have had their turn,
    whatever processors of theirs matched and ran, and the plugin's own
    value directives have not succeeded, the plugin's first processor whose
    expression matches the declaration as it then stands runs, and the
    handler goes on with the later plugins.  In the log of a completed call
    the runs of that plugin's processors are that one run, or none if none
    matches; and no plugin has more than one run. *)
Theorem each_plugin_runs_its_first_match node s s0 ps1 plugin ps2 s1 s2 nd :
  plugins config = ps1 ++ plugin :: ps2 ->
  shouldProcess node s = Ok true s0 ->
  plugin_loop util config 0 ps1 node s0 = Ok false s1 ->
  value_loop util config (length ps1) 0 (pl_value plugin) node s1 = Ok false s2 ->
  nodes s2 !! node = Some nd ->
  (forall j p,
     first_match config (pl_processors plugin) nd 0 = Some (j, p) ->
     exists s3,
       processor_loop util config (length ps1) 0 (pl_processors plugin) node s2
       = Ok tt s3
       /\ log s3 = log s2 ++ [CallProcessor (length ps1) j node
                                (differs config nd (flip_pair util config p nd))]
       /\ Declaration util config node s
          = (do stop <- plugin_loop util config (S (length ps1)) ps2 node;
             if stop then ret tt else auto_rename util config node) s3)
  /\ (forall s' new,
        Declaration util config node s = Ok tt s' ->
        log s' = log s ++ new ->
        List.filter (is_processor_of (length ps1)) new
        = processor_events util config (length ps1) node (pl_processors plugin) nd 0
        /\ forall q, count (is_processor_of q) new <= 1).
Proof.
  intros Hps Hgate H1 Hv Hn.
  assert (Hdecl : Declaration util config node s
                  = (do _ <- processor_loop util config (length ps1) 0
                               (pl_processors plugin) node;
                     do stop <- plugin_loop util config (S (length ps1)) ps2 node;
                     if stop then ret tt else auto_rename util config node) s2).
  { unfold Declaration. rewrite (bind_Ok _ _ _ _ _ Hgate). simpl.
    unfold bind at 1. rewrite Hps, plugin_loop_app, H1. simpl.
    unfold bind at 1. rewrite Hv. unfold bind.
    destruct (processor_loop _ _ _ _ _ _ _); done. }
  split.
  - intros j p Hfm.
    pose proof (first_match_not_inherited config _ _ _ _ _ Hfm) as Hal.
    destruct (apply_processor_spec util config (length ps1) j p node s2 nd Hn)
      as (s3 & Hrun & Hlog & _).
    exists s3. rewrite (processor_loop_first _ _ _ _ _ _ _ _ Hn Hal), Hfm.
    split; [done|]. split; [done|].
    rewrite Hdecl. unfold bind at 1.
    rewrite (processor_loop_first _ _ _ _ _ _ _ _ Hn Hal), Hfm, Hrun. done.
  - intros s' new Hrun Hlog. split.
    + rewrite Hdecl in Hrun. unfold bind at 1 in Hrun.
      destruct (processor_loop _ _ _ _ _ _ _) as [[] s3|] eqn:Hp; [|done].
      unfold bind at 1 in Hrun.
      destruct (plugin_loop util config (S (length ps1)) ps2 node s3)
        as [stop s4|] eqn:H2; [|done].
      pose proof (shouldProcess_frame _ _ _ _ Hgate)
        as (_ & _ & _ & _ & (g & Hg & Hgall) & _).
      destruct (gate_calls_plain g Hgall) as (_ & _ & Hg0 & _).
      apply plugin_loop_inv in H1 as (l1 & Hl1 & _ & _ & _ & _ & Hz1 & _).
      apply value_loop_inv in Hv as (v & Hlv & Hvall & _).
      apply processor_loop_inv in Hp as (pr & Hlp & _ & Hpr & _).
      apply plugin_loop_inv in H2 as (l2 & Hl2 & _ & _ & _ & _ & Hz2 & _).
      assert (Hend : log s' = log s4).
      { destruct stop; [unfold ret in Hrun; simplify_eq; done|].
        apply auto_rename_quiet in Hrun as [? _]. done. }
      assert (new = g ++ l1 ++ v ++ pr ++ l2) as ->.
      { apply (app_inv_head (log s)).
        rewrite <- Hlog, Hend, Hl2, Hlp, Hlv, Hl1, Hg, <- !app_assoc. done. }
      rewrite (Hpr nd Hn). rewrite !List.filter_app.
      rewrite (count_zero_filter _ g (Hg0 _)).
      rewrite (count_zero_filter _ l1) by (apply Hz1; simpl; lia).
      rewrite (count_zero_filter _ v)
        by (apply (value_calls_no_processor (length ps1) v Hvall)).
      rewrite (count_zero_filter _ l2) by (apply Hz2; lia).
      rewrite (filter_all _ _ (processor_events_own _ _ _ _ _)).
      rewrite app_nil_r. done.
    + destruct (Declaration_inv node s s' Hrun)
        as (ok & t1 & g & Hgate' & _ & Hg & Hgall & Hok).
      destruct (gate_calls_plain g Hgall) as (_ & _ & Hg0 & _).
      rewrite Hgate in Hgate'. simplify_eq.
      destruct Hok as (stop & t2 & l & _ & Hl & _ & _ & _ & Hc & _ & _ & Hend).
      assert (Hs' : log s' = log t2).
      { destruct stop; [subst; done|]. apply auto_rename_quiet in Hend as [? _]. done. }
      assert (new = g ++ l) as ->.
      { apply (app_inv_head (log s)). rewrite <- Hlog, Hs', Hl, Hg, <- app_assoc. done. }
      intros q. rewrite count_app, Hg0. apply Hc.
Qed.


(** C8, as the code has it: for the first matching processor of a plugin,
    the value handed to the action is the raw value (else the parsed one)
    with its comments set aside, the comments are put back into the value
    the action returns, and the declaration's property and value are
    written and the counter incremented exactly when the returned property
    differs from the declaration's and no alias applies, or the value with
    its comments restored differs from the raw (else parsed) value. *)
Theorem matching_processor_write_back pi k ps node s nd j p :
  nodes s !! node = Some nd ->
  first_match config ps nd k = Some (j, p) ->
  let st := saveComments util (raw_of nd) in
  let st1 := if processEnv config
             then set_value st (swap util (sv_value st)
                                  "safe-area-inset-left" "safe-area-inset-right")
             else st in
  let out := pr_action p (prop nd) (sv_value st1) in
  let v := restoreComments util (set_value st1 (snd out)) in
  exists s' changed,
    processor_loop util config pi k ps node s = Ok tt s'
    /\ log s' = log s ++ [CallProcessor pi j node changed]
    /\ (changed = true <->
          (alias_of config nd = None /\ fst out <> prop nd) \/ v <> raw_of nd)
    /\ (if changed
        then nodes s' = <[node := written nd (fst out, v)]> (nodes s)
             /\ flipped s' = S (flipped s)
        else nodes s' = nodes s /\ flipped s' = flipped s)
    /\ pipeline_frame s s'.
Proof.
  intros Hn Hfm st st1 out v.
  pose proof (first_match_not_inherited config _ _ _ _ _ Hfm) as Hal.
  rewrite (processor_loop_first _ _ _ _ _ _ _ _ Hn Hal), Hfm.
  destruct (apply_processor_spec util config pi j p node s nd Hn)
    as (s' & Hrun & Hlog & Hch & Hpf).
  exists s', (differs config nd (flip_pair util config p nd)).
  split; [done|]. split; [done|]. split; [|done].
  unfold differs, flip_pair. fold st. fold st1. fold out. fold v. simpl.
  rewrite orb_true_iff, andb_true_iff, !negb_true_iff, !bool_decide_eq_false.
  rewrite <- eq_None_not_Some. done.
Qed.

End declaration.

(** ** Comments *)

Section comments.

Variable config : Config.
Variable directiveParser : string -> list Metadata.

Lemma resolve_frame ps : forall current s current' s',
  resolve config ps current s = Ok current' s' ->
  counter_frame s s' /\ nodes s' = nodes s /\ stack s' = stack s.
Proof.
  induction ps as [|plugin ps IH]; intros current s current' s' H; simpl in H.
  - unfold ret in H. simplify_eq. unfold counter_frame. done.
  - destruct (is_blacklisted config plugin (md_name (metadata current))).
    + mcase; unfold counter_frame; done.
    + destruct (truthy_slot _); simpl in H.
      * unfold ret in H. simplify_eq. unfold counter_frame. done.
      * eapply IH, H.
Qed.

Lemma comment_callback_frame node current s r s' :
  comment_callback config node current s = Ok r s' ->
  counter_frame s s' /\ nodes s' = nodes s.
Proof.
  unfold comment_callback. unfold bind at 1. intros H.
  destruct (resolved config current s) as [cur s1|] eqn:Hres; [|done].
  assert (Hfr : counter_frame s s1 /\ nodes s1 = nodes s).
  { unfold resolved in Hres.
    destruct (directive current);
      try (unfold ret in Hres; simplify_eq; unfold counter_frame; done).
    apply resolve_frame in Hres as (? & ? & ?). done. }
  destruct Hfr as [[Hf Ht] Hn].
  unfold counter_frame. rewrite <- Hf, <- Ht, <- Hn.
  clear Hres Hf Ht Hn. unfold dispatch in H. mcase; done.
Qed.

Lemma parse_forms_frame node forms : forall s s',
  state.parse_forms node forms (comment_callback config node) s = Ok tt s' ->
  counter_frame s s' /\ nodes s' = nodes s.
Proof.
  induction forms as [|m forms IH]; intros s s' H; simpl in H.
  - unfold ret in H. simplify_eq. unfold counter_frame. done.
  - unfold bind at 1, get at 1 in H. unfold bind at 1, modify at 1 in H.
    unfold bind at 1 in H.
    destruct (comment_callback _ _ _ _) as [[r cur] s1|] eqn:Hcb; [|done].
    apply comment_callback_frame in Hcb as [[Hf Ht] Hn]. simpl in *.
    destruct r; simpl in H.
    + unfold bind at 1, state.push, modify at 1 in H.
      apply IH in H as [[Hf' Ht'] Hn']. simpl in *.
      unfold counter_frame. split; [split|]; congruence.
    + unfold ret in H. simplify_eq. unfold counter_frame. done.
Qed.

Lemma Comment_frame node s s' :
  Comment config directiveParser node s = Ok tt s' ->
  counter_frame s s' /\ nodes s' = nodes s.
Proof.
  unfold Comment. unfold bind at 1. intros H.
  destruct (shouldProcess node s) as [ok s1|] eqn:Hgate; [|done].
  apply shouldProcess_frame in Hgate as (Hn & Hf & Ht & _).
  destruct ok; simpl in H.
  - unfold state.parse in H. unfold bind at 1, getNode in H.
    destruct (nodes s1 !! node); [|done].
    apply parse_forms_frame in H as [[Hf' Ht'] Hn'].
    unfold counter_frame. split; [split|]; congruence.
  - unfold ret in H. simplify_eq. unfold counter_frame. done.
Qed.

Lemma passes_over_inv q name :
  passes_over config name q = true ->
  is_blacklisted config q name = false
  /\ held (member (pl_control q) name) = Undefined.
Proof.
  unfold passes_over. intros H. apply andb_true_iff in H as [H1 H2].
  apply negb_true_iff in H1. split; [done|].
  destruct (member (pl_control q) name); done.
Qed.



End comments.

(** ** The flip counter *)

Section counter.

Variable util : Util.
Variable config : Config.
Variable directiveParser : string -> list Metadata.

Lemma Rule_inv node s s' :
  Rule node s = Ok tt s' ->
  exists ok s1,
    shouldProcess node s = Ok ok s1
    /\ flipped s' = (if ok then 0 else flipped s)
    /\ (ok = false -> s' = s1).
Proof.
  unfold Rule. unfold bind at 1. intros H.
  destruct (shouldProcess node s) as [ok s1|] eqn:Hgate; [|done].
  exists ok, s1. split; [done|].
  apply shouldProcess_frame in Hgate as (_ & Hf & _).
  destruct ok; simpl in H; unfold modify, ret in H; simplify_eq; done.
Qed.

Lemma Once_counter node s s' : Once node s = Ok tt s' -> flipped s' = flipped s.
Proof.
  unfold Once. unfold bind at 1, emit, modify at 1. unfold bind at 1.
  intros H. destruct (shouldProcess node _) as [ok s1|] eqn:Hgate; [|done].
  apply shouldProcess_frame in Hgate as (_ & Hf & _).
  unfold ret in H. simplify_eq. done.
Qed.

Lemma AtRule_counter node s s' :
  AtRule util config node s = Ok tt s' -> flipped s' = flipped s.
Proof.
  unfold AtRule. unfold bind at 1. intros H.
  destruct (shouldProcess node s) as [ok s1|] eqn:Hgate; [|done].
  apply shouldProcess_frame in Hgate as (_ & Hf & _).
  mcase; done.
Qed.

Lemma Declaration_counter node s s' :
  Declaration util config node s = Ok tt s' ->
  forall new, log s' = log s ++ new ->
  flipped s' = flipped s + count is_flip new + count is_success new.
Proof.
  intros Hrun new Hlog.
  destruct (Declaration_inv util config node s s' Hrun)
    as (ok & s1 & g & Hgate & Hgf & Hg & Hgall & Hok).
  destruct (gate_calls_plain g Hgall) as (Hgs & Hgflip & _ & _).
  assert (Hgs0 : count is_success g = 0) by (apply count_none; done).
  destruct Hgf as (_ & Hfl & _).
  destruct ok.
  - destruct Hok as (stop & s2 & l & _ & Hl & _ & Hstop & Hfl2 & _ & _ & _ & Hend).
    assert (Hs' : log s' = log s2 /\ flipped s' = flipped s2).
    { destruct stop; [subst; done|].
      apply auto_rename_quiet in Hend as (? & ? & _). done. }
    destruct Hs' as [Hs' Hf'].
    assert (new = g ++ l) as ->.
    { apply (app_inv_head (log s)). rewrite <- Hlog, Hs', Hl, Hg, <- app_assoc. done. }
    rewrite Hf', Hfl2, Hfl, !count_app, Hgflip, Hgs0. simpl.
    destruct stop.
    + destruct Hstop as (pre & p & k & -> & Hpre).
      rewrite !count_app, (count_none is_success pre Hpre).
      change (count is_flip [CallValue p k node true]) with 0.
      change (count is_success [CallValue p k node true]) with 1. lia.
    + rewrite (count_none is_success l Hstop). lia.
  - subst s'. assert (new = g) as ->.
    { apply (app_inv_head (log s)). rewrite <- Hlog, Hg. done. }
    rewrite Hgflip, Hgs0. lia.
Qed.

(** The renaming part, when its test passes. *)
Lemma auto_rename_fires node s nd p pn :
  autoRename config = true ->
  flipped s = 0 ->
  nodes s !! node = Some nd ->
  parent nd = Some p ->
  nodes s !! p = Some pn ->
  type pn = rule ->
  isLastOfType util node = true ->
  auto_rename util config node s = rename util config p s.
Proof.
  intros Ha Hf Hn Hp Hpn Ht Hlast. unfold auto_rename.
  unfold bind at 1, get at 1. rewrite Ha. simpl.
  rewrite bool_decide_eq_true_2 by done. simpl.
  rewrite (bind_Ok _ _ _ _ _ (getNode_Ok _ _ _ Hn)), Hp.
  rewrite (bind_Ok _ _ _ _ _ (getNode_Ok _ _ _ Hpn)).
  rewrite bool_decide_eq_true_2 by done. simpl. rewrite Hlast. done.
Qed.

(** C10: the counter is set to zero by [Rule], and only when the gate
    answers eligible; no other handler lowers it.  So after a rule the gate
    answered ineligible for, a declaration is tested against the counter as
    it stood before that rule, plus its own flips.  When that inherited
    counter is not zero no renaming takes place, whatever the declaration
    itself flipped; when it is zero and the declaration, eligible itself,
    flips nothing, the test passes and the rule is renamed, although the
    gate answered ineligible for it. *)
Theorem inherited_flip_counter r d s s1 nd s2 new :
  shouldProcess r s = Ok false s1 ->
  nodes s1 !! d = Some nd ->
  Declaration util config d s1 = Ok tt s2 ->
  log s2 = log s1 ++ new ->
  (Rule r s = Ok tt s1 /\ flipped s1 = flipped s)
  /\ flipped s2 = flipped s + count is_flip new + count is_success new
  /\ (flipped s <> 0 ->
      toBeRenamed s2 = toBeRenamed s1 /\ only_node_changed d s1 s2)
  /\ (flipped s2 = 0 ->
      forall t p pn,
        shouldProcess d s1 = Ok true t ->
        autoRename config = true ->
        parent nd = Some p -> p <> d ->
        nodes s1 !! p = Some pn -> type pn = rule ->
        isLastOfType util d = true ->
        exists t',
          only_node_changed d s1 t' /\ toBeRenamed t' = toBeRenamed s1
          /\ flipped t' = 0
          /\ rename util config p t' = Ok tt s2
          /\ (autoRenameStrict config = false ->
              nodes s2 !! p
              = Some (set_selector pn (applyStringMap util (selector pn) false))))
  /\ (forall n t t', Rule n t = Ok tt t' ->
        exists ok t1, shouldProcess n t = Ok ok t1
                      /\ flipped t' = (if ok then 0 else flipped t))
  /\ (forall n t t',
        Once n t = Ok tt t' \/ AtRule util config n t = Ok tt t'
        \/ Comment config directiveParser n t = Ok tt t' \/ OnceExit n t = Ok tt t' ->
        flipped t' = flipped t)
  /\ (forall n t t',
        Declaration util config n t = Ok tt t' -> flipped t <= flipped t').
Proof.
  intros Hgate Hn Hrun Hlog.
  pose proof (shouldProcess_frame _ _ _ _ Hgate) as (_ & Hf & _).
  destruct (Declaration_inv util config d s1 s2 Hrun)
    as (ok & t1 & g & Hg1 & Hgf & Hg & Hgall & Hok).
  pose proof Hgf as (Hnodes & Hfl & Htb & _ & _ & _).
  assert (Hgate_only : only_node_changed d s1 t1).
  { split; [intros; rewrite Hnodes; done|].
    intros nd0 ?. exists nd0. rewrite Hnodes. done. }
  pose proof (Declaration_counter _ _ _ Hrun new Hlog) as Hcount.
  split.
  { split; [|done]. unfold Rule. rewrite (bind_Ok _ _ _ _ _ Hgate). done. }
  split; [rewrite <- Hf; done|].
  split.
  { intros Hnz.
    destruct ok; [|subst; done].
    destruct Hok as (stop & t2 & l & _ & _ & _ & _ & Hfl2 & _ & Hpf & Hch & Hend).
    assert (s2 = t2) as ->.
    { destruct stop; [done|].
      rewrite auto_rename_skipped in Hend by lia. simplify_eq. done. }
    destruct Hpf as (_ & _ & Ht & _).
    split; [congruence|]. eapply only_node_changed_trans; done. }
  split.
  { intros Hzero t p pn Hel Ha Hp Hne Hpn Hty Hlast.
    rewrite Hg1 in Hel. simplify_eq.
    destruct Hok as (stop & t2 & l & _ & _ & _ & _ & Hfl2 & _ & Hpf & Hch & Hend).
    assert (Hch2 : only_node_changed d s1 t2)
      by (eapply only_node_changed_trans; done).
    destruct stop.
    { subst. lia. }
    pose proof (auto_rename_quiet _ _ _ _ _ Hend) as (_ & Hfl' & _).
    assert (Hz2 : flipped t2 = 0) by lia.
    destruct Hch2 as [Hother Hself].
    destruct (Hself nd Hn) as (nd2 & Hn2 & Hs2).
    assert (Hp2 : parent nd2 = Some p) by (unfold shape in Hs2; congruence).
    assert (Hpn2 : nodes t2 !! p = Some pn) by (rewrite Hother; done).
    rewrite (auto_rename_fires d t2 nd2 p pn) in Hend by done.
    exists t2. split; [split; done|].
    destruct Hpf as (_ & _ & Ht & _).
    split; [congruence|]. split; [done|]. split; [done|].
    intros Hstrict. unfold rename in Hend.
    rewrite (bind_Ok _ _ _ _ _ (getNode_Ok _ _ _ Hpn2)), Hstrict in Hend.
    unfold setNode, modify in Hend. simplify_eq. simpl.
    rewrite lookup_insert_eq. done. }
  split.
  { intros n t t' H. destruct (Rule_inv _ _ _ H) as (ok' & t1' & ? & ? & _). eauto. }
  split.
  { intros n t t' [H|[H|[H|H]]].
    - eapply Once_counter, H.
    - eapply AtRule_counter, H.
    - apply Comment_frame in H as [[? _] _]. done.
    - destruct (OnceExit_spec n t) as (t'' & Hrun' & _ & Hsame).
      rewrite Hrun' in H. simplify_eq. apply Hsame. }
  intros n t t' Hd.
  destruct (Declaration_inv util config n t t' Hd)
    as (ok' & t1' & g' & _ & Hgf' & _ & _ & Hok').
  destruct Hgf' as (_ & Hfl'' & _).
  destruct ok'; [|subst; lia].
  destruct Hok' as (stop & t2 & l & _ & _ & _ & _ & Hfl2 & _ & _ & _ & Hend).
  assert (flipped t' = flipped t2) as ->.
  { destruct stop; [subst; done|]. apply auto_rename_quiet in Hend as (_ & ? & _). done. }
  lia.
Qed.

End counter.

(** ** Runs that complete *)




Lemma Forall_sublist {A} (P : A -> Prop) (l l' : list A) :
  sublist l' l -> Forall P l -> Forall P l'.
Proof.
  rewrite !Forall_forall. intros Hsub H x Hx. eapply H, elem_of_sublist; done.
Qed.

(** The gate only removes entries from the stack. *)
Lemma gate_entry_sublist node e s s' :
  gate_entry node e s = Ok tt s' -> sublist (stack s') (stack s).
Proof.
  unfold gate_entry. intros H.
  mcase; simpl; try done; apply remove_entry_sublist.
Qed.

Lemma shouldProcess_sublist node s b s' :
  shouldProcess node s = Ok b s' -> sublist (stack s') (stack s).
Proof.
  unfold shouldProcess. unfold bind at 1, get at 1.
  destruct (marked s node).
  - unfold ret. intros; simplify_eq. done.
  - unfold bind at 1, setMark, modify at 1. unfold state.walk.
    unfold bind at 1. unfold bind at 1, get at 1.
    destruct (forM _ _ _) as [[] s1|] eqn:Hw; [|done].
    unfold bind, get, ret. intros; simplify_eq.
    change (stack s) with (stack (set_processed (fun m => <[node:=true]> m) s)).
    eapply (forM_frame (fun t t' => sublist (stack t') (stack t)));
      [done | | | exact Hw].
    + intros t1 t2 t3 H12 H23. etrans; done.
    + intros x t t'. apply gate_entry_sublist.
Qed.

(** Objects that share a slot with an object without directive have
    none. *)
Lemma distinct_resolved_same st : forall x e,
  distinct_resolved st = true ->
  x ∈ st -> e ∈ st -> e_id x = e_id e ->
  is_dir (directive e) = false -> is_dir (directive x) = false.
Proof.
  induction st as [|y st IH]; intros x e Hd Hx He Hid Hdir; [inversion Hx|].
  apply distinct_resolved_cons in Hd as [H1 H2].
  apply elem_of_cons in Hx as [->|Hx]; apply elem_of_cons in He as [->|He].
  - done.
  - destruct (H1 e He) as [? ?]; done.
  - destruct (H1 x Hx Hid) as [? ?]; done.
  - eauto.
Qed.

Lemma find_open_spec name st e :
  state.find_open name st = Some e ->
  e ∈ st /\ md_name (metadata e) = name.
Proof.
  unfold state.find_open. intros H. apply List.find_some in H as [H Hn].
  apply List.in_rev in H. apply bool_decide_eq_true in Hn.
  split; [apply list_elem_of_In; done | done].
Qed.

Section totality.

Variable util : Util.
Variable config : Config.
Variable directiveParser : string -> list Metadata.
Variable tree : gmap nodeid Node.






(** *** Comments *)

Lemma outcome_indirect ps name b :
  outcome config ps name false = Banned b -> b = false.
Proof.
  induction ps as [|q ps IH]; simpl; [done|].
  destruct (is_blacklisted config q name); [congruence|].
  destruct (member (pl_control q) name); done.
Qed.

(** How the resolution loop leaves the entry, by the way it ends. *)
Lemma resolve_spec ps : forall current s direct,
  (direct = false -> directive current = Undefined) ->
  exists current' s',
    resolve config ps current s = Ok current' s'
    /\ same_but_log s s'
    /\ e_id current' = e_id current /\ source current' = source current
    /\ md_name (metadata current') = md_name (metadata current)
    /\ md_begin (metadata current') = md_begin (metadata current)
    /\ md_end (metadata current') = md_end (metadata current)
    /\ match outcome config ps (md_name (metadata current)) direct with
       | Banned b =>
           md_blacklist (metadata current') = true
           /\ directive current' = (if b then directive current else Undefined)
       | Found d =>
           md_blacklist (metadata current') = md_blacklist (metadata current)
           /\ directive current' = Dir d
       | FoundProto =>
           md_blacklist (metadata current') = md_blacklist (metadata current)
           /\ directive current' = Proto
       | Unknown =>
           md_blacklist (metadata current') = md_blacklist (metadata current)
           /\ directive current' = match ps with
                                   | [] => directive current
                                   | _ :: _ => Undefined
                                   end
       end.
Proof.
  induction ps as [|q ps IH]; intros current s direct Hdir; simpl.
  - exists current, s. unfold same_but_log. repeat split; done.
  - destruct (is_blacklisted config q (md_name (metadata current))) eqn:Hbl.
    + destruct (md_end (metadata current)) eqn:He;
        [|destruct (md_begin (metadata current)) eqn:Hb];
        mstep; eexists _, _; (split; [reflexivity|]);
        unfold same_but_log; simpl; repeat split; try done;
        destruct direct; try done;
        first [apply Hdir; done | symmetry; apply Hdir; done].
    + destruct (member (pl_control q) (md_name (metadata current))) as [d| |] eqn:Hm;
        simpl.
      * eexists _, s. split; [reflexivity|]. unfold same_but_log.
        simpl. repeat split; done.
      * eexists _, s. split; [reflexivity|]. unfold same_but_log.
        simpl. repeat split; done.
      * destruct (IH (set_directive current Undefined) s false) as (c' & s' & Hrun & H);
          [done|].
        exists c', s'. split; [done|]. simpl in H.
        destruct H as (? & ? & ? & ? & ? & ? & H).
        do 6 (split; [done|]).
        destruct (outcome config ps (md_name (metadata current)) false) eqn:Hout;
          try done.
        -- apply outcome_indirect in Hout. subst. done.
        -- destruct ps; done.
Qed.



(** What [state.parse] hands to the callback for a form. *)
Lemma current_of_cases node m s :
  metadata (state.current_of node m s) = m
  /\ source (state.current_of node m s) = node
  /\ ((directive (state.current_of node m s) = Null
       /\ e_id (state.current_of node m s) = fresh s)
      \/ exists e,
           e ∈ stack s /\ md_name (metadata e) = md_name m
           /\ e_id (state.current_of node m s) = e_id e
           /\ directive (state.current_of node m s) = directive e
           /\ md_begin m = false /\ md_end m = true).
Proof.
  unfold state.current_of.
  destruct (negb (md_begin m) && md_end m) eqn:Hform; [|split; [done|]; eauto].
  destruct (state.find_open (md_name m) (stack s)) as [e|] eqn:Hfind;
    [|split; [done|]; eauto].
  split; [done|]. split; [done|]. right. exists e.
  apply find_open_spec in Hfind as [? ?].
  apply andb_true_iff in Hform as [Hb He]. apply negb_true_iff in Hb. done.
Qed.




(** *** Declarations *)





Lemma decl_text_ok_written nd out :
  decl_text_ok config nd = true ->
  decl_text_ok config (written nd out) = true
  <-> (no_processors config
       || negb (is_inherited (member (aliases config) (fst out)))) = true.
Proof.
  unfold decl_text_ok. simpl. intros H. apply andb_true_iff in H as [_ ->].
  rewrite andb_true_r. done.
Qed.









(** *** The other handlers, and runs *)






End totality.

(** ** Faults of the gate *)

Lemma forM_app {A} (f : A -> M unit) (l1 l2 : list A) : forall s,
  forM (l1 ++ l2) f s
  = match forM l1 f s with
    | Ok _ s1 => forM l2 f s1
    | Fail e => Fail e
    end.
Proof.
  induction l1 as [|x l1 IH]; intros s; simpl; [done|].
  unfold bind. destruct (f x s) as [[] s1|]; [apply IH | done].
Qed.

Lemma gate_entry_fault node nd e s :
  nodes s !! node = Some nd ->
  entry_ok nd e = false ->
  gate_entry node e s = Fail (fault_of e).
Proof.
  intros Hn Hok. unfold entry_ok, gate_entry, fault_of in *.
  destruct (md_blacklist (metadata e)); simpl in *; [done|].
  destruct (directive e) as [| | |d]; [done..|].
  rewrite (bind_Ok _ _ _ _ _ (getNode_Ok _ _ _ Hn)).
  apply orb_false_iff in Hok as [Hcall Hend].
  apply negb_false_iff, andb_true_iff in Hcall as [-> ->].
  apply bool_decide_eq_false in Hend. rewrite <- eq_None_not_Some in Hend.
  rewrite Hend. destruct (cd_begin d nd (metadata e)); mstep; done.
Qed.

(** The gate faults on the first open entry it cannot handle: one that is
    not blacklisted and has no directive (or, for directive, a member every
    object inherits), or one whose form carries the end marker and whose
    directive, expecting the node, has no [end].  The entries before it
    have been consulted by then. *)
Theorem gate_faults_on_first_bad_entry node nd s st1 e st2 :
  nodes s !! node = Some nd ->
  marked s node = false ->
  stack s = st1 ++ e :: st2 ->
  Forall (fun x => entry_ok nd x = true) st1 ->
  entry_ok nd e = false ->
  shouldProcess node s = Fail (fault_of e).
Proof.
  intros Hn Hm Hst Hok1 Hbad.
  unfold shouldProcess. unfold bind at 1, get at 1. rewrite Hm.
  unfold bind at 1, setMark, modify at 1. unfold state.walk.
  unfold bind at 1. unfold bind at 1, get at 1.
  set (s0 := set_processed (fun m => <[node:=true]> m) s).
  change (stack s0) with (stack s). rewrite Hst, forM_app.
  destruct (gate_walk_spec node nd st1 s0) as (s1 & Hrun & Hn1 & _); [done | done |].
  rewrite Hrun. simpl. unfold bind at 1.
  rewrite (gate_entry_fault node nd e s1); [done | rewrite Hn1; exact Hn | done].
Qed.

(** ** Marks *)

Lemma gate_entry_marks m e s s' :
  gate_entry m e s = Ok tt s' ->
  forall n, n <> m -> processed s' !! n = processed s !! n.
Proof.
  unfold gate_entry. intros H n Hne.
  mcase; simpl; rewrite ?lookup_insert_ne by done; done.
Qed.

Lemma shouldProcess_marks m s b s' :
  shouldProcess m s = Ok b s' ->
  forall n, n <> m -> processed s' !! n = processed s !! n.
Proof.
  unfold shouldProcess. unfold bind at 1, get at 1.
  destruct (marked s m).
  - unfold ret. intros; simplify_eq. done.
  - unfold bind at 1, setMark, modify at 1. unfold state.walk.
    unfold bind at 1. unfold bind at 1, get at 1.
    destruct (forM _ _ _) as [[] s1|] eqn:Hw; [|done].
    unfold bind, get, ret. intros H n Hne; simplify_eq.
    transitivity (processed (set_processed (fun p => <[m:=true]> p) s) !! n).
    + revert n Hne.
      eapply (forM_frame
                (fun t t' => forall n, n <> m -> processed t' !! n = processed t !! n));
        [done | | | exact Hw].
      * intros t1 t2 t3 H12 H23 n Hne. rewrite H23, H12; done.
      * intros x t t'. apply gate_entry_marks.
    + simpl. rewrite lookup_insert_ne; done.
Qed.

Lemma shouldProcess_keeps_marked m s b s' :
  shouldProcess m s = Ok b s' ->
  forall n, marked s n = true -> marked s' n = true.
Proof.
  intros H n Hn. destruct (decide (n = m)) as [->|Hne].
  - rewrite (shouldProcess_marked m s Hn) in H. simplify_eq. done.
  - unfold marked in *. rewrite (shouldProcess_marks _ _ _ _ H n Hne). done.
Qed.

(** ** What every handler keeps *)

Lemma quiet_refl s : quiet s s.
Proof. unfold quiet. repeat split; try done. exists []. rewrite app_nil_r. done. Qed.

Lemma quiet_trans s1 s2 s3 : quiet s1 s2 -> quiet s2 s3 -> quiet s1 s3.
Proof.
  intros (Hp1 & Ht1 & l1 & Hl1 & Hf1) (Hp2 & Ht2 & l2 & Hl2 & Hf2).
  unfold quiet. split; [congruence|]. split; [congruence|].
  exists (l1 ++ l2). rewrite Hl2, Hl1, <- app_assoc. split; [done|].
  apply Forall_app. done.
Qed.

Lemma quiet_emit e s :
  is_skipped_warning e = false -> quiet s (set_log (fun l => l ++ [e]) s).
Proof.
  intros He. unfold quiet; simpl. repeat split; try done.
  exists [e]. split; [done|]. constructor; done.
Qed.

Lemma selectors_kept_refl s : selectors_kept s s.
Proof. intros k. done. Qed.

Lemma selectors_kept_trans s1 s2 s3 :
  selectors_kept s1 s2 -> selectors_kept s2 s3 -> selectors_kept s1 s3.
Proof. intros H1 H2 k. rewrite H2, H1. done. Qed.

Lemma selectors_kept_set n nd nd' s :
  nodes s !! n = Some nd -> selector nd' = selector nd ->
  selectors_kept s (set_nodes (fun m => <[n:=nd']> m) s).
Proof.
  intros Hn Hs k. simpl. destruct (decide (n = k)) as [->|Hne].
  - rewrite lookup_insert_eq, Hn. simpl. congruence.
  - rewrite lookup_insert_ne by done. done.
Qed.

Section frames.

Variable util : Util.
Variable config : Config.
Variable directiveParser : string -> list Metadata.

Lemma run_frame_refl s : run_frame config s s.
Proof.
  unfold run_frame. repeat split; try done. exists []. rewrite app_nil_r. done.
Qed.

Lemma run_frame_trans s1 s2 s3 :
  run_frame config s1 s2 -> run_frame config s2 s3 -> run_frame config s1 s3.
Proof.
  intros (Hm1 & Hs1 & Ht1 & l1 & Hl1 & Hf1) (Hm2 & Hs2 & Ht2 & l2 & Hl2 & Hf2).
  unfold run_frame. split; [auto|]. split.
  { intros Ha k. rewrite Hs2, Hs1; done. }
  split. { intros Ha. rewrite Ht2, Ht1; done. }
  exists (l1 ++ l2). rewrite Hl2, Hl1, <- app_assoc. split; [done|].
  apply Forall_app. done.
Qed.

(** From the parts: marks kept, selectors kept, table and log. *)
Lemma run_frame_intro s s' :
  (forall n, marked s n = true -> marked s' n = true) ->
  (autoRename config = false -> selectors_kept s s') ->
  (autoRenameStrict config = false -> toBeRenamed s' = toBeRenamed s) ->
  (exists new, log s' = log s ++ new
               /\ Forall (fun e => is_skipped_warning e = false) new) ->
  run_frame config s s'.
Proof. unfold run_frame, selectors_kept. auto. Qed.

Lemma gate_run_frame m s b s' :
  shouldProcess m s = Ok b s' -> run_frame config s s'.
Proof.
  intros H. pose proof (shouldProcess_frame _ _ _ _ H)
    as (Hn & _ & Ht & _ & (g & Hg & Hgall) & _).
  apply run_frame_intro.
  - eapply shouldProcess_keeps_marked, H.
  - intros _ k. rewrite Hn. done.
  - done.
  - exists g. split; [done|]. eapply Forall_impl; [exact Hgall|].
    intros [] ?; simpl in *; done.
Qed.

Lemma quiet_run_frame s s' :
  quiet s s' -> selectors_kept s s' -> run_frame config s s'.
Proof.
  intros (Hp & Ht & Hl) Hs. apply run_frame_intro; try done.
  intros n. unfold marked. rewrite Hp. done.
Qed.

(** *** Comments *)

Lemma resolve_quiet ps : forall current s current' s',
  resolve config ps current s = Ok current' s' ->
  quiet s s' /\ nodes s' = nodes s.
Proof.
  induction ps as [|plugin ps IH]; intros current s current' s' H; simpl in H.
  - unfold ret in H. simplify_eq. split; [apply quiet_refl | done].
  - destruct (is_blacklisted config plugin (md_name (metadata current))).
    + destruct (md_end (metadata current)); [|destruct (md_begin (metadata current))];
        unfold bind, when, warn, emit, modify, ret in H; simplify_eq;
        (split; [|done]); try apply quiet_refl.
      apply quiet_emit. done.
    + destruct (truthy_slot _); simpl in H.
      * unfold ret in H. simplify_eq. split; [apply quiet_refl | done].
      * eapply IH, H.
Qed.

Lemma dispatch_quiet node current s r s' :
  dispatch node current s = Ok r s' -> quiet s s' /\ nodes s' = nodes s.
Proof.
  unfold dispatch. intros H.
  assert (Hq : forall e t, is_skipped_warning e = false ->
                 quiet s t -> quiet s (set_log (fun l => l ++ [e]) t)).
  { intros e t He Ht. eapply quiet_trans; [exact Ht | apply quiet_emit, He]. }
  mcase; (split; [|done]);
    repeat first
      [ apply quiet_refl
      | apply Hq; [done|]
      | match goal with
        | |- quiet _ (set_stack _ _) =>
            eapply quiet_trans; [|unfold quiet; simpl; repeat split; try done;
                                  exists []; rewrite app_nil_r; done]
        end ].
Qed.

Lemma comment_callback_quiet node current s r s' :
  comment_callback config node current s = Ok r s' ->
  quiet s s' /\ nodes s' = nodes s.
Proof.
  unfold comment_callback. unfold bind at 1. intros H.
  destruct (resolved config current s) as [cur s1|] eqn:Hres; [|done].
  assert (Hq1 : quiet s s1 /\ nodes s1 = nodes s).
  { unfold resolved in Hres.
    destruct (directive current);
      try (unfold ret in Hres; simplify_eq; split; [apply quiet_refl | done]).
    eapply resolve_quiet, Hres. }
  apply dispatch_quiet in H as [Hq2 Hn2]. destruct Hq1 as [Hq1 Hn1].
  split; [eapply quiet_trans; done | congruence].
Qed.

Lemma parse_forms_quiet node forms : forall s s',
  state.parse_forms node forms (comment_callback config node) s = Ok tt s' ->
  quiet s s' /\ nodes s' = nodes s.
Proof.
  induction forms as [|m forms IH]; intros s s' H; simpl in H.
  - unfold ret in H. simplify_eq. split; [apply quiet_refl | done].
  - unfold bind at 1, get at 1 in H. unfold bind at 1, modify at 1 in H.
    unfold bind at 1 in H.
    destruct (comment_callback _ _ _ _) as [[r cur] s1|] eqn:Hcb; [|done].
    apply comment_callback_quiet in Hcb as [Hq1 Hn1]. simpl in *.
    assert (Hq0 : quiet s s1).
    { destruct Hq1 as (? & ? & l & ? & ?). unfold quiet. simpl in *. eauto. }
    destruct r; simpl in H.
    + unfold bind at 1, state.push, modify at 1 in H.
      apply IH in H as [Hq2 Hn2]. simpl in *. split; [|congruence].
      eapply quiet_trans; [exact Hq0|].
      destruct Hq2 as (? & ? & l & ? & ?). unfold quiet. simpl in *. eauto.
    + unfold ret in H. simplify_eq. done.
Qed.

Lemma Comment_run_frame node s s' :
  Comment config directiveParser node s = Ok tt s' -> run_frame config s s'.
Proof.
  unfold Comment. unfold bind at 1. intros H.
  destruct (shouldProcess node s) as [ok s1|] eqn:Hgate; [|done].
  apply gate_run_frame in Hgate.
  destruct ok; simpl in H.
  - unfold state.parse in H. unfold bind at 1, getNode in H.
    destruct (nodes s1 !! node); [|done].
    apply parse_forms_quiet in H as [Hq Hn].
    eapply run_frame_trans; [exact Hgate|].
    apply quiet_run_frame; [done|]. intros k. rewrite Hn. done.
  - unfold ret in H. simplify_eq. done.
Qed.

(** *** Declarations *)

Lemma quiet_same s s' :
  processed s' = processed s -> toBeRenamed s' = toBeRenamed s ->
  log s' = log s -> quiet s s'.
Proof.
  intros Hp Ht Hl. unfold quiet. repeat split; try done.
  exists []. rewrite app_nil_r. done.
Qed.

Lemma value_loop_quiet pi node ds : forall k s stop s',
  value_loop util config pi k ds node s = Ok stop s' ->
  quiet s s' /\ selectors_kept s s'.
Proof.
  induction ds as [|d ds IH]; intros k s stop s' H; simpl in H.
  - unfold ret in H. simplify_eq. split; [apply quiet_refl | apply selectors_kept_refl].
  - unfold bind at 1, getNode in H.
    destruct (nodes s !! node) as [nd|] eqn:Hn; [|done].
    destruct (regexDirective util (vd_name d) (tested_text nd)); [|eapply IH, H].
    unfold bind at 1, emit at 1, modify at 1 in H.
    unfold bind at 1, setNode at 1, modify at 1 in H.
    set (s1 := set_nodes _ (set_log _ s)) in *.
    assert (Hq1 : quiet s s1 /\ selectors_kept s s1).
    { split.
      - unfold quiet; simpl. repeat split; try done.
        eexists. split; [done|]. constructor; done.
      - intros j. simpl. destruct (decide (node = j)) as [->|Hne].
        + rewrite lookup_insert_eq, Hn. done.
        + rewrite lookup_insert_ne by done. done. }
    destruct Hq1 as [Hq1 Hs1].
    destruct (snd (vd_action d nd)); simpl in H.
    + unfold bind at 1 in H.
      destruct (when _ _ s1) as [[] s2|] eqn:Hw; [|done].
      assert (Hq2 : quiet s1 s2 /\ selectors_kept s1 s2).
      { unfold when in Hw. destruct (clean config).
        - apply clean_up_inv in Hw as (nd1 & b & Hn1 & Hb & ->). split.
          + apply quiet_same; done.
          + eapply selectors_kept_set; done.
        - unfold ret in Hw. simplify_eq.
          split; [apply quiet_refl | apply selectors_kept_refl]. }
      destruct Hq2 as [Hq2 Hs2].
      unfold bind, modify, ret in H. simplify_eq. split.
      * eapply quiet_trans; [exact Hq1|]. eapply quiet_trans; [exact Hq2|].
        apply quiet_same; done.
      * intros j. simpl. rewrite Hs2, Hs1. done.
    + apply IH in H as [Hq Hs]. split; [eapply quiet_trans; done|].
      eapply selectors_kept_trans; done.
Qed.

Lemma apply_processor_quiet pi k p node s s' :
  apply_processor util config pi k p node s = Ok tt s' ->
  quiet s s' /\ selectors_kept s s'.
Proof.
  unfold apply_processor. unfold bind at 1, getNode. intros H.
  destruct (nodes s !! node) as [nd|] eqn:Hn; [|done].
  unfold bind at 1, emit, modify at 1 in H.
  set (e := CallProcessor pi k node (differs config nd (flip_pair util config p nd))) in *.
  assert (Hq0 : quiet s (set_log (fun l => l ++ [e]) s)) by (apply quiet_emit; done).
  destruct (differs config nd (flip_pair util config p nd));
    unfold bind, when, setNode, modify, ret in H; simplify_eq; split;
    try (destruct Hq0 as (? & ? & l & ? & ?); unfold quiet; simpl in *; eauto).
  - intros j. simpl. destruct (decide (node = j)) as [->|Hne].
    + rewrite lookup_insert_eq, Hn. done.
    + rewrite lookup_insert_ne by done. done.
  - intros j. done.
Qed.

Lemma processor_loop_quiet pi node ps : forall k s s',
  processor_loop util config pi k ps node s = Ok tt s' ->
  quiet s s' /\ selectors_kept s s'.
Proof.
  induction ps as [|p ps IH]; intros k s s' H; simpl in H.
  - unfold ret in H. simplify_eq. split; [apply quiet_refl | apply selectors_kept_refl].
  - unfold bind at 1, getNode in H.
    destruct (nodes s !! node) as [nd|] eqn:Hn; [|done].
    destruct (match_test config p nd) as [[]|]; [| |done].
    + eapply apply_processor_quiet, H.
    + eapply IH, H.
Qed.

Lemma plugin_loop_quiet node ps : forall pi s stop s',
  plugin_loop util config pi ps node s = Ok stop s' ->
  quiet s s' /\ selectors_kept s s'.
Proof.
  induction ps as [|plugin ps IH]; intros pi s stop s' H; simpl in H.
  - unfold ret in H. simplify_eq. split; [apply quiet_refl | apply selectors_kept_refl].
  - unfold bind at 1 in H.
    destruct (value_loop _ _ _ _ _ _ _) as [st s1|] eqn:Hv; [|done].
    apply value_loop_quiet in Hv as [Hq1 Hs1].
    destruct st.
    + unfold ret in H. simplify_eq. done.
    + unfold bind at 1 in H.
      destruct (processor_loop _ _ _ _ _ _ _) as [[] s2|] eqn:Hp; [|done].
      apply processor_loop_quiet in Hp as [Hq2 Hs2].
      apply IH in H as [Hq3 Hs3].
      split; [eauto using quiet_trans | eauto using selectors_kept_trans].
Qed.

Lemma auto_rename_frame node s s' :
  auto_rename util config node s = Ok tt s' ->
  processed s' = processed s /\ log s' = log s
  /\ (autoRename config = false -> s' = s)
  /\ (autoRenameStrict config = false -> toBeRenamed s' = toBeRenamed s).
Proof.
  unfold auto_rename, rename. intros H.
  mcase; repeat split; intros; simpl; try congruence; try done;
    match goal with
    | Ha : autoRename config = false, Hb : negb (autoRename config) = false |- _ =>
        rewrite Ha in Hb; discriminate
    end.
Qed.

Lemma Declaration_run_frame node s s' :
  Declaration util config node s = Ok tt s' -> run_frame config s s'.
Proof.
  unfold Declaration. unfold bind at 1. intros H.
  destruct (shouldProcess node s) as [ok s1|] eqn:Hgate; [|done].
  apply gate_run_frame in Hgate.
  destruct ok; simpl in H; [|unfold ret in H; simplify_eq; done].
  unfold bind at 1 in H.
  destruct (plugin_loop _ _ _ _ _ _) as [stop s2|] eqn:Hloop; [|done].
  apply plugin_loop_quiet in Hloop as [Hq Hs].
  eapply run_frame_trans; [exact Hgate|].
  eapply run_frame_trans; [apply quiet_run_frame; done|].
  destruct stop; [unfold ret in H; simplify_eq; apply run_frame_refl|].
  apply auto_rename_frame in H as (Hp & Hl & Hoff & Hstrict).
  apply run_frame_intro.
  - intros n. unfold marked. rewrite Hp. done.
  - intros Ha. rewrite (Hoff Ha). apply selectors_kept_refl.
  - done.
  - exists []. rewrite app_nil_r. done.
Qed.

(** *** The other handlers, and sequences of visits *)

Lemma Rule_run_frame node s s' :
  Rule node s = Ok tt s' -> run_frame config s s'.
Proof.
  unfold Rule. unfold bind at 1. intros H.
  destruct (shouldProcess node s) as [ok s1|] eqn:Hgate; [|done].
  apply gate_run_frame in Hgate.
  destruct ok; simpl in H; unfold modify, ret in H; simplify_eq; [|done].
  eapply run_frame_trans; [exact Hgate|].
  apply quiet_run_frame; [|intros k; done].
  unfold quiet; simpl. repeat split; try done. exists []. rewrite app_nil_r. done.
Qed.

Lemma Once_run_frame r s s' :
  Once r s = Ok tt s' -> run_frame config s s'.
Proof.
  unfold Once. unfold bind at 1, emit, modify at 1. unfold bind at 1.
  intros H. destruct (shouldProcess r _) as [ok s1|] eqn:Hgate; [|done].
  apply gate_run_frame in Hgate. unfold ret in H. simplify_eq.
  eapply run_frame_trans; [|exact Hgate].
  apply quiet_run_frame; [apply quiet_emit; done | intros k; done].
Qed.

Lemma AtRule_run_frame node s s' :
  AtRule util config node s = Ok tt s' -> run_frame config s s'.
Proof.
  unfold AtRule. unfold bind at 1. intros H.
  destruct (shouldProcess node s) as [ok s1|] eqn:Hgate; [|done].
  apply gate_run_frame in Hgate.
  destruct (ok && urls_atrule (processUrls config));
    [|unfold ret in H; simplify_eq; done].
  unfold bind at 1, getNode in H.
  destruct (nodes s1 !! node) as [nd|] eqn:Hn; [|done].
  unfold setNode, modify in H. simplify_eq.
  eapply run_frame_trans; [exact Hgate|].
  apply quiet_run_frame.
  - unfold quiet; simpl. repeat split; try done. exists []. rewrite app_nil_r. done.
  - eapply selectors_kept_set; done.
Qed.

Lemma visit_run_frame node s s' :
  visit util config directiveParser node s = Ok tt s' -> run_frame config s s'.
Proof.
  unfold visit. unfold bind at 1, getNode. intros H.
  destruct (nodes s !! node) as [nd|]; [|done].
  destruct (type nd).
  - unfold ret in H. simplify_eq. apply run_frame_refl.
  - eapply Rule_run_frame, H.
  - eapply AtRule_run_frame, H.
  - eapply Declaration_run_frame, H.
  - eapply Comment_run_frame, H.
Qed.

Lemma visits_run_frame visits s s' :
  forM visits (visit util config directiveParser) s = Ok tt s' ->
  run_frame config s s'.
Proof.
  apply (forM_frame (run_frame config)).
  - apply run_frame_refl.
  - apply run_frame_trans.
  - intros x t t'. apply visit_run_frame.
Qed.

End frames.

(** ** Properties of whole runs *)

Section runs.

Variable util : Util.
Variable config : Config.
Variable directiveParser : string -> list Metadata.

Lemma run_steps r visits s s' :
  run util config directiveParser r visits s = Ok tt s' ->
  exists s1 s2,
    Once r s = Ok tt s1
    /\ forM visits (visit util config directiveParser) s1 = Ok tt s2
    /\ OnceExit r s2 = Ok tt s'.
Proof.
  unfold run. unfold bind at 1. intros H.
  destruct (Once r s) as [[] s1|] eqn:H1; [|done].
  unfold bind at 1 in H.
  destruct (forM _ _ s1) as [[] s2|] eqn:H2; [|done].
  eauto.
Qed.

Lemma visit_marked_noop node s nd :
  marked s node = true -> nodes s !! node = Some nd ->
  visit util config directiveParser node s = Ok tt s.
Proof.
  intros Hm Hn. unfold visit. rewrite (bind_Ok _ _ _ _ _ (getNode_Ok _ _ _ Hn)).
  pose proof (shouldProcess_marked node s Hm) as Hgate.
  destruct (type nd); [done|..];
    unfold Rule, AtRule, Declaration, Comment;
    rewrite (bind_Ok _ _ _ _ _ Hgate); done.
Qed.

(** A node is handled at most once in a run: once the gate has answered
    eligible for it, whatever nodes are visited afterwards, the gate answers
    ineligible for it at once, and a further visit of the node changes
    nothing. *)
Theorem node_handled_at_most_once node s s1 visits s2 :
  shouldProcess node s = Ok true s1 ->
  forM visits (visit util config directiveParser) s1 = Ok tt s2 ->
  shouldProcess node s2 = Ok false s2
  /\ (forall nd, nodes s2 !! node = Some nd ->
        visit util config directiveParser node s2 = Ok tt s2).
Proof.
  intros Hgate Hvisits.
  apply shouldProcess_eligible_marks in Hgate.
  apply visits_run_frame in Hvisits as (Hmarks & _).
  specialize (Hmarks node Hgate).
  split; [apply shouldProcess_marked, Hmarks|].
  intros nd Hn. eapply visit_marked_noop; done.
Qed.

(** A rule, at-rule, declaration or comment the gate answers ineligible for
    is left alone by its handler: the visit ends in the state the gate left,
    whose store, counter and pending-rename table are those before the
    visit, and which logs [begin] and [end] calls only. *)
Theorem ineligible_node_left_alone node s nd s1 :
  nodes s !! node = Some nd ->
  type nd <> root ->
  shouldProcess node s = Ok false s1 ->
  visit util config directiveParser node s = Ok tt s1
  /\ nodes s1 = nodes s /\ flipped s1 = flipped s
  /\ toBeRenamed s1 = toBeRenamed s
  /\ exists g, log s1 = log s ++ g /\ Forall (fun e => is_gate_call e = true) g.
Proof.
  intros Hn Hroot Hgate.
  pose proof (shouldProcess_frame _ _ _ _ Hgate) as (Hnodes & Hf & Ht & _ & Hg & _).
  split; [|done].
  unfold visit. rewrite (bind_Ok _ _ _ _ _ (getNode_Ok _ _ _ Hn)).
  destruct (type nd); [done|..];
    unfold Rule, AtRule, Declaration, Comment;
    rewrite (bind_Ok _ _ _ _ _ Hgate); done.
Qed.

(** Without [autoRenameStrict] nothing is ever left pending: a run from the
    initial state ends with an empty pending-rename table and has logged no
    skipped-rename warning. *)
Theorem non_strict_run_never_skips r visits tree s' :
  autoRenameStrict config = false ->
  run util config directiveParser r visits (initial tree) = Ok tt s' ->
  toBeRenamed s' = [] /\ count is_skipped_warning (log s') = 0.
Proof.
  intros Hstrict Hrun.
  destruct (run_steps _ _ _ _ Hrun) as (s1 & s2 & H1 & H2 & H3).
  apply Once_run_frame with (config := config) in H1.
  apply visits_run_frame in H2.
  pose proof (run_frame_trans config _ _ _ H1 H2) as (_ & _ & Ht & new & Hlog & Hnew).
  specialize (Ht Hstrict). simpl in Ht, Hlog.
  destruct (OnceExit_spec r s2) as (s3 & Hexit & Hlog3 & Hsame).
  rewrite Hexit in H3. injection H3 as <-.
  destruct Hsame as (_ & _ & _ & _ & _ & Ht3).
  split; [congruence|].
  rewrite Hlog3, Hlog, Ht. simpl. rewrite !count_app.
  rewrite (count_none is_skipped_warning new Hnew).
  rewrite (count_map_none is_skipped_warning) by done.
  done.
Qed.

(** Without [autoRename] the handlers write no selector: at the end of a
    run every node has the selector it had in the tree. *)
Theorem no_autorename_keeps_selectors r visits tree s' :
  autoRename config = false ->
  run util config directiveParser r visits (initial tree) = Ok tt s' ->
  forall n, selector <$> nodes s' !! n = selector <$> tree !! n.
Proof.
  intros Hoff Hrun n.
  destruct (run_steps _ _ _ _ Hrun) as (s1 & s2 & H1 & H2 & H3).
  apply Once_run_frame with (config := config) in H1.
  apply visits_run_frame in H2.
  pose proof (run_frame_trans config _ _ _ H1 H2) as (_ & Hs & _).
  destruct (OnceExit_spec r s2) as (s3 & Hexit & _ & Hsame).
  rewrite Hexit in H3. injection H3 as <-.
  destruct Hsame as (Hn & _). rewrite Hn. apply (Hs Hoff n).
Qed.

(** Directives are opened by comments only: visiting a rule, an at-rule or
    a declaration never adds an entry to the stack (the gate may close
    some). *)
Theorem only_comments_open_directives node s nd s' :
  nodes s !! node = Some nd ->
  type nd <> comment ->
  visit util config directiveParser node s = Ok tt s' ->
  stack s' ⊆ stack s.
Proof.
  intros Hn Htype. unfold visit. rewrite (bind_Ok _ _ _ _ _ (getNode_Ok _ _ _ Hn)).
  destruct (type nd) eqn:Ht; [| | | |done].
  - unfold ret. intros; simplify_eq. done.
  - unfold Rule. unfold bind at 1.
    destruct (shouldProcess node s) as [ok s1|] eqn:Hgate; [|done].
    apply shouldProcess_frame in Hgate as (_ & _ & _ & _ & _ & Hsub).
    destruct ok; unfold when, modify, ret; intros; simplify_eq; done.
  - unfold AtRule. unfold bind at 1.
    destruct (shouldProcess node s) as [ok s1|] eqn:Hgate; [|done].
    apply shouldProcess_frame in Hgate as (_ & _ & _ & _ & _ & Hsub).
    intros H. mcase; done.
  - intros H.
    destruct (Declaration_inv util config node s s' H)
      as (ok & s1 & g & _ & Hgf & _ & _ & Hok).
    destruct Hgf as (_ & _ & _ & _ & _ & Hsub).
    destruct ok; [|subst; done].
    destruct Hok as (stop & s2 & l & _ & _ & _ & _ & _ & _ & Hpf & _ & Hend).
    destruct Hpf as (Hst & _).
    assert (stack s' = stack s2) as ->.
    { destruct stop; [subst; done|]. apply auto_rename_quiet in Hend as (_ & _ & ?). done. }
    rewrite Hst. done.
Qed.

(** A comment changes no node: its handler leaves the store, the counter
    and the pending-rename table as they are, and the mark of every other
    node; it acts on the stack, the log and its own mark only. *)
Theorem comment_touches_no_node node s s' :
  Comment config directiveParser node s = Ok tt s' ->
  nodes s' = nodes s /\ flipped s' = flipped s
  /\ toBeRenamed s' = toBeRenamed s
  /\ (forall n, n <> node -> processed s' !! n = processed s !! n).
Proof.
  intros H. pose proof (Comment_frame _ _ _ _ _ H) as [[Hf Ht] Hn].
  split; [done|]. split; [done|]. split; [done|].
  unfold Comment in H. unfold bind at 1 in H.
  destruct (shouldProcess node s) as [ok s1|] eqn:Hgate; [|done].
  pose proof (shouldProcess_marks _ _ _ _ Hgate) as Hmarks.
  destruct ok; simpl in H; [|unfold ret in H; simplify_eq; done].
  unfold state.parse in H. unfold bind at 1, getNode in H.
  destruct (nodes s1 !! node) as [cn|]; [|done].
  apply parse_forms_quiet in H as [(Hp & _) _].
  intros k Hk. rewrite Hp. apply Hmarks, Hk.
Qed.

End runs.

(** ** Resolving and dispatching a form *)

Section resolution.

Variable config : Config.

Lemma resolve_unresolved ps : forall current s,
  forallb (passes_over config (md_name (metadata current))) ps = true ->
  exists current',
    resolve config ps current s = Ok current' s
    /\ directive current' = match ps with
                            | [] => directive current
                            | _ :: _ => Undefined
                            end
    /\ metadata current' = metadata current
    /\ source current' = source current /\ e_id current' = e_id current
    /\ preserve current' = preserve current.
Proof.
  induction ps as [|q ps IH]; intros current s Hpass; simpl in *.
  - exists current. done.
  - apply andb_true_iff in Hpass as [Hq Hpass].
    apply passes_over_inv in Hq as [Hbl Hctl].
    rewrite Hbl, Hctl. simpl.
    destruct (IH (set_directive current Undefined) s) as (c' & Hrun & Hd & H);
      [done|].
    exists c'. split; [done|]. split; [destruct ps; done | done].
Qed.

(** A new form whose name no plugin blacklists and no plugin reads
    anything under in its control table: the callback calls nothing, logs
    exactly one unsupported-directive warning, on the comment, leaves the
    form without directive ([undefined] once a plugin was asked), and
    answers that it is to be pushed.  A form that comes marked blacklisted
    is not warned about; one that does not makes the gate throw once it is
    on the stack. *)
Theorem unsupported_form_warned_once node current s :
  directive current = Null ->
  forallb (passes_over config (md_name (metadata current))) (plugins config) = true ->
  exists current' s',
    comment_callback config node current s = Ok (true, current') s'
    /\ log s' = log s
                ++ (if md_blacklist (metadata current) then []
                    else [Warn (Unsupported (md_name (metadata current))
                                  (source current))])
    /\ directive current' = unresolved_slot (plugins config)
    /\ metadata current' = metadata current
    /\ same_but_log s s'
    /\ (md_blacklist (metadata current) = false ->
        forall n t, gate_entry n current' t = Fail NullDirective).
Proof.
  intros Hd Hpass. unfold comment_callback, resolved. rewrite Hd.
  destruct (resolve_unresolved (plugins config)
              (set_preserve current (negb (clean config))) s)
    as (c' & Hrun & Hd' & Hmd & Hsrc & _); [done|].
  rewrite (bind_Ok _ _ _ _ _ Hrun).
  assert (Hslot : directive c' = unresolved_slot (plugins config)).
  { rewrite Hd'. simpl. rewrite Hd. destruct (plugins config); done. }
  assert (Hfalsy : directive c' = Null \/ directive c' = Undefined).
  { rewrite Hslot. destruct (plugins config); simpl; auto. }
  exists c'.
  assert (Hgate : md_blacklist (metadata current) = false ->
            forall n t, gate_entry n c' t = Fail NullDirective).
  { intros Hbl n t. unfold gate_entry. rewrite Hmd. simpl. rewrite Hbl. simpl.
    destruct Hfalsy as [-> | ->]; done. }
  unfold dispatch.
  destruct Hfalsy as [Hc | Hc]; rewrite Hc in *; rewrite Hmd, Hsrc; simpl;
    destruct (md_blacklist (metadata current)); mstep;
    eexists; (split; [reflexivity|]); simpl;
    rewrite ?app_nil_r; unfold same_but_log; done.
Qed.

Lemma resolve_first ps1 p ps2 d : forall current s,
  forallb (passes_over config (md_name (metadata current))) ps1 = true ->
  is_blacklisted config p (md_name (metadata current)) = false ->
  pl_control p !! md_name (metadata current) = Some d ->
  resolve config (ps1 ++ p :: ps2) current s
  = Ok (set_directive current (Dir d)) s.
Proof.
  induction ps1 as [|q ps1 IH]; intros current s Hpass Hbl Hctl; simpl.
  - rewrite Hbl. unfold member. rewrite Hctl. done.
  - simpl in Hpass. apply andb_true_iff in Hpass as [Hq Hpass].
    apply passes_over_inv in Hq as [Hq1 Hq2].
    rewrite Hq1, Hq2. simpl.
    rewrite (IH (set_directive current Undefined) s); done.
Qed.

(** The control directive of a new form is the one of the first plugin, in
    registration order, that has a directive of that name, provided neither
    that plugin nor an earlier one blacklists the name: the plugins after it
    are not looked at, whatever they define or blacklist.  Resolving logs
    nothing, and sets [preserve] to the negation of [clean]. *)
Theorem first_defining_plugin_resolves current s ps1 p ps2 d :
  plugins config = ps1 ++ p :: ps2 ->
  directive current = Null ->
  forallb (passes_over config (md_name (metadata current))) ps1 = true ->
  is_blacklisted config p (md_name (metadata current)) = false ->
  pl_control p !! md_name (metadata current) = Some d ->
  resolved config current s
  = Ok (set_directive (set_preserve current (negb (clean config))) (Dir d)) s.
Proof.
  intros Hps Hd Hpass Hbl Hctl. unfold resolved. rewrite Hd, Hps.
  apply resolve_first; done.
Qed.

(** The callback's call of [end], for a resolved directive that has none:
    it faults exactly when the form carries the end marker and either does
    not begin, or the directive acts on the comment itself and its [begin]
    answered true.  Otherwise the form is to be pushed, [begin] having been
    called only if the directive acts on the comment itself. *)
Theorem callback_without_end node nd current d s :
  nodes s !! node = Some nd ->
  directive current = Dir d ->
  cd_end d = None ->
  dispatch node current s
  = if md_end (metadata current)
       && (negb (md_begin (metadata current))
           || (cd_expect_self d && cd_begin d nd (metadata current)))
    then Fail EndNotFunction
    else Ok (true, current)
           (if cd_expect_self d
            then set_log (fun l => l ++ [CallBegin (e_id current) node
                                           (cd_begin d nd (metadata current))]) s
            else s).
Proof.
  intros Hn Hd Hend. unfold dispatch. rewrite Hd, Hend.
  rewrite (bind_Ok _ _ _ _ _ (getNode_Ok _ _ _ Hn)).
  destruct (md_begin (metadata current)), (md_end (metadata current)),
    (cd_expect_self d), (cd_begin d nd (metadata current)); done.
Qed.

End resolution.

(** ** The stages of the declaration pipeline *)

Section stages.

Variable util : Util.
Variable config : Config.



Lemma plugin_loop_bound node ps : forall pi s stop s',
  plugin_loop util config pi ps node s = Ok stop s' ->
  flipped s <= flipped s' <= flipped s + length ps.
Proof.
  induction ps as [|plugin ps IH]; intros pi s stop s' H; simpl in H.
  - unfold ret in H. simplify_eq. lia.
  - unfold bind at 1 in H.
    destruct (value_loop _ _ _ _ _ _ _) as [st s1|] eqn:Hv; [|done].
    apply value_loop_inv in Hv as (v & _ & _ & Hstop1 & _).
    destruct st.
    + unfold ret in H. simplify_eq. destruct Hstop1 as [_ Hfl]. simpl. lia.
    + destruct Hstop1 as [_ Hfl1]. unfold bind at 1 in H.
      destruct (processor_loop _ _ _ _ _ _ _) as [[] s2|] eqn:Hp; [|done].
      apply processor_loop_inv in Hp as (pr & _ & Hpr & _ & Hfl2 & _).
      apply IH in H.
      assert (count is_flip pr <= 1).
      { destruct Hpr as [->|(j & c & ->)]; unfold count; simpl; [lia|].
        destruct c; simpl; lia. }
      simpl. lia.
Qed.

(** One declaration raises the counter by at most one per registered
    plugin, and never lowers it. *)
Theorem declaration_flips_bounded node s nd s' :
  nodes s !! node = Some nd ->
  Declaration util config node s = Ok tt s' ->
  flipped s <= flipped s' <= flipped s + length (plugins config).
Proof.
  intros Hn. unfold Declaration. unfold bind at 1.
  destruct (shouldProcess node s) as [ok s1|] eqn:Hgate; [|done].
  pose proof (shouldProcess_frame _ _ _ _ Hgate) as (Hnodes & Hfl & _).
  destruct ok; simpl; [|unfold ret; intros; simplify_eq; lia].
  unfold bind at 1.
  destruct (plugin_loop _ _ _ _ _ _) as [stop s2|] eqn:Hrun; [|done].
  apply plugin_loop_bound in Hrun.
  destruct stop.
  - unfold ret. intros; simplify_eq. lia.
  - intros H. apply auto_rename_quiet in H as (_ & Hf & _). lia.
Qed.

Lemma value_loop_nothing pi node ds nd : forall k s,
  nodes s !! node = Some nd ->
  forallb (fun d => negb (regexDirective util (vd_name d) (tested_text nd))) ds = true ->
  value_loop util config pi k ds node s = Ok false s.
Proof.
  induction ds as [|d ds IH]; intros k s Hn Hall; simpl; [done|].
  simpl in Hall. apply andb_true_iff in Hall as [Hd Hall].
  apply negb_true_iff in Hd.
  rewrite (bind_Ok _ _ _ _ _ (getNode_Ok _ _ _ Hn)), Hd. apply IH; done.
Qed.

Lemma processor_loop_nothing pi node ps nd : forall k s,
  nodes s !! node = Some nd ->
  forallb (fun p => bool_decide (match_test config p nd = Some false)) ps = true ->
  processor_loop util config pi k ps node s = Ok tt s.
Proof.
  induction ps as [|p ps IH]; intros k s Hn Hall; simpl; [done|].
  simpl in Hall. apply andb_true_iff in Hall as [Hp Hall].
  apply bool_decide_eq_true in Hp.
  rewrite (bind_Ok _ _ _ _ _ (getNode_Ok _ _ _ Hn)), Hp. apply IH; done.
Qed.

Lemma plugin_loop_nothing node ps nd : forall pi s,
  nodes s !! node = Some nd ->
  forallb (fun plugin =>
             forallb (fun d => negb (regexDirective util (vd_name d) (tested_text nd)))
               (pl_value plugin)
             && forallb (fun p => bool_decide (match_test config p nd = Some false))
                  (pl_processors plugin))
    ps = true ->
  plugin_loop util config pi ps node s = Ok false s.
Proof.
  induction ps as [|plugin ps IH]; intros pi s Hn Hall; simpl; [done|].
  simpl in Hall. apply andb_true_iff in Hall as [Hp Hall].
  apply andb_true_iff in Hp as [Hv Hpr].
  rewrite (bind_Ok _ _ _ _ _ (value_loop_nothing pi node _ nd 0 s Hn Hv)).
  rewrite (bind_Ok _ _ _ _ _ (processor_loop_nothing pi node _ nd 0 s Hn Hpr)).
  apply IH; done.
Qed.

(** Auto-rename without strict pairing: when the gate answers eligible for a
    declaration that no value directive and no processor matches, the
    counter is zero, and the declaration is the last of its type in a rule,
    the rule's selector is overwritten with its mirror; the table of pending
    renames, the counter and the declaration are left as they are, and
    nothing but the gate's calls is logged. *)
Theorem unflipped_last_declaration_renames_rule node s s1 nd p pn :
  autoRename config = true ->
  autoRenameStrict config = false ->
  shouldProcess node s = Ok true s1 ->
  flipped s = 0 ->
  nodes s !! node = Some nd ->
  nothing_matches util config nd = true ->
  parent nd = Some p ->
  nodes s !! p = Some pn ->
  type pn = rule ->
  isLastOfType util node = true ->
  Declaration util config node s
  = Ok tt (set_nodes
             (fun m => <[p := set_selector pn (applyStringMap util (selector pn) false)]> m)
             s1).
Proof.
  intros Hon Hstrict Hgate Hfl Hn Hnone Hpar Hp Hrule Hlast.
  pose proof (shouldProcess_frame _ _ _ _ Hgate) as (Hnodes & Hfl1 & _).
  unfold Declaration. rewrite (bind_Ok _ _ _ _ _ Hgate). simpl.
  assert (Hn1 : nodes s1 !! node = Some nd) by (rewrite Hnodes; done).
  assert (Hp1 : nodes s1 !! p = Some pn) by (rewrite Hnodes; done).
  rewrite (bind_Ok _ _ _ _ _
             (plugin_loop_nothing node (plugins config) nd 0 s1 Hn1 Hnone)).
  unfold auto_rename. unfold bind at 1, get at 1.
  rewrite Hon. simpl. rewrite bool_decide_eq_true_2 by congruence. simpl.
  rewrite (bind_Ok _ _ _ _ _ (getNode_Ok _ _ _ Hn1)), Hpar.
  rewrite (bind_Ok _ _ _ _ _ (getNode_Ok _ _ _ Hp1)).
  rewrite bool_decide_eq_true_2 by done. rewrite Hlast. simpl.
  unfold rename. rewrite (bind_Ok _ _ _ _ _ (getNode_Ok _ _ _ Hp1)), Hstrict.
  done.
Qed.



(** The parameters of an at-rule are replaced by their mirror, with URLs
    included, exactly when the gate answers eligible and [processUrls] is
    true or has its [atrule] flag true; no other field of the at-rule and
    no other node is written, and the counter, the pending-rename table and
    the log are as the gate left them. *)
Theorem atrule_mirrors_params_only node s nd s' :
  nodes s !! node = Some nd ->
  AtRule util config node s = Ok tt s' ->
  exists ok s1,
    shouldProcess node s = Ok ok s1
    /\ nodes s'
       = (if ok && urls_atrule (processUrls config)
          then <[node := with_params nd (applyStringMap util (params nd) true)]> (nodes s)
          else nodes s)
    /\ flipped s' = flipped s /\ toBeRenamed s' = toBeRenamed s
    /\ log s' = log s1 /\ stack s' = stack s1.
Proof.
  intros Hn. unfold AtRule. unfold bind at 1.
  destruct (shouldProcess node s) as [ok s1|] eqn:Hgate; [|done].
  pose proof (shouldProcess_frame _ _ _ _ Hgate) as (Hnodes & Hfl & Ht & _).
  intros H. exists ok, s1. split; [done|].
  destruct (ok && urls_atrule (processUrls config)).
  - assert (Hn1 : nodes s1 !! node = Some nd) by (rewrite Hnodes; done).
    rewrite (bind_Ok _ _ _ _ _ (getNode_Ok _ _ _ Hn1)) in H.
    unfold setNode, modify in H. simplify_eq. simpl.
    rewrite Hnodes. done.
  - unfold ret in H. simplify_eq. done.
Qed.

End stages.

(** ** What is logged, and when *)

Lemma appends_refl s : appends s s.
Proof. exists []. rewrite app_nil_r. done. Qed.

Lemma appends_trans s1 s2 s3 : appends s1 s2 -> appends s2 s3 -> appends s1 s3.
Proof.
  intros (l1 & Hl1 & Hf1) (l2 & Hl2 & Hf2). exists (l1 ++ l2).
  rewrite Hl2, Hl1, <- app_assoc. split; [done|]. apply Forall_app. done.
Qed.

Lemma appends_same s s' : log s' = log s -> appends s s'.
Proof. intros H. exists []. rewrite app_nil_r. done. Qed.

Lemma appends_emit e s t :
  is_handler_event e = true -> appends s t ->
  appends s (set_log (fun l => l ++ [e]) t).
Proof.
  intros He (l & Hl & Hf). exists (l ++ [e]). simpl. rewrite Hl, <- app_assoc.
  split; [done|]. apply Forall_app. split; [done|]. constructor; done.
Qed.

Lemma appends_log s t t' : log t' = log t -> appends s t -> appends s t'.
Proof. intros H (l & Hl & Hf). exists l. rewrite H. done. Qed.

(** A goal [appends s t] where [t] is [s] under some updates. *)
Ltac appended :=
  repeat first
    [ apply appends_refl
    | apply appends_emit; [done|]
    | eapply appends_log; [|apply appends_refl]; done
    | match goal with
      | |- appends _ (set_stack _ ?t) => apply (appends_log _ t); [done|]
      | |- appends _ (set_nodes _ ?t) => apply (appends_log _ t); [done|]
      | |- appends _ (set_flipped _ ?t) => apply (appends_log _ t); [done|]
      | |- appends _ (set_fresh _ ?t) => apply (appends_log _ t); [done|]
      | |- appends _ (set_processed _ ?t) => apply (appends_log _ t); [done|]
      | |- appends _ (set_toBeRenamed _ ?t) => apply (appends_log _ t); [done|]
      end ].

Section logged.

Variable util : Util.
Variable config : Config.
Variable directiveParser : string -> list Metadata.

Lemma gate_appends m s b s' : shouldProcess m s = Ok b s' -> appends s s'.
Proof.
  intros H. apply shouldProcess_frame in H as (_ & _ & _ & _ & (g & Hg & Hall) & _).
  exists g. split; [done|]. eapply Forall_impl; [exact Hall|].
  intros [] He; done.
Qed.

Lemma resolve_appends ps : forall current s current' s',
  resolve config ps current s = Ok current' s' -> appends s s'.
Proof.
  induction ps as [|plugin ps IH]; intros current s current' s' H; simpl in H.
  - unfold ret in H. simplify_eq. apply appends_refl.
  - destruct (is_blacklisted config plugin (md_name (metadata current))).
    + destruct (md_end (metadata current)); [|destruct (md_begin (metadata current))];
        unfold bind, when, warn, emit, modify, ret in H; simplify_eq; appended.
    + destruct (truthy_slot _); simpl in H.
      * unfold ret in H. simplify_eq. apply appends_refl.
      * eapply IH, H.
Qed.

Lemma dispatch_appends node current s r s' :
  dispatch node current s = Ok r s' -> appends s s'.
Proof. unfold dispatch. intros H. mcase; appended. Qed.

Lemma comment_callback_appends node current s r s' :
  comment_callback config node current s = Ok r s' -> appends s s'.
Proof.
  unfold comment_callback. unfold bind at 1. intros H.
  destruct (resolved config current s) as [cur s1|] eqn:Hres; [|done].
  eapply appends_trans; [|eapply dispatch_appends, H].
  unfold resolved in Hres.
  destruct (directive current);
    try (unfold ret in Hres; simplify_eq; apply appends_refl).
  eapply resolve_appends, Hres.
Qed.

Lemma parse_forms_appends node forms : forall s s',
  state.parse_forms node forms (comment_callback config node) s = Ok tt s' ->
  appends s s'.
Proof.
  induction forms as [|m forms IH]; intros s s' H; simpl in H.
  - unfold ret in H. simplify_eq. apply appends_refl.
  - unfold bind at 1, get at 1 in H. unfold bind at 1, modify at 1 in H.
    unfold bind at 1 in H.
    destruct (comment_callback _ _ _ _) as [[r cur] s1|] eqn:Hcb; [|done].
    apply comment_callback_appends in Hcb.
    assert (H0 : appends s s1).
    { destruct Hcb as (l & Hl & Hf). exists l. done. }
    destruct r; simpl in H.
    + unfold bind at 1, state.push, modify at 1 in H.
      apply IH in H. eapply appends_trans; [exact H0|].
      destruct H as (l & Hl & Hf). exists l. done.
    + unfold ret in H. simplify_eq. done.
Qed.

Lemma Comment_appends node s s' :
  Comment config directiveParser node s = Ok tt s' -> appends s s'.
Proof.
  unfold Comment. unfold bind at 1. intros H.
  destruct (shouldProcess node s) as [ok s1|] eqn:Hgate; [|done].
  apply gate_appends in Hgate.
  destruct ok; simpl in H.
  - unfold state.parse in H. unfold bind at 1, getNode in H.
    destruct (nodes s1 !! node); [|done].
    eapply appends_trans; [exact Hgate | eapply parse_forms_appends, H].
  - unfold ret in H. simplify_eq. done.
Qed.

Lemma Declaration_appends node s nd s' :
  nodes s !! node = Some nd ->
  Declaration util config node s = Ok tt s' -> appends s s'.
Proof.
  intros Hn. unfold Declaration. unfold bind at 1. intros H.
  destruct (shouldProcess node s) as [ok s1|] eqn:Hgate; [|done].
  pose proof (shouldProcess_frame _ _ _ _ Hgate) as (Hnodes & _).
  apply gate_appends in Hgate.
  destruct ok; simpl in H; [|unfold ret in H; simplify_eq; done].
  unfold bind at 1 in H.
  destruct (plugin_loop _ _ _ _ _ _) as [stop s2|] eqn:Hrun; [|done].
  apply plugin_loop_inv in Hrun as (new & Hlog & Hnew & _).
  assert (H12 : appends s1 s2).
  { exists new. split; [done|]. eapply Forall_impl; [exact Hnew|].
    intros [] He; done. }
  eapply appends_trans; [exact Hgate|].
  destruct stop; [unfold ret in H; simplify_eq; done|].
  apply auto_rename_quiet in H as (Hl & _).
  eapply appends_log; [exact Hl | exact H12].
Qed.

Lemma Rule_appends node s s' : Rule node s = Ok tt s' -> appends s s'.
Proof.
  unfold Rule. unfold bind at 1. intros H.
  destruct (shouldProcess node s) as [ok s1|] eqn:Hgate; [|done].
  apply gate_appends in Hgate.
  destruct ok; simpl in H; unfold modify, ret in H; simplify_eq; [|done].
  eapply appends_log; [|exact Hgate]. done.
Qed.

Lemma AtRule_appends node s s' :
  AtRule util config node s = Ok tt s' -> appends s s'.
Proof.
  unfold AtRule. unfold bind at 1. intros H.
  destruct (shouldProcess node s) as [ok s1|] eqn:Hgate; [|done].
  apply gate_appends in Hgate.
  destruct (ok && urls_atrule (processUrls config));
    [|unfold ret in H; simplify_eq; done].
  unfold bind at 1, getNode in H.
  destruct (nodes s1 !! node) as [nd|] eqn:Hn; [|done].
  unfold setNode, modify in H. simplify_eq.
  eapply appends_log; [|exact Hgate]. done.
Qed.

Lemma visit_appends node s s' :
  visit util config directiveParser node s = Ok tt s' -> appends s s'.
Proof.
  unfold visit. unfold bind at 1, getNode. intros H.
  destruct (nodes s !! node) as [nd|] eqn:Hn; [|done].
  destruct (type nd).
  - unfold ret in H. simplify_eq. apply appends_refl.
  - eapply Rule_appends, H.
  - eapply AtRule_appends, H.
  - eapply Declaration_appends; [exact Hn | exact H].
  - eapply Comment_appends, H.
Qed.

Lemma visits_appends visits s s' :
  forM visits (visit util config directiveParser) s = Ok tt s' -> appends s s'.
Proof.
  apply (forM_frame appends).
  - apply appends_refl.
  - apply appends_trans.
  - intros x t t'. apply visit_appends.
Qed.

(** The log of a run: the [pre] hook comes first and the [post] hook last;
    between them the handlers of the nodes log calls of plugin callbacks and
    the warnings of comments only; the warnings of the document end follow,
    one for each entry still open, outermost first, then one for each
    selector still pending, in the order they were recorded. *)
Theorem run_log_shape r visits s s' :
  run util config directiveParser r visits s = Ok tt s' ->
  exists mid,
    log s' = log s ++ [HookPre r] ++ mid
             ++ map (fun e => Warn (unclosed_of e)) (stack s')
             ++ map (fun kv => Warn (skipped_of kv)) (toBeRenamed s')
             ++ [HookPost r]
    /\ Forall (fun e => is_handler_event e = true) mid.
Proof.
  intros Hrun.
  destruct (run_steps _ _ _ _ _ _ _ Hrun) as (s1 & s2 & H1 & H2 & H3).
  unfold Once in H1. unfold bind at 1, emit, modify at 1 in H1.
  unfold bind at 1 in H1.
  destruct (shouldProcess r _) as [ok s0|] eqn:Hgate; [|done].
  unfold ret in H1. simplify_eq.
  apply gate_appends in Hgate. apply visits_appends in H2.
  destruct (appends_trans _ _ _ Hgate H2) as (mid & Hmid & Hall).
  simpl in Hmid.
  destruct (OnceExit_spec r s2) as (s3 & Hexit & Hlog3 & Hsame).
  rewrite Hexit in H3. injection H3 as <-.
  destruct Hsame as (_ & _ & Hst & _ & _ & Ht).
  exists mid. split; [|done].
  rewrite Hlog3, Hmid, Hst, Ht, <- !app_assoc. done.
Qed.

(** The selector of a rule is renamed only while nothing in it has been
    flipped: a call of [Declaration] that ends with a counter other than
    zero has written no selector and recorded none as pending. *)
Theorem flipped_rule_is_not_renamed node s s' :
  Declaration util config node s = Ok tt s' ->
  flipped s' <> 0 ->
  selectors_kept s s' /\ toBeRenamed s' = toBeRenamed s.
Proof.
  unfold Declaration. unfold bind at 1. intros H Hf.
  destruct (shouldProcess node s) as [ok s1|] eqn:Hgate; [|done].
  apply shouldProcess_frame in Hgate as (Hn & _ & Ht & _).
  assert (H01 : selectors_kept s s1) by (intros k; rewrite Hn; done).
  destruct ok; simpl in H; [|unfold ret in H; simplify_eq; done].
  unfold bind at 1 in H.
  destruct (plugin_loop _ _ _ _ _ _) as [stop s2|] eqn:Hloop; [|done].
  apply plugin_loop_quiet in Hloop as [(_ & Ht2 & _) Hs2].
  assert (H02 : selectors_kept s s2 /\ toBeRenamed s2 = toBeRenamed s).
  { split; [eapply selectors_kept_trans; done | congruence]. }
  destruct stop; [unfold ret in H; simplify_eq; done|].
  pose proof (auto_rename_quiet _ _ _ _ _ H) as (_ & Hfl & _).
  rewrite auto_rename_skipped in H by congruence.
  simplify_eq. done.
Qed.

End logged.

(** ** Directive balance at the document end *)



















(** *** What the handlers keep of the store *)

Lemma shapes_kept_refl s : shapes_kept s s.
Proof. intros k. done. Qed.

Lemma shapes_kept_trans s1 s2 s3 :
  shapes_kept s1 s2 -> shapes_kept s2 s3 -> shapes_kept s1 s3.
Proof. intros H1 H2 k. rewrite H2, H1. done. Qed.

Lemma shapes_kept_nodes s s' : nodes s' = nodes s -> shapes_kept s s'.
Proof. intros H k. rewrite H. done. Qed.

Lemma shapes_kept_insert s n nd nd' :
  nodes s !! n = Some nd -> shape nd' = shape nd ->
  shapes_kept s (set_nodes (fun m => <[n := nd']> m) s).
Proof.
  intros Hn Hs k. simpl. destruct (decide (n = k)) as [->|Hne].
  - rewrite lookup_insert_eq, Hn. simpl. congruence.
  - rewrite lookup_insert_ne by done. done.
Qed.

Lemma shapes_kept_changed node s s' :
  is_Some (nodes s !! node) -> only_node_changed node s s' -> shapes_kept s s'.
Proof.
  intros [nd Hn] [Hother Hself] k. destruct (decide (k = node)) as [->|Hne].
  - destruct (Hself nd Hn) as (nd' & Hn' & Hs). rewrite Hn', Hn. simpl. congruence.
  - rewrite Hother; done.
Qed.

Section balance.

Variable util : Util.
Variable config : Config.
Variable directiveParser : string -> list Metadata.

(** The renaming part writes selectors only. *)
Lemma rename_keeps p s s' :
  rename util config p s = Ok tt s' ->
  shapes_kept s s' /\ stack s' = stack s /\ fresh s' = fresh s
  /\ processed s' = processed s.
Proof.
  unfold rename. unfold bind at 1, getNode.
  destruct (nodes s !! p) as [pn|] eqn:Hp; [|done].
  destruct (autoRenameStrict config).
  - unfold bind at 1, get at 1.
    destruct (table_get _ (toBeRenamed s)) as [other|].
    + unfold bind at 1, getNode.
      destruct (nodes s !! other) as [on|] eqn:Ho; [|done].
      unfold bind at 1, setNode at 1, modify at 1.
      set (s1 := set_nodes _ s).
      assert (H1 : shapes_kept s s1) by (eapply shapes_kept_insert; done).
      unfold bind at 1, getNode.
      destruct (nodes s1 !! p) as [pn1|] eqn:Hp1; [|done].
      unfold setNode, modify. intros H. simplify_eq.
      split; [|done]. eapply shapes_kept_trans; [exact H1|].
      eapply shapes_kept_insert; done.
    + unfold modify. intros H. simplify_eq. split; [|done]. intros k. done.
  - unfold setNode, modify. intros H. simplify_eq.
    split; [|done]. eapply shapes_kept_insert; done.
Qed.

Lemma auto_rename_keeps node s s' :
  auto_rename util config node s = Ok tt s' ->
  shapes_kept s s' /\ stack s' = stack s /\ fresh s' = fresh s
  /\ processed s' = processed s.
Proof.
  unfold auto_rename. unfold bind at 1, get at 1.
  assert (Hsame : shapes_kept s s /\ stack s = stack s /\ fresh s = fresh s
                  /\ processed s = processed s) by (split; [intros k|]; done).
  destruct (negb (autoRename config)); [unfold ret; intros; simplify_eq; done|].
  destruct (negb (bool_decide (flipped s = 0)));
    [unfold ret; intros; simplify_eq; done|].
  unfold bind at 1, getNode.
  destruct (nodes s !! node) as [nd|]; [|done].
  destruct (parent nd) as [p|]; [|done].
  unfold bind at 1, getNode.
  destruct (nodes s !! p) as [pn|]; [|done].
  destruct (negb (bool_decide (type pn = rule)));
    [unfold ret; intros; simplify_eq; done|].
  destruct (negb (isLastOfType util node));
    [unfold ret; intros; simplify_eq; done|].
  apply rename_keeps.
Qed.

(** A node that is not a comment: its handler does the gate's work on the
    stack, the marks and the identities, and keeps the shapes. *)
Lemma visit_other node s nd s' :
  nodes s !! node = Some nd -> type nd <> comment ->
  visit util config directiveParser node s = Ok tt s' ->
  shapes_kept s s'
  /\ (type nd = root /\ s' = s
      \/ exists b s1, shouldProcess node s = Ok b s1
                      /\ stack s' = stack s1 /\ fresh s' = fresh s1
                      /\ processed s' = processed s1).
Proof.
  intros Hn Hty. unfold visit. rewrite (bind_Ok _ _ _ _ _ (getNode_Ok _ _ _ Hn)).
  destruct (type nd) eqn:Ht; [| | | |done].
  - unfold ret. intros; simplify_eq. split; [intros k; done | left; done].
  - unfold Rule. unfold bind at 1.
    destruct (shouldProcess node s) as [ok s1|] eqn:Hgate; [|done].
    pose proof (shouldProcess_frame _ _ _ _ Hgate) as (Hnodes & _).
    intros H. split.
    + destruct ok; unfold when, modify, ret in H; simplify_eq;
        apply shapes_kept_nodes; done.
    + right. eexists _, _. split; [first [exact Hgate | reflexivity]|].
      destruct ok; unfold when, modify, ret in H; simplify_eq; done.
  - unfold AtRule. unfold bind at 1.
    destruct (shouldProcess node s) as [ok s1|] eqn:Hgate; [|done].
    pose proof (shouldProcess_frame _ _ _ _ Hgate) as (Hnodes & _).
    intros H.
    destruct (ok && urls_atrule (processUrls config)).
    + unfold bind at 1, getNode in H.
      destruct (nodes s1 !! node) as [nd1|] eqn:Hn1; [|done].
      unfold setNode, modify in H. simplify_eq. split.
      * eapply shapes_kept_trans; [apply shapes_kept_nodes; exact Hnodes|].
        eapply shapes_kept_insert; done.
      * right. eexists _, _. split; [first [exact Hgate | reflexivity]|]. done.
    + unfold ret in H. simplify_eq.
      split; [apply shapes_kept_nodes; done|].
      right. eexists _, _. split; [first [exact Hgate | reflexivity]|]. done.
  - intros H.
    destruct (Declaration_inv util config node s s' H)
      as (ok & s1 & g & Hgate & Hgf & _ & _ & Hok).
    destruct Hgf as (Hnodes & _).
    destruct ok.
    + destruct Hok as (stop & s2 & l & _ & _ & _ & _ & _ & _ & Hpf & Hch & Hend).
      assert (H12 : shapes_kept s1 s2).
      { eapply shapes_kept_changed; [|exact Hch]. rewrite Hnodes. eauto. }
      destruct Hpf as (Hst & Hp & _ & Hf).
      assert (Hend' : shapes_kept s2 s' /\ stack s' = stack s2 /\ fresh s' = fresh s2
                      /\ processed s' = processed s2).
      { destruct stop; [subst; split; [intros k|]; done|].
        eapply auto_rename_keeps, Hend. }
      destruct Hend' as (H2' & Hst' & Hf' & Hp').
      split.
      * eapply shapes_kept_trans; [apply shapes_kept_nodes; exact Hnodes|].
        eapply shapes_kept_trans; done.
      * right. eexists _, _. split; [first [exact Hgate | reflexivity]|]. repeat split; congruence.
    + subst s'. split; [apply shapes_kept_nodes; done|].
      right. eexists _, _. split; [first [exact Hgate | reflexivity]|]. done.
Qed.

(** *** The gate on a stack of entries that will not end *)





(** *** The forms of a comment *)





(** *** The visits of a run *)

Variable tree : gmap nodeid Node.





End balance.

(** ** The stacks a run builds

    An entry object that has a directive sits in one slot of the stack: a
    form that begins makes a new object, and a form that only ends stands
    for an open entry but is pushed only when it has no directive. *)

Section reach.

Variable util : Util.
Variable config : Config.
Variable directiveParser : string -> list Metadata.

Lemma dispatch_inv node current s b c' s' :
  dispatch node current s = Ok (b, c') s' ->
  fresh s' = fresh s /\ sublist (stack s') (stack s) /\ c' = current
  /\ (b = true ->
      negb (md_begin (metadata current)) && md_end (metadata current) = true ->
      is_dir (directive current) = false).
Proof.
  unfold dispatch. intros H.
  destruct (directive current) as [| | |d] eqn:Hd.
  - mcase; done.
  - mcase; done.
  - mcase.
  - unfold bind at 1, getNode in H.
    destruct (nodes s !! node) as [nd|]; [|done].
    destruct (negb (md_begin (metadata current)) && md_end (metadata current)).
    + destruct (cd_end d) as [en|]; [|done].
      mcase; (split; [done|]);
        (split; [first [apply remove_entry_sublist | done]|]); done.
    + mcase; done.
Qed.

Lemma comment_callback_inv node current s b c' s' :
  comment_callback config node current s = Ok (b, c') s' ->
  fresh s' = fresh s /\ sublist (stack s') (stack s)
  /\ e_id c' = e_id current
  /\ (b = true ->
      negb (md_begin (metadata current)) && md_end (metadata current) = true ->
      is_dir (directive current) = false /\ is_dir (directive c') = false).
Proof.
  unfold comment_callback. intros H.
  assert (Hres : exists c1 s1,
            resolved config current s = Ok c1 s1
            /\ fresh s1 = fresh s /\ stack s1 = stack s
            /\ e_id c1 = e_id current
            /\ md_begin (metadata c1) = md_begin (metadata current)
            /\ md_end (metadata c1) = md_end (metadata current)
            /\ (is_dir (directive current) = true -> c1 = current)).
  { unfold resolved.
    destruct (directive current) eqn:Hd;
      try (exists current, s; unfold ret; done).
    destruct (resolve_spec config (plugins config)
                (set_preserve current (negb (clean config))) s true)
      as (c1 & s1 & Hrun & Hsame & Hid & _ & _ & Hb & He & _); [done|].
    destruct Hsame as (_ & _ & Hst & Hf & _).
    exists c1, s1. done. }
  destruct Hres as (c1 & s1 & Hres & Hf1 & Hst1 & Hid & Hb & He & Hsame).
  rewrite (bind_Ok _ _ _ _ _ Hres) in H.
  apply dispatch_inv in H as (Hf & Hst & -> & Hpush).
  split; [congruence|]. split; [rewrite <- Hst1; done|]. split; [done|].
  intros -> Hform. rewrite Hb, He in Hpush. specialize (Hpush eq_refl Hform).
  split; [|done].
  destruct (is_dir (directive current)) eqn:Hdir; [|done].
  rewrite (Hsame eq_refl) in Hpush. congruence.
Qed.

Lemma parse_forms_distinct node forms : forall s s',
  state.parse_forms node forms (comment_callback config node) s = Ok tt s' ->
  Forall (fun e => e_id e < fresh s) (stack s) ->
  distinct_resolved (stack s) = true ->
  Forall (fun e => e_id e < fresh s') (stack s')
  /\ distinct_resolved (stack s') = true.
Proof.
  induction forms as [|m forms IH]; intros s s' H Hids Hd; simpl in H.
  - unfold ret in H. simplify_eq. done.
  - unfold bind at 1, get at 1 in H. unfold bind at 1, modify at 1 in H.
    unfold bind at 1 in H.
    destruct (comment_callback _ _ _ _) as [[b c'] s1|] eqn:Hcb; [|done].
    apply comment_callback_inv in Hcb as (Hf1 & Hsub & Hid & Hpush).
    simpl in Hf1, Hsub.
    assert (Hids1 : Forall (fun e => e_id e < fresh s1) (stack s1)).
    { eapply Forall_sublist; [exact Hsub|].
      eapply Forall_impl; [exact Hids|]. intros e He. simpl in He. lia. }
    assert (Hd1 : distinct_resolved (stack s1) = true)
      by (eapply distinct_resolved_sublist; done).
    destruct b; simpl in H; [|unfold ret in H; simplify_eq; done].
    unfold bind at 1, state.push, modify at 1 in H.
    apply IH in H; [done| |]; simpl.
    + apply Forall_app. split; [done|]. constructor; [|done].
      rewrite Hid, Hf1.
      destruct (current_of_cases node m s) as (_ & _ & [[_ ->]|(e & Hin & _ & -> & _)]);
        [lia|].
      rewrite Forall_forall in Hids. specialize (Hids e Hin). simpl in Hids. lia.
    + apply distinct_resolved_snoc; [done|]. intros x Hx Hsame.
      assert (Hxs : x ∈ stack s) by (eapply elem_of_sublist; done).
      rewrite Hid in Hsame.
      destruct (current_of_cases node m s)
        as (Hmeta & _ & [[_ Hnew]|(e & Hin & _ & Hide & Hdire & Hb & He)]).
      * rewrite Forall_forall in Hids. specialize (Hids x Hxs). simpl in Hids. lia.
      * rewrite Hmeta, Hb, He in Hpush. destruct (Hpush eq_refl eq_refl) as [Hcur Hc'].
        split; [done|].
        apply (distinct_resolved_same (stack s) x e); try done; congruence.
Qed.

(** Every handler keeps the entries' identities below the next one, and
    objects that have a directive in one slot. *)
Lemma visit_distinct node s s' :
  visit util config directiveParser node s = Ok tt s' ->
  Forall (fun e => e_id e < fresh s) (stack s) ->
  distinct_resolved (stack s) = true ->
  Forall (fun e => e_id e < fresh s') (stack s')
  /\ distinct_resolved (stack s') = true.
Proof.
  intros Hrun Hids Hd.
  destruct (nodes s !! node) as [nd|] eqn:Hn.
  2: { unfold visit, bind, getNode in Hrun. rewrite Hn in Hrun. done. }
  assert (Hgate : forall b s1, shouldProcess node s = Ok b s1 ->
            Forall (fun e => e_id e < fresh s1) (stack s1)
            /\ distinct_resolved (stack s1) = true).
  { intros b s1 Hg.
    pose proof (shouldProcess_sublist _ _ _ _ Hg) as Hsub.
    pose proof (shouldProcess_frame _ _ _ _ Hg) as (_ & _ & _ & Hf & _).
    split; [|eapply distinct_resolved_sublist; done].
    rewrite Hf. eapply Forall_sublist; done. }
  assert (Hcase : type nd = comment \/ type nd <> comment)
    by (destruct (type nd); first [left; done | right; done]).
  destruct Hcase as [Hc|Hc].
  - unfold visit in Hrun. rewrite (bind_Ok _ _ _ _ _ (getNode_Ok _ _ _ Hn)) in Hrun.
    rewrite Hc in Hrun. unfold Comment in Hrun. unfold bind at 1 in Hrun.
    destruct (shouldProcess node s) as [ok s1|] eqn:Hg; [|done].
    destruct (Hgate ok s1 eq_refl) as [Hids1 Hd1].
    destruct ok; simpl in Hrun; [|unfold ret in Hrun; simplify_eq; done].
    unfold state.parse in Hrun. unfold bind at 1, getNode in Hrun.
    destruct (nodes s1 !! node); [|done].
    eapply parse_forms_distinct; done.
  - destruct (visit_other util config directiveParser node s nd s' Hn Hc Hrun)
      as (_ & [(_ & ->)|(b & s1 & Hg & Hst & Hf & _)]); [done|].
    rewrite Hst, Hf. eapply Hgate, Hg.
Qed.

(** So the gate meets such a stack at every node of a run. *)
Lemma run_keeps_entries_distinct tree r visits s' :
  (Once r ;; forM visits (visit util config directiveParser)) (initial tree)
  = Ok tt s' ->
  distinct_resolved (stack s') = true.
Proof.
  unfold bind at 1. intros H.
  destruct (Once r (initial tree)) as [[] s1|] eqn:H1; [|done].
  unfold Once in H1. unfold bind at 1, emit, modify at 1 in H1.
  unfold bind at 1 in H1.
  destruct (shouldProcess r _) as [ok s0|] eqn:Hgate; [|done].
  unfold ret in H1. simplify_eq.
  pose proof (shouldProcess_sublist _ _ _ _ Hgate) as Hsub. simpl in Hsub.
  apply sublist_nil_r in Hsub.
  assert (Hinv : Forall (fun e => e_id e < fresh s1) (stack s1)
                 /\ distinct_resolved (stack s1) = true)
    by (rewrite Hsub; done).
  clear Hgate Hsub. revert s1 H Hinv.
  induction visits as [|n visits IH]; intros s1 H [Hids Hd]; simpl in H.
  - unfold ret in H. simplify_eq. done.
  - unfold bind in H.
    destruct (visit util config directiveParser n s1) as [[] s2|] eqn:Hv; [|done].
    eapply IH; [exact H|]. eapply visit_distinct; done.
Qed.

End reach.

(** ** The theorems at work, and where the handlers depart from them *)

Import Sample More.
Local Open Scope positive_scope.

(** Two plugins have a processor matching [direction]; both run on the
    declaration, the second undoing the first. *)
Lemma two_plugins_both_run :
  matches two_plugins direction direction_decl = true
  /\ log (final (Declaration util two_plugins 3 (initial direction_tree))) = two_runs
  /\ value <$> nodes (final (Declaration util two_plugins 3 (initial direction_tree))) !! 3
     = Some "ltr".
Proof. vm_compute. done. Qed.

(** C1 fails as worded: with a processor for [direction] in each of two
    plugins, the processor of the second plugin runs as well. *)
Lemma later_plugin_processor_runs :
  ~ claimed_first_match_wins util two_plugins.
Proof.
  intros H.
  apply (H 3 (initial direction_tree) direction_decl
           (final (Declaration util two_plugins 3 (initial direction_tree)))
           two_runs 0%nat 1%nat (plugin_of "one" ∅ [] [direction]) 0%nat true);
    try (vm_compute; reflexivity).
  - eexists. vm_compute. reflexivity.
  - right. left.
Qed.

(** The theorem for C1 on that declaration, at the second plugin: it finds
    the declaration as the first plugin left it, and its processor runs. *)
Lemma each_plugin_runs_its_first_match_witness :
  plugins two_plugins
  = ([plugin_of "one" ∅ [] [direction]] ++ plugin_of "two" ∅ [] [direction] :: [])%list
  /\ shouldProcess 3 (initial direction_tree) = Ok true eligible
  /\ plugin_loop util two_plugins 0 [plugin_of "one" ∅ [] [direction]] 3 eligible
     = Ok false once_flipped
  /\ value_loop util two_plugins (length [plugin_of "one" ∅ [] [direction]]) 0
       (pl_value (plugin_of "two" ∅ [] [direction])) 3 once_flipped
     = Ok false once_flipped
  /\ nodes once_flipped !! 3 = Some (mk_decl 2 "direction" "rtl")
  /\ ((forall j p,
         first_match two_plugins (pl_processors (plugin_of "two" ∅ [] [direction]))
           (mk_decl 2 "direction" "rtl") 0 = Some (j, p) ->
         exists s3,
           processor_loop util two_plugins (length [plugin_of "one" ∅ [] [direction]]) 0
             (pl_processors (plugin_of "two" ∅ [] [direction])) 3 once_flipped
           = Ok tt s3
           /\ log s3
              = (log once_flipped
                 ++ [CallProcessor (length [plugin_of "one" ∅ [] [direction]]) j 3
                       (differs two_plugins (mk_decl 2 "direction" "rtl")
                          (flip_pair util two_plugins p
                             (mk_decl 2 "direction" "rtl")))])%list
           /\ Declaration util two_plugins 3 (initial direction_tree)
              = (do stop <- plugin_loop util two_plugins
                              (S (length [plugin_of "one" ∅ [] [direction]])) [] 3;
                 if stop then ret tt else auto_rename util two_plugins 3) s3)
      /\ (forall s' new,
            Declaration util two_plugins 3 (initial direction_tree) = Ok tt s' ->
            log s' = (log (initial direction_tree) ++ new)%list ->
            List.filter (is_processor_of (length [plugin_of "one" ∅ [] [direction]])) new
            = processor_events util two_plugins
                (length [plugin_of "one" ∅ [] [direction]]) 3
                (pl_processors (plugin_of "two" ∅ [] [direction]))
                (mk_decl 2 "direction" "rtl") 0
            /\ forall q, (count (is_processor_of q) new <= 1)%nat)).
Proof.
  refine (conj _ (conj _ (conj _ (conj _ (conj _
    (each_plugin_runs_its_first_match util two_plugins 3 (initial direction_tree)
       eligible [plugin_of "one" ∅ [] [direction]] (plugin_of "two" ∅ [] [direction])
       [] once_flipped once_flipped (mk_decl 2 "direction" "rtl") _ _ _ _ _))))));
    vm_compute; reflexivity.
Defined.

(** C2: under strict auto-rename the two rules swap their selectors, but
    the first stays in the pending-rename table and is warned about at the
    document end. *)
Theorem strict_pair_still_warned :
  exists s',
    run util strict parser 1 [2; 3; 4; 5] (initial pair_tree) = Ok tt s'
    /\ selector <$> nodes s' !! 2 = Some ".right"
    /\ selector <$> nodes s' !! 4 = Some ".left"
    /\ toBeRenamed s' = [(".left", 2)]
    /\ log s' = [HookPre 1; Warn (RenameSkipped 2); HookPost 1].
Proof. eexists. vm_compute. done. Qed.

(** The value matches the directive [ignore], its action answers false, and
    the processor for [left] runs and flips the declaration. *)
Lemma declined_directive_log :
  regexDirective util "ignore" (tested_text ignored_decl) = true
  /\ log (final (Declaration util declining 3 (initial ignored_tree)))
     = [CallValue 0 0 3 false; CallProcessor 0 0 3 true]
  /\ prop <$> nodes (final (Declaration util declining 3 (initial ignored_tree))) !! 3
     = Some "right".
Proof. vm_compute. done. Qed.



(** A run that has pushed the entry of a name no plugin knows: at the next
    rule the gate consults the open [ignore], then reads the directive the
    second entry does not have. *)
Lemma reached_stack :
  map (fun e => (md_name (metadata e), is_dir (directive e))) (stack reached)
  = [("ignore", true); ("bogus", false)]
  /\ nodes reached !! 4 = Some (mk_rule ".a")
  /\ marked reached 4 = false
  /\ shouldProcess 4 reached = Fail NullDirective.
Proof. vm_compute. done. Qed.

(** The entries of that stack are distinct objects, as in every run. *)
Lemma reached_distinct : distinct_resolved (stack reached) = true.
Proof.
  apply (run_keeps_entries_distinct util ignore_config parser stuck_tree 1 [2; 3]).
  vm_compute. reflexivity.
Qed.

(** C4 fails as worded: on a stack with an entry that has no directive the
    walk stops at that entry, and the gate returns nothing. *)
Lemma unresolved_entry_stops_the_walk :
  ~ claimed_gate_walk.
Proof.
  intros H.
  destruct (H 4 (mk_rule ".a") reached) as (s' & Hrun & _);
    [vm_compute; reflexivity .. |].
  destruct reached_stack as (_ & _ & _ & Hfail).
  rewrite Hfail in Hrun. discriminate.
Qed.

(** The theorem for C4: the gate on a rule under two open entries. *)
Lemma gate_consults_every_open_entry_witness :
  nodes nested !! 4 = Some (mk_rule ".a")
  /\ marked nested 4 = false
  /\ Forall (fun e => entry_ok (mk_rule ".a") e = true) (stack nested)
  /\ distinct_resolved (stack nested) = true
  /\ exists s',
       shouldProcess 4 nested = Ok false s'
       /\ marked s' 4 = false
       /\ log s' = [CallBegin 0 4 true; CallBegin 1 4 true; CallEnd 1 4 true]
       /\ stack s' = [outer]
       /\ nodes s' = nodes nested /\ flipped s' = flipped nested
       /\ toBeRenamed s' = toBeRenamed nested.
Proof.
  refine (conj _ (conj _ (conj _ (conj _
    (gate_consults_every_open_entry 4 (mk_rule ".a") nested _ _ _ _)))));
    try (vm_compute; reflexivity); compute_done.
Defined.

(** [ignore] is on the blacklist of the second plugin, the first plugin has
    a control directive [ignore]: a begin form gives no warning, and the
    [begin] of the first plugin's directive is called. *)
Lemma shadowed_log :
  is_blacklisted shadowed (plugin_of "two" {[ "ignore" := ignore ]} [] []) "ignore" = true
  /\ log (final (comment_callback shadowed 2 begin_form (initial comment_tree)))
     = [CallBegin 0 2 true].
Proof. vm_compute. done. Qed.



(** An open [ignore] claims the rule, which leaves it unmarked; the second
    call of the gate walks the stack and calls [begin] again. *)
Lemma claimed_node_log :
  shouldProcess 3 ignoring = Ok false (final (shouldProcess 3 ignoring))
  /\ log (final (shouldProcess 3 ignoring)) = [CallBegin 0 3 true]
  /\ log (final (shouldProcess 3 (final (shouldProcess 3 ignoring))))
     = [CallBegin 0 3 true; CallBegin 0 3 true].
Proof. vm_compute. done. Qed.

(** C6 fails as worded: for a node that a [begin] claimed at the first
    call, the second call walks the stack again. *)
Lemma gate_walks_again_for_claimed_node :
  ~ claimed_gate_idempotence.
Proof.
  intros H.
  pose proof (H 3 ignoring false (final (shouldProcess 3 ignoring))) as H2.
  destruct claimed_node_log as (H1 & _ & Hlog).
  specialize (H2 H1).
  rewrite H2 in Hlog. vm_compute in Hlog. discriminate.
Qed.

(** The theorem for C6 on a rule the gate answered eligible for. *)
Lemma gate_marked_returns_at_once_witness :
  marked (final (shouldProcess 3 (initial comment_tree))) 3 = true
  /\ (shouldProcess 3 (final (shouldProcess 3 (initial comment_tree)))
      = Ok false (final (shouldProcess 3 (initial comment_tree)))
      /\ (forall t t', shouldProcess 3 t = Ok true t' ->
            shouldProcess 3 t' = Ok false t')).
Proof.
  refine (conj _
    (gate_marked_returns_at_once 3 (final (shouldProcess 3 (initial comment_tree))) _));
    vm_compute; reflexivity.
Defined.

(** C7 on two runs: an [ignore] opened and closed leaves no entry and no
    warning; two [ignore] opened and never closed are warned about in the
    order they were opened. *)
Lemma balanced_pair_not_warned :
  exists s',
    run util ignore_config parser 1 [2; 3; 4; 5; 6; 7] (initial ignore_tree) = Ok tt s'
    /\ stack s' = []
    /\ count is_unclosed_warning (log s') = 0%nat.
Proof. eexists. vm_compute. done. Qed.

Lemma unmatched_begins_warned :
  exists s',
    run util ignore_config parser 1 [2; 3; 4] (initial open_tree) = Ok tt s'
    /\ List.filter is_unclosed_warning (log s')
       = [Warn (Unclosed "ignore" 2); Warn (Unclosed "ignore" 3)].
Proof. eexists. vm_compute. done. Qed.





(** The alias applies to [inset-start]; the processor answers the property
    [right], which differs from the declaration's, and the same value:
    nothing is written back and the counter stays. *)
Lemma aliased_log :
  fst (flip_pair util aliased to_right aliased_decl) = "right"
  /\ prop aliased_decl = "inset-start"
  /\ processor_loop util aliased 0 0 [to_right] 3 (initial aliased_tree)
     = Ok tt (final (processor_loop util aliased 0 0 [to_right] 3 (initial aliased_tree)))
  /\ log (final (processor_loop util aliased 0 0 [to_right] 3 (initial aliased_tree)))
     = [CallProcessor 0 0 3 false]
  /\ nodes (final (processor_loop util aliased 0 0 [to_right] 3 (initial aliased_tree)))
     !! 3 = Some aliased_decl
  /\ flipped (final (processor_loop util aliased 0 0 [to_right] 3 (initial aliased_tree)))
     = 0%nat.
Proof. vm_compute. done. Qed.

(** C8 fails as worded: under an alias, a returned property that differs
    from the declaration's does not make the handler write it back. *)
Lemma alias_suppresses_write_back :
  ~ claimed_write_back util aliased.
Proof.
  intros H.
  destruct (H 0%nat 0%nat [to_right] 3 (initial aliased_tree) aliased_decl 0%nat to_right
              (final (processor_loop util aliased 0 0 [to_right] 3 (initial aliased_tree))))
    as [Hwrite _]; try (vm_compute; reflexivity).
  destruct Hwrite as [_ Hflip].
  - left. vm_compute. discriminate.
  - vm_compute in Hflip. discriminate.
Qed.

(** The theorem for C8 on a declaration of [left], without alias. *)
Lemma matching_processor_write_back_witness :
  nodes (initial left_tree) !! 3 = Some left_decl
  /\ first_match aliased [to_right] left_decl 0 = Some (0%nat, to_right)
  /\ exists s' changed,
       processor_loop util aliased 0 0 [to_right] 3 (initial left_tree) = Ok tt s'
       /\ log s' = (log (initial left_tree) ++ [CallProcessor 0 0 3 changed])%list
       /\ (changed = true <->
             (alias_of aliased left_decl = None /\ "right" <> prop left_decl)
             \/ "0" <> raw_of left_decl)
       /\ (if changed
           then nodes s' = <[3 := written left_decl ("right", "0")]> (nodes (initial left_tree))
                /\ flipped s' = S (flipped (initial left_tree))
           else nodes s' = nodes (initial left_tree)
                /\ flipped s' = flipped (initial left_tree))
       /\ pipeline_frame (initial left_tree) s'.
Proof.
  refine (conj _ (conj _
    (matching_processor_write_back util aliased 0 0 [to_right] 3 (initial left_tree)
       left_decl 0 to_right _ _))); vm_compute; reflexivity.
Defined.



(** A comment of a name no plugin knows is warned about and pushed; the
    gate then reads the directive the entry does not have. *)
Lemma unsupported_name_faults :
  log (final (Comment no_end parser 2 (initial bogus_tree)))
  = [Warn (Unsupported "bogus" 2)]
  /\ run util no_end parser 1 [2; 3; 4] (initial bogus_tree) = Fail NullDirective.
Proof. vm_compute. done. Qed.

(** A directive of a name every object inherits, and a property every
    object inherits, make the handlers call what is not a function. *)
Lemma inherited_names_fault :
  run util ignore_config parser 1 [2] (initial inherited_tree) = Fail NoExpect
  /\ run util ignore_config parser 1 [3; 4] (initial inherited_tree)
     = Fail MatchNotFunction.
Proof. vm_compute. done. Qed.

(** A begin/end pair of a name that the second plugin blacklists: the form
    that begins leaves an entry whose directive is [undefined]; the form that
    ends stands for it, is not resolved again, is warned about as
    unsupported and pushed; the gate throws at the next rule. *)
Lemma late_blacklist_faults :
  form_ok barred_second (mkMetadata "ignore" true false false) = true
  /\ form_ok barred_second (mkMetadata "ignore" false true false) = false
  /\ log (final ((Once 1 ;; forM [2; 3] (visit util barred_second parser))
                   (initial late_tree)))
     = [HookPre 1; Warn (Blacklisted "two" "ignore" 2); Warn (Unsupported "ignore" 3)]
  /\ run util barred_second parser 1 [2; 3; 4] (initial late_tree)
     = Fail NullDirective.
Proof. vm_compute. done. Qed.



(** A form that begins, of a directive without [end]: nothing calls the
    missing [end], and the run completes. *)
Lemma begin_only_endless_completes :
  cd_end endless = None
  /\ exists s',
       run util no_end parser 1 [2; 3]
         (initial (<[2 := mk_comment "rtl:begin:once"]> once_tree)) = Ok tt s'.
Proof. split; [done|]. eexists. vm_compute. done. Qed.

(** The first rule counts one flip; [skip] makes the gate answer
    ineligible for the second rule, so the counter is not reset; the
    declaration of the second rule flips nothing, and yet its rule is not
    renamed. *)
Lemma flipped_before_skipped_rule :
  shouldProcess 5 before_skipped = Ok false skipped
  /\ flipped before_skipped = 1%nat
  /\ Declaration util renaming 6 skipped = Ok tt after_skipped
  /\ log after_skipped = log skipped
  /\ selector <$> nodes after_skipped !! 5 = Some ".left".
Proof. vm_compute. done. Qed.

(** C10 where the counter left over is zero: [skip] makes the gate answer
    ineligible for the rule; its declaration flips nothing, the test of
    the counter passes, and the rule is renamed. *)
Lemma inherited_flip_counter_witness :
  shouldProcess 3 before_claimed = Ok false claimed
  /\ nodes claimed !! 4 = Some (mk_decl 3 "color" "red")
  /\ Declaration util renaming 4 claimed = Ok tt after_claimed
  /\ log after_claimed = (log claimed ++ [])%list
  /\ selector <$> nodes after_claimed !! 3 = Some ".right"
  /\ ((Rule 3 before_claimed = Ok tt claimed /\ flipped claimed = flipped before_claimed)
      /\ flipped after_claimed
         = (flipped before_claimed + count is_flip [] + count is_success [])%nat
      /\ (flipped before_claimed <> 0%nat ->
          toBeRenamed after_claimed = toBeRenamed claimed
          /\ only_node_changed 4 claimed after_claimed)
      /\ (flipped after_claimed = 0%nat ->
          forall t p pn,
            shouldProcess 4 claimed = Ok true t ->
            autoRename renaming = true ->
            parent (mk_decl 3 "color" "red") = Some p -> p <> 4 ->
            nodes claimed !! p = Some pn -> type pn = rule ->
            isLastOfType util 4 = true ->
            exists t',
              only_node_changed 4 claimed t' /\ toBeRenamed t' = toBeRenamed claimed
              /\ flipped t' = 0%nat
              /\ rename util renaming p t' = Ok tt after_claimed
              /\ (autoRenameStrict renaming = false ->
                  nodes after_claimed !! p
                  = Some (set_selector pn (applyStringMap util (selector pn) false))))
      /\ (forall n t t', Rule n t = Ok tt t' ->
            exists ok t1, shouldProcess n t = Ok ok t1
                          /\ flipped t' = (if ok then 0%nat else flipped t))
      /\ (forall n t t',
            Once n t = Ok tt t' \/ AtRule util renaming n t = Ok tt t'
            \/ Comment renaming parser n t = Ok tt t' \/ OnceExit n t = Ok tt t' ->
            flipped t' = flipped t)
      /\ (forall n t t',
            Declaration util renaming n t = Ok tt t' -> (flipped t <= flipped t')%nat)).
Proof.
  refine (conj _ (conj _ (conj _ (conj _ (conj _
    (inherited_flip_counter util renaming parser 3 4 before_claimed claimed
       (mk_decl 3 "color" "red") after_claimed [] _ _ _ _))))));
    vm_compute; reflexivity.
Defined.

(** ** The further properties on sample states *)

Lemma gate_faults_on_first_bad_entry_witness :
  nodes stuck !! 3 = Some (mk_rule ".a")
  /\ marked stuck 3 = false
  /\ stack stuck = ([outer] ++ unresolved :: [])%list
  /\ Forall (fun x => entry_ok (mk_rule ".a") x = true) [outer]
  /\ entry_ok (mk_rule ".a") unresolved = false
  /\ shouldProcess 3 stuck = Fail (fault_of unresolved).
Proof.
  refine (conj _ (conj _ (conj _ (conj _ (conj _
    (gate_faults_on_first_bad_entry 3 (mk_rule ".a") stuck [outer] unresolved []
       _ _ _ _ _)))))); try (vm_compute; reflexivity); compute_done.
Defined.

Lemma node_handled_at_most_once_witness :
  shouldProcess 2 (initial direction_tree) = Ok true gated
  /\ forM [3] (visit util two_plugins parser) gated = Ok tt visited
  /\ (shouldProcess 2 visited = Ok false visited
      /\ (forall nd, nodes visited !! 2 = Some nd ->
            visit util two_plugins parser 2 visited = Ok tt visited)).
Proof.
  refine (conj _ (conj _
    (node_handled_at_most_once util two_plugins parser 2 (initial direction_tree)
       gated [3] visited _ _))); vm_compute; reflexivity.
Defined.

Lemma ineligible_node_left_alone_witness :
  nodes ignoring !! 3 = Some (mk_rule ".a")
  /\ type (mk_rule ".a") <> root
  /\ shouldProcess 3 ignoring = Ok false (final (shouldProcess 3 ignoring))
  /\ (visit util ignore_config parser 3 ignoring
      = Ok tt (final (shouldProcess 3 ignoring))
      /\ nodes (final (shouldProcess 3 ignoring)) = nodes ignoring
      /\ flipped (final (shouldProcess 3 ignoring)) = flipped ignoring
      /\ toBeRenamed (final (shouldProcess 3 ignoring)) = toBeRenamed ignoring
      /\ exists g, log (final (shouldProcess 3 ignoring)) = (log ignoring ++ g)%list
                   /\ Forall (fun e => is_gate_call e = true) g).
Proof.
  refine (conj _ (conj _ (conj _
    (ineligible_node_left_alone util ignore_config parser 3 ignoring (mk_rule ".a")
       _ _ _ _)))); try (vm_compute; reflexivity); compute_done.
Defined.

Lemma non_strict_run_never_skips_witness :
  autoRenameStrict renaming = false
  /\ run util renaming parser 1 [2; 3; 4; 5; 6] (initial skip_tree)
     = Ok tt (final (run util renaming parser 1 [2; 3; 4; 5; 6] (initial skip_tree)))
  /\ (toBeRenamed (final (run util renaming parser 1 [2; 3; 4; 5; 6] (initial skip_tree)))
      = []
      /\ count is_skipped_warning
           (log (final (run util renaming parser 1 [2; 3; 4; 5; 6] (initial skip_tree))))
         = 0%nat).
Proof.
  refine (conj _ (conj _
    (non_strict_run_never_skips util renaming parser 1 [2; 3; 4; 5; 6] skip_tree _ _ _)));
    vm_compute; reflexivity.
Defined.

Lemma no_autorename_keeps_selectors_witness :
  autoRename ignore_config = false
  /\ run util ignore_config parser 1 [2; 3; 4; 5; 6; 7] (initial ignore_tree)
     = Ok tt (final (run util ignore_config parser 1 [2; 3; 4; 5; 6; 7]
                       (initial ignore_tree)))
  /\ forall n,
       selector <$> nodes (final (run util ignore_config parser 1 [2; 3; 4; 5; 6; 7]
                                    (initial ignore_tree))) !! n
       = selector <$> ignore_tree !! n.
Proof.
  refine (conj _ (conj _
    (no_autorename_keeps_selectors util ignore_config parser 1 [2; 3; 4; 5; 6; 7]
       ignore_tree _ _ _))); vm_compute; reflexivity.
Defined.

Lemma unsupported_form_warned_once_witness :
  directive bogus_form = Null
  /\ forallb (passes_over no_end (md_name (metadata bogus_form))) (plugins no_end) = true
  /\ exists current' s',
       comment_callback no_end 2 bogus_form (initial bogus_tree) = Ok (true, current') s'
       /\ log s' = (log (initial bogus_tree)
                    ++ (if md_blacklist (metadata bogus_form) then []
                        else [Warn (Unsupported (md_name (metadata bogus_form))
                                      (source bogus_form))]))%list
       /\ directive current' = unresolved_slot (plugins no_end)
       /\ metadata current' = metadata bogus_form
       /\ same_but_log (initial bogus_tree) s'
       /\ (md_blacklist (metadata bogus_form) = false ->
           forall n t, gate_entry n current' t = Fail NullDirective).
Proof.
  refine (conj _ (conj _
    (unsupported_form_warned_once no_end 2 bogus_form (initial bogus_tree) _ _)));
    vm_compute; reflexivity.
Defined.

Lemma first_defining_plugin_resolves_witness :
  plugins shadowed
  = ([] ++ plugin_of "one" {[ "ignore" := raw ]} [] []
        :: [plugin_of "two" {[ "ignore" := ignore ]} [] []])%list
  /\ directive begin_form = Null
  /\ forallb (passes_over shadowed (md_name (metadata begin_form))) [] = true
  /\ is_blacklisted shadowed (plugin_of "one" {[ "ignore" := raw ]} [] [])
       (md_name (metadata begin_form)) = false
  /\ pl_control (plugin_of "one" {[ "ignore" := raw ]} [] [])
       !! md_name (metadata begin_form) = Some raw
  /\ resolved shadowed begin_form (initial comment_tree)
     = Ok (set_directive (set_preserve begin_form (negb (clean shadowed))) (Dir raw))
         (initial comment_tree).
Proof.
  refine (conj _ (conj _ (conj _ (conj _ (conj _
    (first_defining_plugin_resolves shadowed begin_form (initial comment_tree)
       [] (plugin_of "one" {[ "ignore" := raw ]} [] [])
       [plugin_of "two" {[ "ignore" := ignore ]} [] []] raw _ _ _ _ _))))));
    vm_compute; reflexivity.
Defined.

Lemma callback_without_end_witness :
  nodes (initial once_tree) !! 2 = Some (mk_comment "rtl:once")
  /\ directive once_form = Dir endless
  /\ cd_end endless = None
  /\ dispatch 2 once_form (initial once_tree) = Fail EndNotFunction.
Proof.
  refine (conj _ (conj _ (conj _
    (callback_without_end 2 (mk_comment "rtl:once") once_form endless
       (initial once_tree) _ _ _)))); vm_compute; reflexivity.
Defined.


(** Under [clean], a declaration without [raws.between] makes the value
    stage throw after the action answered true; with it, the fragments are
    trimmed. *)
Lemma value_stage_under_clean :
  value_loop util cleaning 0 0 [mkValue "ignore" (fun nd => (nd, true))] 3
    (initial bare_tree) = Fail TrimUndefined
  /\ nodes (final (value_loop util cleaning 0 0
                     [mkValue "ignore" (fun nd => (nd, true))] 3
                     (initial ignored_tree))) !! 3
     = Some (cleaned util false ": " ignored_decl).
Proof. vm_compute. done. Qed.

Lemma declaration_flips_bounded_witness :
  nodes (initial direction_tree) !! 3 = Some direction_decl
  /\ Declaration util two_plugins 3 (initial direction_tree)
     = Ok tt (final (Declaration util two_plugins 3 (initial direction_tree)))
  /\ (flipped (initial direction_tree)
      <= flipped (final (Declaration util two_plugins (3%positive)
                           (initial direction_tree)))
      <= flipped (initial direction_tree) + length (plugins two_plugins))%nat.
Proof.
  refine (conj _ (conj _
    (declaration_flips_bounded util two_plugins 3 (initial direction_tree)
       direction_decl _ _ _))); vm_compute; reflexivity.
Defined.

Lemma unflipped_last_declaration_renames_rule_witness :
  autoRename renaming = true
  /\ autoRenameStrict renaming = false
  /\ shouldProcess 6 (initial skip_tree)
     = Ok true (final (shouldProcess 6 (initial skip_tree)))
  /\ flipped (initial skip_tree) = 0%nat
  /\ nodes (initial skip_tree) !! 6 = Some (mk_decl 5 "color" "red")
  /\ nothing_matches util renaming (mk_decl 5 "color" "red") = true
  /\ parent (mk_decl 5 "color" "red") = Some 5
  /\ nodes (initial skip_tree) !! 5 = Some (mk_rule ".left")
  /\ type (mk_rule ".left") = rule
  /\ isLastOfType util 6 = true
  /\ Declaration util renaming 6 (initial skip_tree)
     = Ok tt (set_nodes
                (fun m => <[5 := set_selector (mk_rule ".left") ".right"]> m)
                (final (shouldProcess 6 (initial skip_tree)))).
Proof.
  refine (conj _ (conj _ (conj _ (conj _ (conj _ (conj _ (conj _ (conj _ (conj _ (conj _
    (unflipped_last_declaration_renames_rule util renaming 6 (initial skip_tree) _
       (mk_decl 5 "color" "red") 5 (mk_rule ".left")
       _ _ _ _ _ _ _ _ _ _))))))))))); vm_compute; reflexivity.
Defined.


Lemma atrule_mirrors_params_only_witness :
  nodes (initial atrule_tree) !! 2 = Some (mk_atrule ".left")
  /\ AtRule util base_config 2 (initial atrule_tree)
     = Ok tt (final (AtRule util base_config 2 (initial atrule_tree)))
  /\ exists ok s1,
       shouldProcess 2 (initial atrule_tree) = Ok ok s1
       /\ nodes (final (AtRule util base_config 2 (initial atrule_tree)))
          = (if ok && urls_atrule (processUrls base_config)
             then <[2 := with_params (mk_atrule ".left") ".right"]>
                    (nodes (initial atrule_tree))
             else nodes (initial atrule_tree))
       /\ flipped (final (AtRule util base_config 2 (initial atrule_tree)))
          = flipped (initial atrule_tree)
       /\ toBeRenamed (final (AtRule util base_config 2 (initial atrule_tree)))
          = toBeRenamed (initial atrule_tree)
       /\ log (final (AtRule util base_config 2 (initial atrule_tree))) = log s1
       /\ stack (final (AtRule util base_config 2 (initial atrule_tree))) = stack s1.
Proof.
  refine (conj _ (conj _
    (atrule_mirrors_params_only util base_config 2 (initial atrule_tree)
       (mk_atrule ".left") _ _ _))); vm_compute; reflexivity.
Defined.

Lemma only_comments_open_directives_witness :
  nodes nested !! 4 = Some (mk_rule ".a")
  /\ type (mk_rule ".a") <> comment
  /\ visit util ignore_config parser 4 nested
     = Ok tt (final (visit util ignore_config parser 4 nested))
  /\ stack (final (visit util ignore_config parser 4 nested)) ⊆ stack nested.
Proof.
  refine (conj _ (conj _ (conj _
    (only_comments_open_directives util ignore_config parser 4 nested (mk_rule ".a")
       _ _ _ _)))); try (vm_compute; reflexivity); compute_done.
Defined.

Lemma comment_touches_no_node_witness :
  Comment ignore_config parser 2 (initial comment_tree)
  = Ok tt (final (Comment ignore_config parser 2 (initial comment_tree)))
  /\ (nodes (final (Comment ignore_config parser 2 (initial comment_tree)))
      = nodes (initial comment_tree)
      /\ flipped (final (Comment ignore_config parser 2 (initial comment_tree)))
         = flipped (initial comment_tree)
      /\ toBeRenamed (final (Comment ignore_config parser 2 (initial comment_tree)))
         = toBeRenamed (initial comment_tree)
      /\ (forall n, n <> 2 ->
            processed (final (Comment ignore_config parser 2 (initial comment_tree))) !! n
            = processed (initial comment_tree) !! n)).
Proof.
  refine (conj _
    (comment_touches_no_node ignore_config parser 2 (initial comment_tree) _ _));
    vm_compute; reflexivity.
Defined.

Lemma run_log_shape_witness :
  run util ignore_config parser 1 [2; 3; 4] (initial open_tree)
  = Ok tt (final (run util ignore_config parser 1 [2; 3; 4] (initial open_tree)))
  /\ exists mid,
       log (final (run util ignore_config parser 1 [2; 3; 4] (initial open_tree)))
       = (log (initial open_tree) ++ [HookPre 1] ++ mid
          ++ map (fun e => Warn (unclosed_of e))
               (stack (final (run util ignore_config parser 1 [2; 3; 4]
                                (initial open_tree))))
          ++ map (fun kv => Warn (skipped_of kv))
               (toBeRenamed (final (run util ignore_config parser 1 [2; 3; 4]
                                      (initial open_tree))))
          ++ [HookPost 1])%list
       /\ Forall (fun e => is_handler_event e = true) mid.
Proof.
  refine (conj _
    (run_log_shape util ignore_config parser 1 [2; 3; 4] (initial open_tree) _ _));
    vm_compute; reflexivity.
Defined.

Lemma flipped_rule_is_not_renamed_witness :
  Declaration util renaming 3 (initial skip_tree)
  = Ok tt (final (Declaration util renaming 3 (initial skip_tree)))
  /\ flipped (final (Declaration util renaming 3 (initial skip_tree))) <> 0%nat
  /\ (selectors_kept (initial skip_tree)
        (final (Declaration util renaming 3 (initial skip_tree)))
      /\ toBeRenamed (final (Declaration util renaming 3 (initial skip_tree)))
         = toBeRenamed (initial skip_tree)).
Proof.
  refine (conj _ (conj _
    (flipped_rule_is_not_renamed util renaming 3 (initial skip_tree) _ _ _)));
    try (vm_compute; reflexivity); compute_done.
Defined.
